(** * BackerUpper: archive naming, rotation and retention

    A shallow embedding of [backerupper.py] (class [BackerUpper]) and of the
    command-line entry point [cli.py], followed by the properties of the
    naming, rotation and retention logic.

    Conventions of the embedding:
    - The interpreter is CPython 3.11 on Linux, with its default settings.
    - Python [str] values are [string]s; the characters are code points
      from 1 to 255 (the operating system has no name with a NUL).
    - Python [int] values are [Z]; they never wrap.
    - A [pathlib] path is the list of its components, root first.  Symbolic
      links are outside the model, so [Path.resolve] only makes a path
      absolute and folds [..]; with [strict=True] it also looks every
      component up, one after the other.
    - An [OSError] carries the absolute location of the path it names.
    - The file system is an association list from absolute paths to nodes,
      in directory-scan order; every method threads a [world] that also
      records the mutating system calls that were issued.
    - Exceptions are values of [exn]; a method is a function
      [world -> outcome * world].
    - Log records below the error level have no effect on the run and are
      left out; the error records of the command line are kept. *)

From Stdlib Require Import List Bool Arith ZArith NArith Lia.
From Stdlib Require Import Ascii String.
From Stdlib Require Import Permutation Sorted OrderedTypeEx.
Import ListNotations.

Local Open Scope string_scope.
Local Open Scope list_scope.

(** ** Characters and strings *)

Module Str.

Definition is_digit (c : ascii) : bool :=
  (("0" <=? c) && (c <=? "9"))%char.

(** The characters that [int] skips around a number: TAB, LF, VT, FF, CR
    and SPACE, and above 127 the two spaces NEL and NBSP.  The separators
    FS, GS, RS and US (28 to 31) are not skipped. *)
Definition is_space (c : ascii) : bool :=
  let n := N_of_ascii c in
  ((9 <=? n) && (n <=? 13) || (n =? 32) || (n =? 133) || (n =? 160))%N.

Fixpoint all (p : ascii -> bool) (s : string) : bool :=
  match s with
  | EmptyString => true
  | String c r => p c && all p r
  end.

Definition no_dot (s : string) : bool :=
  all (fun c => negb (c =? ".")%char) s.

Fixpoint lstrip (s : string) : string :=
  match s with
  | EmptyString => EmptyString
  | String c r => if is_space c then lstrip r else s
  end.

(** ["**" in s] *)
Fixpoint has_stars (s : string) : bool :=
  match s with
  | EmptyString => false
  | String c r =>
      match r with
      | EmptyString => false
      | String d _ => ((c =? "*") && (d =? "*"))%char || has_stars r
      end
  end.

(** [c in s] *)
Definition has (c : ascii) (s : string) : bool :=
  negb (all (fun d => negb (d =? c)%char) s).

(** [s[:n]] *)
Fixpoint take (n : nat) (s : string) : string :=
  match n, s with
  | S k, String c r => String c (take k r)
  | _, _ => EmptyString
  end.

Definition squote : ascii := "'"%char.
Definition dquote : ascii := ascii_of_N 34.
Definition backslash : ascii := ascii_of_N 92.

Definition hex_digit (n : N) : ascii :=
  ascii_of_N (if (n <? 10)%N then 48 + n else 87 + n).

(** [str.isprintable] of one character below 256: the control characters,
    NBSP and the soft hyphen are not printable. *)
Definition is_printable (c : ascii) : bool :=
  let n := N_of_ascii c in
  ((32 <=? n) && (n <=? 126) || (161 <=? n) && negb (n =? 173))%N.

(** How [repr] writes one character between quotes of the kind [quote]. *)
Definition escape (quote c : ascii) : string :=
  let n := N_of_ascii c in
  if ((c =? quote) || (c =? backslash))%char then
    String backslash (String c EmptyString)
  else if (n =? 9)%N then String backslash "t"
  else if (n =? 10)%N then String backslash "n"
  else if (n =? 13)%N then String backslash "r"
  else if is_printable c then String c EmptyString
  else String backslash
         (String "x" (String (hex_digit (n / 16))
                        (String (hex_digit (n mod 16)) EmptyString))).

Fixpoint escape_all (quote : ascii) (s : string) : string :=
  match s with
  | EmptyString => EmptyString
  | String c r => escape quote c ++ escape_all quote r
  end.

(** [repr(s)]: between apostrophes, or between double quotes when [s]
    holds an apostrophe and no double quote. *)
Definition repr (s : string) : string :=
  let quote := if has squote s && negb (has dquote s) then dquote else squote in
  String quote (escape_all quote s ++ String quote EmptyString).

(** [s.rsplit(".", 1)] when [s] holds a dot: the text before the last dot
    and the text after it. *)
Fixpoint rsplit1 (s : string) : option (string * string) :=
  match s with
  | EmptyString => None
  | String c r =>
      match rsplit1 r with
      | Some (a, b) => Some (String c a, b)
      | None => if (c =? ".")%char then Some (EmptyString, r) else None
      end
  end.

(** [s.rsplit(".", 2)]: at most two splits, counted from the right. *)
Definition rsplit2 (s : string) : list string :=
  match rsplit1 s with
  | None => [s]
  | Some (a, c) =>
      match rsplit1 a with
      | None => [a; c]
      | Some (x, b) => [x; b; c]
      end
  end.

(** ["."join(parts)] *)
Definition join_dot (parts : list string) : string := String.concat "." parts.

(** [s.split("/")] *)
Fixpoint split_slash (s : string) : list string :=
  match s with
  | EmptyString => [EmptyString]
  | String c r =>
      if (c =? "/")%char then EmptyString :: split_slash r
      else match split_slash r with
           | [] => [String c EmptyString]
           | h :: t => String c h :: t
           end
  end.

End Str.

(** ** Python integers: [str(int)] and [int(str)] *)

Module PyInt.

Definition digit_char (d : N) : ascii := ascii_of_N (48 + d).

Definition digit_val (c : ascii) : N := N_of_ascii c - 48.

(** Decimal digits of [n], most significant first; [fuel] bounds the number
    of digits. *)
Fixpoint digits_of (fuel : nat) (n : N) : string :=
  match fuel with
  | O => EmptyString
  | S f =>
      if (n <? 10)%N then String (digit_char n) EmptyString
      else digits_of f (n / 10) ++ String (digit_char (n mod 10)) EmptyString
  end.

(** A number below [2^k] has at most [k] decimal digits (and at least one). *)
Definition str_N (n : N) : string := digits_of (S (N.to_nat (N.log2 n))) n.

(** [str(z)] for an [int]: plain decimal, a minus sign for negatives, no
    padding. *)
Definition py_str (z : Z) : string :=
  if (z <? 0)%Z then String "-" (str_N (Z.to_N (- z))) else str_N (Z.to_N z).

(** The number that a text of digits denotes, continuing from [acc]. *)
Fixpoint digits_value (acc : N) (s : string) : N :=
  match s with
  | EmptyString => acc
  | String c r => digits_value (10 * acc + digit_val c) r
  end.

(** The run of digits at the start of [s], where single underscores may
    separate digits: its value, the number of its digits, and the text that
    follows it.  [prev] tells whether the previous character was a digit;
    there is no run when an underscore comes first, last, or after another
    underscore, or when there is no digit at all. *)
Fixpoint scan (acc : N) (count : nat) (prev : bool) (s : string)
  : option (N * nat * string) :=
  match s with
  | EmptyString => if prev then Some (acc, count, s) else None
  | String c r =>
      if Str.is_digit c then scan (10 * acc + digit_val c) (S count) true r
      else if (c =? "_")%char then
        if prev then scan acc count false r else None
      else if prev then Some (acc, count, s) else None
  end.

(** The longest decimal text that [int] reads and [str] writes
    ([sys.get_int_max_str_digits()]). *)
Definition max_str_digits : nat := 4300.

Inductive int_result :=
| IntOk (z : Z)            (* the number *)
| IntInvalid               (* [ValueError]: invalid literal *)
| IntTooLong (count : nat) (* [ValueError]: more digits than the limit *).

(** What follows the sign: the run of digits, then whitespace.  The limit
    on the digits is tested when the run has been read, before what follows
    the run is looked at. *)
Definition unsigned (neg : bool) (s : string) : int_result :=
  match scan 0 0 false s with
  | None => IntInvalid
  | Some (n, count, rest) =>
      if (max_str_digits <? count)%nat then IntTooLong count
      else match Str.lstrip rest with
           | EmptyString => IntOk (if neg then - Z.of_N n else Z.of_N n)%Z
           | _ => IntInvalid
           end
  end.

(** [int(s)] in base 10: whitespace, one sign, the run of digits,
    whitespace. *)
Definition int_of (s : string) : int_result :=
  match Str.lstrip s with
  | String "-" r => unsigned true r
  | String "+" r => unsigned false r
  | s1 => unsigned false s1
  end.

(** The value of [int(s)]; [None] stands for a [ValueError]. *)
Definition py_int (s : string) : option Z :=
  match int_of s with
  | IntOk z => Some z
  | _ => None
  end.

(** [str(z)] returns: [z] has no more digits than the limit. *)
Definition printable (z : Z) : bool :=
  (String.length (str_N (Z.abs_N z)) <=? max_str_digits)%nat.

End PyInt.

(** ** Glob patterns ([fnmatch]) *)

Module Fnmatch.

Inductive token :=
| TStar                              (* "*": any text *)
| TAny                               (* "?": any one character *)
| TLit (c : ascii)                   (* a literal character *)
| TSet (neg : bool) (body : string). (* "[seq]" and "[!seq]" *)

(** The text of a character set up to its closing bracket, and the rest of
    the pattern.  A "]" that comes first is a member of the set. *)
Fixpoint bracket_body (first : bool) (s : string) : option (string * string) :=
  match s with
  | EmptyString => None
  | String c r =>
      if (c =? "]")%char && negb first then Some (EmptyString, r)
      else match bracket_body false r with
           | Some (b, rest) => Some (String c b, rest)
           | None => None
           end
  end.

(** A "[" with no closing bracket is a literal character. *)
Fixpoint tokenize (fuel : nat) (p : string) : list token :=
  match fuel with
  | O => []
  | S f =>
      match p with
      | EmptyString => []
      | String "*" r => TStar :: tokenize f r
      | String "?" r => TAny :: tokenize f r
      | String "[" r =>
          let (neg, r') :=
            match r with
            | String "!" r1 => (true, r1)
            | _ => (false, r)
            end in
          match bracket_body true r' with
          | Some (body, rest) => TSet neg body :: tokenize f rest
          | None => TLit "[" :: tokenize f r
          end
      | String c r => TLit c :: tokenize f r
      end
  end.

(** Membership in a set: single characters and ranges [lo-hi]; a range with
    [hi < lo] is empty. *)
Fixpoint in_set (c : ascii) (body : string) : bool :=
  match body with
  | EmptyString => false
  | String lo (String "-" (String hi r)) =>
      (lo <=? c)%char && (c <=? hi)%char || in_set c r
  | String x r => (x =? c)%char || in_set c r
  end.

Fixpoint match_tokens (ts : list token) (s : string) : bool :=
  match ts with
  | [] => match s with EmptyString => true | _ => false end
  | TStar :: ts' =>
      (fix star (s : string) : bool :=
         match_tokens ts' s ||
         match s with
         | EmptyString => false
         | String _ r => star r
         end) s
  | TAny :: ts' =>
      match s with
      | EmptyString => false
      | String _ r => match_tokens ts' r
      end
  | TLit c :: ts' =>
      match s with
      | EmptyString => false
      | String d r => (c =? d)%char && match_tokens ts' r
      end
  | TSet neg body :: ts' =>
      match s with
      | EmptyString => false
      | String d r => xorb neg (in_set d body) && match_tokens ts' r
      end
  end.

(** [fnmatch.fnmatchcase(name, pattern)], the test that [Path.glob] applies
    to each directory entry (POSIX: case sensitive, dot files included). *)
Definition fnmatch (pattern name : string) : bool :=
  match_tokens (tokenize (S (String.length pattern)) pattern) name.

End Fnmatch.

(** ** Sorting as [sorted] does *)

Module PySort.

Section Sorted.
Context {A : Type}.
(** [lt] is the [<] of the elements (or of their keys). *)
Variable lt : A -> A -> bool.

(** [x] goes in front of the first element that is not strictly before
    it, so equal elements keep the order they came in. *)
Fixpoint insert (x : A) (l : list A) : list A :=
  match l with
  | [] => [x]
  | y :: r => if lt y x then y :: insert x r else x :: l
  end.

Fixpoint sort (l : list A) : list A :=
  match l with
  | [] => []
  | x :: r => insert x (sort r)
  end.

(** [a] may stand in front of [b]: [b] is not strictly before [a]. *)
Definition before (a b : A) : Prop := lt b a = false.
End Sorted.

(** [sorted(l, reverse=reverse)]: a stable sort; with [reverse] the order is
    descending and equal elements still keep their original order. *)
Definition sorted {A : Type} (lt : A -> A -> bool) (reverse : bool) (l : list A)
  : list A :=
  if reverse then sort (fun a b => lt b a) l else sort lt l.

End PySort.

(** ** Paths ([pathlib]) *)

Module Pathlib.

(** A path: whether it starts at the root, and its components. *)
Record Path := mkPath { anchored : bool; parts : list string }.

(** [Path(s)]: empty components and "." are dropped, ".." is kept. *)
Definition of_string (s : string) : Path :=
  {| anchored := match s with String "/" _ => true | _ => false end;
     parts := filter (fun c => negb ((c =? "") || (c =? ".")))%string
                     (Str.split_slash s) |}.

(** [p.name] *)
Definition name (p : Path) : string := last (parts p) "".

(** [p.parent] *)
Definition parent (p : Path) : Path :=
  {| anchored := anchored p; parts := removelast (parts p) |}.

(** [Path(f"{p}/{child}")] for a [child] that is one component: path
    components never hold a slash, so the text is that of [p / child]. *)
Definition child (p : Path) (c : string) : Path :=
  {| anchored := anchored p; parts := parts p ++ [c] |}.

(** Folding of ".." components, left to right; ".." at the root stays at
    the root. *)
Definition collapse (ps : list string) : list string :=
  fold_left (fun acc c => if (c =? "..")%string then removelast acc else acc ++ [c])
            ps [].

(** The components that [<] compares: the root counts as a first
    component. *)
Definition cparts (p : Path) : list string :=
  (if anchored p then ["/"] else []) ++ parts p.

Definition pcompare (p q : Path) : comparison :=
  list_compare String.compare (cparts p) (cparts q).

(** [p < q] on paths *)
Definition ltb (p q : Path) : bool :=
  match pcompare p q with
  | Lt => true
  | _ => false
  end.

End Pathlib.

Export Pathlib(Path, mkPath, anchored, parts).

(** ** Time: [datetime.now(timezone.utc)] and [strftime] *)

Module Datetime.

Record datetime := mkDatetime {
  year : N; month : N; day : N;
  hour : N; minute : N; second : N; microsecond : N
}.

(** The ranges of the fields of a [datetime] whose year has four digits. *)
Definition valid (t : datetime) : Prop :=
  (1000 <= year t <= 9999 /\ 1 <= month t <= 12 /\ 1 <= day t <= 31 /\
   hour t <= 23 /\ minute t <= 59 /\ second t <= 59 /\ microsecond t <= 999999)%N.

(** [s.zfill(w)] *)
Definition zfill (w : nat) (s : string) : string :=
  string_of_list_ascii (repeat "0"%char (w - String.length s)) ++ s.

(** A numeric field printed with a minimal width, as [%0wd] does. *)
Definition field (w : nat) (n : N) : string := zfill w (PyInt.str_N n).

(** [t.strftime("%Y-%m-%dT%H-%M-%S-%fZ")]: the C library writes the year
    without padding, the other fields with zeros up to their width. *)
Definition strftime_marker (t : datetime) : string :=
  PyInt.str_N (year t) ++ "-" ++ field 2 (month t) ++ "-" ++ field 2 (day t) ++ "T" ++
  field 2 (hour t) ++ "-" ++ field 2 (minute t) ++ "-" ++ field 2 (second t) ++ "-" ++
  field 6 (microsecond t) ++ "Z".

End Datetime.

(** ** The world: file system, system calls, exceptions *)

Inductive node :=
| File (data : N)   (* a regular file and its contents *)
| Dir.              (* a directory *)

(** Absolute paths to nodes, in the order in which a directory scan lists
    them. *)
Definition filesystem := list (list string * node).

Inductive syscall :=
| SysRename (src dst : list string)
| SysOpenWrite (p : list string)
| SysUnlink (p : list string).

(** [calls] holds the mutating system calls issued so far, the latest
    first, whether they succeeded or not. *)
Record world := mkWorld { fs : filesystem; calls : list syscall }.

(** What a run reads but never changes. *)
Record env := mkEnv {
  cwd : list string;                       (* the working directory *)
  home : string -> option (list string);   (* home of a user; "" is the caller *)
  now : Datetime.datetime;                 (* the UTC clock *)
  tar_bytes : N                            (* what the tar writer produces *)
}.

Inductive exn :=
| ValueError (msg : string)
| TypeError
| AttributeError
| IndexError
| RuntimeError
| FileNotFoundError (p : list string)
| IsADirectoryError (p : list string)
| NotADirectoryError (p : list string)
| DirectoryNotEmpty (p : list string).

(** The message of the [ValueError] that [int(s)] raises on a text that
    is no number: [repr(s)], cut after 200 characters. *)
Definition invalid_literal (s : string) : string :=
  "invalid literal for int() with base 10: " ++ Str.take 200 (Str.repr s).

(** The message of the [ValueError] that [int(s)] raises on a text with
    too many digits. *)
Definition too_many_digits (count : nat) : string :=
  "Exceeds the limit (4300 digits) for integer string conversion: value has " ++
  PyInt.str_N (N.of_nat count) ++
  " digits; use sys.set_int_max_str_digits() to increase the limit".

(** The message of the [ValueError] of [int(s)], when it raises one. *)
Definition int_error (s : string) : string :=
  match PyInt.int_of s with
  | PyInt.IntTooLong count => too_many_digits count
  | _ => invalid_literal s
  end.

(** The message of the [ValueError] that [str(z)] raises on a number with
    too many digits. *)
Definition str_limit : string :=
  "Exceeds the limit (4300 digits) for integer string conversion; " ++
  "use sys.set_int_max_str_digits() to increase the limit".

(** The message of the [ValueError] of [Path.glob]. *)
Definition invalid_pattern : string :=
  "Invalid pattern: '**' can only be an entire path component".

Inductive outcome (A : Type) :=
| Return (a : A)
| Raise (e : exn).
Arguments Return {A} a.
Arguments Raise {A} e.

(** A computation that may change the world and may raise. *)
Definition M (A : Type) : Type := world -> outcome A * world.

Definition ret {A} (a : A) : M A := fun w => (Return a, w).
Definition raise {A} (e : exn) : M A := fun w => (Raise e, w).
Definition bind {A B} (c : M A) (k : A -> M B) : M B :=
  fun w => match c w with
           | (Return a, w') => k a w'
           | (Raise e, w') => (Raise e, w')
           end.

(** [c] never changes the world. *)
Definition reads_only {A} (c : M A) : Prop := forall w, snd (c w) = w.

Notation "x <- c ;; k" := (bind c (fun x => k))
  (at level 61, c at next level, right associativity).
Notation "c ;;; k" := (bind c (fun _ => k))
  (at level 61, right associativity).

(** [for x in l: body(x)] *)
Fixpoint for_each {A} (body : A -> M unit) (l : list A) : M unit :=
  match l with
  | [] => ret tt
  | x :: r => body x ;;; for_each body r
  end.

(** [[f(x) for x in l]] where [f] may raise *)
Fixpoint map_m {A B} (f : A -> M B) (l : list A) : M (list B) :=
  match l with
  | [] => ret []
  | x :: r => y <- f x ;; ys <- map_m f r ;; ret (y :: ys)
  end.

Module Fs.

Definition path_eqb (p q : list string) : bool :=
  if list_eq_dec string_dec p q then true else false.

Fixpoint lookup (f : filesystem) (p : list string) : option node :=
  match f with
  | [] => None
  | (q, n) :: r => if path_eqb q p then Some n else lookup r p
  end.

Definition remove (f : filesystem) (p : list string) : filesystem :=
  filter (fun e => negb (path_eqb (fst e) p)) f.

Definition mem (p : list string) (l : list (list string)) : bool :=
  existsb (path_eqb p) l.

(** The file system without the entries at the paths [l]. *)
Definition remove_all (f : filesystem) (l : list (list string)) : filesystem :=
  filter (fun e => negb (mem (fst e) l)) f.

(** The root always exists. *)
Definition exists_ (f : filesystem) (p : list string) : bool :=
  match p with
  | [] => true
  | _ => match lookup f p with Some _ => true | None => false end
  end.

Definition is_dir (f : filesystem) (p : list string) : bool :=
  match p with
  | [] => true
  | _ => match lookup f p with Some Dir => true | _ => false end
  end.

Fixpoint is_prefix (p q : list string) : bool :=
  match p, q with
  | [], _ => true
  | a :: p', b :: q' => (a =? b)%string && is_prefix p' q'
  | _ :: _, [] => false
  end.

(** Some entry lies strictly below [p]. *)
Definition has_children (f : filesystem) (p : list string) : bool :=
  existsb (fun e => is_prefix p (fst e) && negb (path_eqb (fst e) p)) f.

(** The path of an entry after [old] has become [new]: [old] itself and
    what lies below it move along. *)
Definition retarget (old new q : list string) : list string :=
  if is_prefix old q then new ++ skipn (List.length old) q else q.

(** The entries of directory [d] whose name matches [pattern], in scan
    order: [Path(d).glob(pattern)].  A directory that does not exist has no
    entries. *)
Definition glob (f : filesystem) (d : list string) (pattern : string)
  : list (list string) :=
  map fst
    (filter (fun e => match fst e with
                      | [] => false
                      | q => path_eqb (removelast q) d &&
                             Fnmatch.fnmatch pattern (last q "")
                      end) f).

(** [os.unlink(p)] *)
Definition unlink (p : list string) : M unit :=
  fun w =>
    let w1 := {| fs := fs w; calls := SysUnlink p :: calls w |} in
    match lookup (fs w) p with
    | None => (Raise (FileNotFoundError p), w1)
    | Some Dir => (Raise (IsADirectoryError p), w1)
    | Some (File _) =>
        (Return tt, {| fs := remove (fs w) p; calls := calls w1 |})
    end.

(** [os.rename(old, new)] within one directory: an existing file at [new]
    is replaced. *)
Definition rename (old new : list string) : M unit :=
  fun w =>
    let w1 := {| fs := fs w; calls := SysRename old new :: calls w |} in
    let move := {| fs := map (fun e => (retarget old new (fst e), snd e))
                             (remove (fs w) new);
                   calls := calls w1 |} in
    match lookup (fs w) old with
    | None => (Raise (FileNotFoundError old), w1)
    | Some n =>
        if path_eqb old new then (Return tt, w1)
        else match n, lookup (fs w) new with
             | File _, Some Dir => (Raise (IsADirectoryError new), w1)
             | Dir, Some (File _) => (Raise (NotADirectoryError new), w1)
             | Dir, Some Dir =>
                 if has_children (fs w) new then (Raise (DirectoryNotEmpty new), w1)
                 else (Return tt, move)
             | _, _ => (Return tt, move)
             end
    end.

(** Going down from [path] through the components [rest], the first one
    that is no directory is a regular file. *)
Fixpoint blocked_by_file (f : filesystem) (path rest : list string) : bool :=
  match rest with
  | [] => false
  | c :: r =>
      match lookup f (path ++ [c]) with
      | Some Dir => blocked_by_file f (path ++ [c]) r
      | Some (File _) => true
      | None => false
      end
  end.

(** What the system reports for [p] when the directory of [p] cannot be
    reached: [ENOTDIR] when a regular file is in the way, [ENOENT] when a
    directory is missing. *)
Definition reach_error (f : filesystem) (p : list string) : exn :=
  if blocked_by_file f [] (removelast p) then NotADirectoryError p
  else FileNotFoundError p.

(** [os.lstat] of the entry [name] of [path], where [path] has been found
    before: [None] when the entry is there. *)
Definition lstat (f : filesystem) (path : list string) (name : string)
  : option exn :=
  match lookup f path with
  | Some (File _) => Some (NotADirectoryError (path ++ [name]))
  | _ =>
      match lookup f (path ++ [name]) with
      | Some _ => None
      | None => Some (FileNotFoundError (path ++ [name]))
      end
  end.

(** [os.path.realpath(..., strict=True)] without symbolic links: from
    [path] on, ".." drops the last component, and every other component is
    looked up before it is added. *)
Fixpoint realpath (f : filesystem) (path rest : list string)
  : list string + exn :=
  match rest with
  | [] => inl path
  | c :: r =>
      if (c =? "..")%string then realpath f (removelast path) r
      else match lstat f path c with
           | Some e => inr e
           | None => realpath f (path ++ [c]) r
           end
  end.

(** Opening [p] for writing creates it, or empties the file that is there. *)
Definition open_write (p : list string) : M unit :=
  fun w =>
    let w1 := {| fs := fs w; calls := SysOpenWrite p :: calls w |} in
    if negb (is_dir (fs w) (removelast p)) then (Raise (reach_error (fs w) p), w1)
    else match lookup (fs w) p with
         | Some Dir => (Raise (IsADirectoryError p), w1)
         | Some (File _) =>
             (Return tt,
              {| fs := map (fun e => if path_eqb (fst e) p then (p, File 0) else e) (fs w);
                 calls := calls w1 |})
         | None => (Return tt, {| fs := fs w ++ [(p, File 0)]; calls := calls w1 |})
         end.

(** Writing the contents of the open file [p]. *)
Definition write (p : list string) (data : N) : M unit :=
  fun w =>
    (Return tt,
     {| fs := map (fun e => if path_eqb (fst e) p then (p, File data) else e) (fs w);
        calls := calls w |}).

Definition exists_m (p : list string) : M bool :=
  fun w => (Return (exists_ (fs w) p), w).

(** [list(Path(d).glob(pattern))] for a [pattern] of one component: "**"
    next to other text is refused, whether [d] exists or not. *)
Definition glob_m (d : list string) (pattern : string) : M (list Path) :=
  fun w =>
    if Str.has_stars pattern then (Raise (ValueError invalid_pattern), w)
    else (Return (map (mkPath true) (glob (fs w) d pattern)), w).

End Fs.

(** ** Keyword arguments *)

(** A value given for [source] or [destination]. *)
Inductive arg :=
| ArgNone               (* [None] *)
| ArgStr (s : string)   (* a [str] *)
| ArgPath (p : Path).   (* a [Path] *)

(** The [**kwargs] dictionary: [None] in a field says that the key is
    absent.  [kw_others] tells whether there are further keys (the command
    line adds [verbose] and [debug]). *)
Record kwargs := mkKwargs {
  kw_source : option arg;
  kw_destination : option arg;
  kw_retention_count : option Z;
  kw_sequential : option bool;
  kw_uncompressed : option bool;
  kw_archive : option Path;
  kw_others : bool
}.

Definition kw_is_empty (kw : kwargs) : bool :=
  match kw_source kw, kw_destination kw, kw_retention_count kw,
        kw_sequential kw, kw_uncompressed kw, kw_archive kw with
  | None, None, None, None, None, None => negb (kw_others kw)
  | _, _, _, _, _, _ => false
  end.

(** [kwargs.update(source=p)] *)
Definition update_source (kw : kwargs) (p : Path) : kwargs :=
  {| kw_source := Some (ArgPath p);
     kw_destination := kw_destination kw;
     kw_retention_count := kw_retention_count kw;
     kw_sequential := kw_sequential kw;
     kw_uncompressed := kw_uncompressed kw;
     kw_archive := kw_archive kw;
     kw_others := kw_others kw |}.

(** [kwargs.update(archive=p)] *)
Definition update_archive (kw : kwargs) (p : Path) : kwargs :=
  {| kw_source := kw_source kw;
     kw_destination := kw_destination kw;
     kw_retention_count := kw_retention_count kw;
     kw_sequential := kw_sequential kw;
     kw_uncompressed := kw_uncompressed kw;
     kw_archive := Some p;
     kw_others := kw_others kw |}.

(** [kwargs.get("sequential", False)] and its siblings *)
Definition get_sequential (kw : kwargs) : bool :=
  match kw_sequential kw with Some b => b | None => false end.
Definition get_uncompressed (kw : kwargs) : bool :=
  match kw_uncompressed kw with Some b => b | None => false end.
Definition get_retention_count (kw : kwargs) : Z :=
  match kw_retention_count kw with Some k => k | None => 10%Z end.

(** ** The class [BackerUpper] *)

Module BackerUpper.

Section Methods.
Variable E : env.

(** [Path(x)] *)
Definition to_path (x : arg) : M Path :=
  match x with
  | ArgNone => raise TypeError
  | ArgStr s => ret (Pathlib.of_string s)
  | ArgPath p => ret p
  end.

(** [p.expanduser()]: a relative path whose first component starts with
    "~" is moved below that user's home. *)
Definition expanduser (p : Path) : M Path :=
  match anchored p, parts p with
  | false, String "~" user :: rest =>
      match home E user with
      | Some h => ret (mkPath true (h ++ rest))
      | None => raise RuntimeError
      end
  | _, _ => ret p
  end.

(** [p.resolve()] *)
Definition resolve (p : Path) : Path :=
  mkPath true
    (Pathlib.collapse (if anchored p then parts p else cwd E ++ parts p)).

(** [p.resolve(strict=True)] *)
Definition resolve_strict (p : Path) : M Path :=
  fun w =>
    match Fs.realpath (fs w) []
            (if anchored p then parts p else cwd E ++ parts p) with
    | inl q => (Return (mkPath true q), w)
    | inr e => (Raise e, w)
    end.

Definition resolve_source (kw : kwargs) : M Path :=
  p <- to_path (match kw_source kw with Some a => a | None => ArgNone end) ;;
  p' <- expanduser p ;;
  resolve_strict p'.

Definition resolve_destination (kw : kwargs) : M Path :=
  match kw_source kw with
  | Some (ArgPath source) =>
      destination <-
        match (match kw_destination kw with
               | Some d => d
               | None => ArgPath (Pathlib.parent source)
               end) with
        | ArgPath d => ret d
        | d => p <- to_path d ;; p' <- expanduser p ;; ret (resolve p')
        end ;;
      let marker :=
        if get_sequential kw then PyInt.py_str 1
        else Datetime.strftime_marker (now E) in
      let ext := if get_uncompressed kw then "tar" else "tgz" in
      ret (resolve (Pathlib.child destination
                      (Pathlib.name source ++ "." ++ marker ++ "." ++ ext)))
  | _ => raise AttributeError   (* [source.parent] on a value that is no path *)
  end.

Definition gather_matching_archives (kw : kwargs) : M (string * list Path) :=
  match kw_archive kw with
  | None => raise AttributeError
  | Some archive =>
      let parts := Str.rsplit2 (Pathlib.name archive) in
      let pattern := Str.join_dot [hd "" parts; "*"; last parts ""] in
      archives <- Fs.glob_m (Pathlib.parts (Pathlib.parent archive)) pattern ;;
      ret (pattern, archives)
  end.

(** [int(item.name.rsplit(".", 2)[1])] *)
Definition marker_of (item : Path) : M Z :=
  match nth_error (Str.rsplit2 (Pathlib.name item)) 1 with
  | None => raise IndexError
  | Some m =>
      match PyInt.py_int m with
      | Some z => ret z
      | None => raise (ValueError (int_error m))
      end
  end.

(** [(int(parts[1]), item)] for each item *)
Definition keyed (archives : list Path) : M (list (Z * Path)) :=
  map_m (fun item => z <- marker_of item ;; ret (z, item)) archives.

Definition key_lt (a b : Z * Path) : bool := (fst a <? fst b)%Z.

(** The name an archive is moved to: the marker plus one. *)
Definition next_name (item : Path) : M Path :=
  let parts := Str.rsplit2 (Pathlib.name item) in
  z <- marker_of item ;;
  if PyInt.printable (z + 1) then
    let parts' :=
      match parts with
      | a :: _ :: r => a :: PyInt.py_str (z + 1) :: r
      | _ => parts
      end in
    ret (resolve (Pathlib.child (Pathlib.parent item) (Str.join_dot parts')))
  else raise (ValueError str_limit).

Definition move_previous_archives (kw : kwargs) : M unit :=
  if negb (get_sequential kw) then ret tt
  else
    pa <- gather_matching_archives kw ;;
    let archives := snd pa in
    match archives with
    | [] => ret tt
    | _ =>
        items <- keyed archives ;;
        let items_ordered := PySort.sorted key_lt true items in
        let archives := map snd items_ordered in
        for_each (fun item =>
                    new_name <- next_name item ;;
                    Fs.rename (Pathlib.parts item) (Pathlib.parts new_name))
                 archives
    end.

(** Where [tar.add(source)] looks for the source: a path or a text names
    a place, [None] does not. *)
Definition source_location (source : option arg) : option (list string) :=
  match source with
  | Some (ArgPath p) => Some (parts p)
  | Some (ArgStr s) => Some (parts (resolve (Pathlib.of_string s)))
  | _ => None
  end.

Definition create_archive (kw : kwargs) : M unit :=
  match kw_archive kw with
  | None => raise (ValueError "nothing to open")
  | Some archive =>
      Fs.open_write (parts archive) ;;;
      match source_location (kw_source kw) with
      | Some source =>
          ok <- Fs.exists_m source ;;
          if ok then Fs.write (parts archive) (tar_bytes E)
          else raise (FileNotFoundError source)
      | None => raise TypeError
      end
  end.

Definition remove_previous_archives (kw : kwargs) : M unit :=
  let retention_count := get_retention_count kw in
  if (retention_count <=? 0)%Z then ret tt
  else
    pa <- gather_matching_archives kw ;;
    let archives := snd pa in
    if (Z.of_nat (List.length archives) <=? retention_count)%Z then ret tt
    else
      archives <-
        (if get_sequential kw then
           items <- keyed archives ;;
           ret (map snd (PySort.sorted key_lt false items))
         else ret (PySort.sorted Pathlib.ltb true archives)) ;;
      for_each (fun item => Fs.unlink (parts item))
               (skipn (Z.to_nat retention_count) archives).

(** [__call__]: the whole run; [nargs] counts the positional arguments
    and [kw] holds the keyword arguments. *)
Definition call (nargs : nat) (kw : kwargs) : M unit :=
  if (nargs =? 0)%nat && kw_is_empty kw then
    raise (ValueError "No arguments passed")
  else
    source <- resolve_source kw ;;
    let kw := update_source kw source in
    archive <- resolve_destination kw ;;
    let kw := update_archive kw archive in
    move_previous_archives kw ;;;
    create_archive kw ;;;
    remove_previous_archives kw.

End Methods.

End BackerUpper.

(** ** The command line ([cli.py]) *)

Module Cli.

(** The namespace that [parse_known_args] returns. *)
Record argv := mkArgv {
  source : string;
  destination : option string;   (* [--to]; [None] when the option is left out *)
  retention_count : Z;           (* [--keep], default 10 *)
  sequential : bool;
  uncompressed : bool;
  verbose : bool;
  debug : bool
}.

(** [vars(argv)]: every option is a key, also those left out. *)
Definition vars (a : argv) : kwargs :=
  {| kw_source := Some (ArgStr (source a));
     kw_destination := Some (match destination a with
                             | Some d => ArgStr d
                             | None => ArgNone
                             end);
     kw_retention_count := Some (retention_count a);
     kw_sequential := Some (sequential a);
     kw_uncompressed := Some (uncompressed a);
     kw_archive := None;
     kw_others := true |}.

(** What the process leaves behind: its exit status and the records that
    [logging.error] wrote. *)
Record exit := mkExit { status : Z; errors : list exn }.

(** The [try] block of the script.  An exception that leaves the script
    ends the interpreter with status 1. *)
Definition run (E : env) (a : argv) (w : world) : exit * world :=
  match BackerUpper.call E 0 (vars a) w with
  | (Return _, w') => (mkExit 0 [], w')
  | (Raise err, w') =>
      if debug a then (mkExit 1 [err], w') else (mkExit 0 [err], w')
  end.

End Cli.

(** ** Notions used to state the properties *)

Module Spec.

(** The integer marker that the name of an archive carries, if any. *)
Definition marker_value (p : Path) : option Z :=
  match nth_error (Str.rsplit2 (Pathlib.name p)) 1 with
  | Some m => PyInt.py_int m
  | None => None
  end.

(** What [int] or the subscript raises on an archive without an integer
    marker: the message quotes the marker text. *)
Definition bad_marker_error (p : Path) (e : exn) : Prop :=
  match nth_error (Str.rsplit2 (Pathlib.name p)) 1 with
  | None => e = IndexError
  | Some m => PyInt.py_int m = None /\ e = ValueError (int_error m)
  end.

(** [bad] is the first archive of [l] without an integer marker. *)
Definition first_malformed (l : list Path) (bad : Path) : Prop :=
  exists l1 l2,
    l = l1 ++ bad :: l2 /\
    (forall p, In p l1 -> marker_value p <> None) /\
    marker_value bad = None.

(** The marker of [p] is an integer whose successor [str] writes. *)
Definition can_shift (p : Path) : Prop :=
  exists z, marker_value p = Some z /\ PyInt.printable (z + 1) = true.

Definition marker_or_zero (p : Path) : Z :=
  match marker_value p with Some z => z | None => 0%Z end.

(** [a] carries a marker that is at most the marker of [b]. *)
Definition marker_le (a b : Path) : Prop :=
  match marker_value a, marker_value b with
  | Some x, Some y => (x <= y)%Z
  | _, _ => False
  end.

(** The name of [a] comes at or after the name of [b] in the order of
    strings. *)
Definition name_ge (a b : Path) : Prop :=
  String.leb (Pathlib.name b) (Pathlib.name a) = true.

(** The name pattern of [archive]: its name with a star in the place of
    the marker. *)
Definition pattern_of (archive : Path) : string :=
  let parts := Str.rsplit2 (Pathlib.name archive) in
  Str.join_dot [hd "" parts; "*"; last parts ""].

(** [Path.glob] takes the name pattern of [archive]: it holds no "**". *)
Definition pattern_ok (archive : Path) : Prop :=
  Str.has_stars (pattern_of archive) = false.

(** The archives that match the name pattern of [archive], as paths. *)
Definition matching (w : world) (archive : Path) : list Path :=
  let parts := Str.rsplit2 (Pathlib.name archive) in
  map (mkPath true)
      (Fs.glob (fs w) (Pathlib.parts (Pathlib.parent archive))
               (Str.join_dot [hd "" parts; "*"; last parts ""])).

(** The order in which retention ranks the archives, newest first. *)
Definition retention_order (sequential : bool) (l : list Path) : list Path :=
  if sequential then
    map snd (PySort.sorted BackerUpper.key_lt false
               (map (fun p => (marker_or_zero p, p)) l))
  else PySort.sorted Pathlib.ltb true l.

(** One step of a rotation: the marker, the archive, and its new path. *)
Record step := mkStep { st_marker : Z; st_old : Path; st_new : Path }.

Definition step_of (E : env) (kp : Z * Path) : step :=
  let item := snd kp in
  let parts := Str.rsplit2 (Pathlib.name item) in
  let parts' :=
    match parts with
    | a :: _ :: r => a :: PyInt.py_str (fst kp + 1) :: r
    | _ => parts
    end in
  {| st_marker := fst kp;
     st_old := item;
     st_new := BackerUpper.resolve E
                 (Pathlib.child (Pathlib.parent item) (Str.join_dot parts')) |}.

(** The renames of a rotation, in the order in which they are made. *)
Definition rotation_plan (E : env) (l : list Path) : list step :=
  map (step_of E)
      (PySort.sorted BackerUpper.key_lt true
         (map (fun p => (marker_or_zero p, p)) l)).

Definition run_step (s : step) : M unit :=
  Fs.rename (parts (st_old s)) (parts (st_new s)).

(** The system call that a step issues. *)
Definition rename_call (s : step) : syscall :=
  SysRename (parts (st_old s)) (parts (st_new s)).

(** What holds of each step: the marker is that of the old name, and the
    new name is the old one with the marker replaced by its successor in
    plain decimal. *)
Definition shifts_marker (s : step) : Prop :=
  marker_value (st_old s) = Some (st_marker s) /\
  marker_value (st_new s) = Some (st_marker s + 1)%Z /\
  exists stem m rest,
    Str.rsplit2 (Pathlib.name (st_old s)) = stem :: m :: rest /\
    Pathlib.name (st_new s) =
      Str.join_dot (stem :: PyInt.py_str (st_marker s + 1) :: rest).

(** What holds of a step [s] and a step [t] made after it: [t] has the
    smaller marker, and the target of [s] is not the archive that [t] has
    yet to move. *)
Definition safely_before (s t : step) : Prop :=
  (st_marker t < st_marker s)%Z /\ st_new s <> st_old t.

Definition is_unlink (c : syscall) : bool :=
  match c with
  | SysUnlink _ => true
  | _ => false
  end.

(** Whatever system calls [c] issues, none of them is an unlink. *)
Definition never_unlinks {A} (c : M A) : Prop :=
  forall w, exists l,
    calls (snd (c w)) = l ++ calls w /\ Forall (fun s => is_unlink s = false) l.

(** What [unlink] raises on a path that is no regular file. *)
Definition unlink_error (f : filesystem) (p : list string) : exn :=
  match Fs.lookup f p with
  | Some Dir => IsADirectoryError p
  | _ => FileNotFoundError p
  end.

Definition is_file (f : filesystem) (p : list string) : Prop :=
  exists d, Fs.lookup f p = Some (File d).


(** The text [s] is a field of [w] digits that reads as the number [n]. *)
Definition reads (s : string) (w : nat) (n : N) : Prop :=
  String.length s = w /\ Str.all Str.is_digit s = true /\
  PyInt.digits_value 0 s = n.

(** A small language of patterns: a decimal digit, or one given
    character. *)
Inductive rtoken :=
| RDigit
| RChar (c : ascii).

Fixpoint rmatch (r : list rtoken) (s : string) : bool :=
  match r, s with
  | [], EmptyString => true
  | RDigit :: r', String c s' => Str.is_digit c && rmatch r' s'
  | RChar d :: r', String c s' => (d =? c)%char && rmatch r' s'
  | _, _ => false
  end.

Definition lit (s : string) : list rtoken := map RChar (list_ascii_of_string s).

Definition digits (n : nat) : list rtoken := repeat RDigit n.

(** [\d{4}-\d{2}-\d{2}T\d{2}-\d{2}-\d{2}-\d{6}Z] *)
Definition marker_regex : list rtoken :=
  digits 4 ++ lit "-" ++ digits 2 ++ lit "-" ++ digits 2 ++ lit "T" ++
  digits 2 ++ lit "-" ++ digits 2 ++ lit "-" ++ digits 2 ++ lit "-" ++
  digits 6 ++ lit "Z".

(** [^<basename>\.\d{4}-\d{2}-\d{2}T\d{2}-\d{2}-\d{2}-\d{6}Z\.tgz$] *)
Definition archive_regex (basename : string) : list rtoken :=
  lit basename ++ lit "." ++ marker_regex ++ lit ".tgz".

(** A name without the wildcard characters of a glob pattern. *)
Definition plain (s : string) : bool :=
  Str.all (fun c => negb ((c =? "*") || (c =? "?") || (c =? "["))%char) s.

(** The pattern tokens of a text without wildcard characters. *)
Definition lits (s : string) : list Fnmatch.token :=
  map Fnmatch.TLit (list_ascii_of_string s).

(** The characters of a text that [int] reads. *)
Definition int_char (c : ascii) : bool :=
  (Str.is_digit c || Str.is_space c || (c =? "_") || (c =? "-") || (c =? "+"))%char.

(** The characters a time marker is made of. *)
Definition marker_char (c : ascii) : bool :=
  (Str.is_digit c || (c =? "-") || (c =? "T") || (c =? "Z"))%char.

Definition is_rename (c : syscall) : bool :=
  match c with
  | SysRename _ _ => true
  | _ => false
  end.

Definition is_open (c : syscall) : bool :=
  match c with
  | SysOpenWrite _ => true
  | _ => false
  end.

(** The system calls that [c] adds all satisfy [P]. *)
Definition issues {A} (P : syscall -> bool) (c : M A) : Prop :=
  forall w, exists l,
    calls (snd (c w)) = l ++ calls w /\ forallb P l = true.

(** Calls, the latest first, that come in three stages: renames first,
    then at most one open for writing, then unlinks. *)
Definition staged (l : list syscall) : Prop :=
  exists us os rs,
    l = us ++ os ++ rs /\
    forallb is_unlink us = true /\
    forallb is_open os = true /\ List.length os <= 1 /\
    forallb is_rename rs = true.

(** Where a path is after the renames [steps]: the path of an archive
    that is moved becomes its new path, every other path stays. *)
Definition renamed (steps : list step) (q : list string) : list string :=
  match find (fun s => Fs.path_eqb (parts (st_old s)) q) steps with
  | Some s => parts (st_new s)
  | None => q
  end.

(** The file system with every entry at its place after the renames: the
    same entries in the same order, with the same contents. *)
Definition rotate_fs (steps : list step) (f : filesystem) : filesystem :=
  map (fun e => (renamed steps (fst e), snd e)) f.

(** Every entry lies in a directory that exists. *)
Definition parents_exist (f : filesystem) : Prop :=
  forall q, In q (map fst f) -> Fs.is_dir f (removelast q) = true.

(** A regular file lies on the way to [p]. *)
Definition under_file (f : filesystem) (p : list string) : Prop :=
  exists pre post d,
    p = pre ++ post /\ pre <> [] /\ post <> [] /\ Fs.lookup f pre = Some (File d).

(** No component is "..". *)
Definition no_dotdot (ps : list string) : Prop :=
  Forall (fun c => c <> "..") ps.

(** Every component of [path] is on disk where the components before it
    lead, and none is "..". *)
Definition found (f : filesystem) (path : list string) : Prop :=
  no_dotdot path /\
  forall pre c post, path = pre ++ c :: post -> Fs.lstat f pre c = None.

End Spec.

(** ** Concrete worlds *)

Module Sample.

Definition clock : Datetime.datetime :=
  Datetime.mkDatetime 2024 11 3 9 43 23 1234.

Definition E0 : env :=
  {| cwd := ["tmp"];
     home := fun u => if (u =? "")%string then Some ["home"; "me"] else None;
     now := clock;
     tar_bytes := 77 |}.

(** [/tmp] holding the file [test.txt] and nothing else. *)
Definition w_fresh : world :=
  {| fs := [(["tmp"], Dir); (["tmp"; "test.txt"], File 5)]; calls := [] |}.

(** [cli.py /tmp/missing.txt --to /tmp] *)
Definition argv_missing : Cli.argv :=
  Cli.mkArgv "/tmp/missing.txt" (Some "/tmp") 10 false false false false.




(** [cli.py /tmp/test.txt], with no [--to] *)
Definition argv_no_to : Cli.argv :=
  Cli.mkArgv "/tmp/test.txt" None 10 false false false false.

(** [cli.py /tmp/test.txt --to /tmp --debug] *)
Definition argv_debug_ok : Cli.argv :=
  Cli.mkArgv "/tmp/test.txt" (Some "/tmp") 10 false false false true.

(** [backerupper(source="/tmp/test.txt")] and variants of it *)
Definition kw_default : kwargs :=
  mkKwargs (Some (ArgStr "/tmp/test.txt")) None None None None None false.

Definition kw_with (keep : Z) (seq : bool) (archive : string) : kwargs :=
  mkKwargs (Some (ArgPath (mkPath true ["tmp"; "test.txt"]))) None (Some keep)
           (Some seq) None (Some (mkPath true ["tmp"; archive])) false.

(** Three timestamp archives, the middle one being a directory. *)
Definition w_dir_in_the_way : world :=
  {| fs := [(["tmp"], Dir); (["tmp"; "test.txt"], File 5);
            (["tmp"; "test.txt.2024-11-01T00-00-00-000000Z.tgz"], File 1);
            (["tmp"; "test.txt.2024-11-02T00-00-00-000000Z.tgz"], Dir);
            (["tmp"; "test.txt.2024-11-03T00-00-00-000000Z.tgz"], File 3);
            (["tmp"; "test.txt.2024-11-04T00-00-00-000000Z.tgz"], File 4)];
     calls := [] |}.

(** Three timestamp archives, all regular files. *)
Definition w_three : world :=
  {| fs := [(["tmp"], Dir); (["tmp"; "test.txt"], File 5);
            (["tmp"; "test.txt.2024-11-02T00-00-00-000000Z.tgz"], File 2);
            (["tmp"; "test.txt.2024-11-01T00-00-00-000000Z.tgz"], File 1);
            (["tmp"; "test.txt.2024-11-03T00-00-00-000000Z.tgz"], File 3)];
     calls := [] |}.

(** Sequential archives 1, 2 and 10. *)
Definition w_seq : world :=
  {| fs := [(["tmp"], Dir); (["tmp"; "test.txt"], File 5);
            (["tmp"; "test.txt.1.tgz"], File 1);
            (["tmp"; "test.txt.10.tgz"], File 10);
            (["tmp"; "test.txt.2.tgz"], File 2)];
     calls := [] |}.

(** Two destinations that each hold one archive with the marker [zz]. *)
Definition w_bad_one : world :=
  {| fs := [(["tmp"], Dir); (["tmp"; "test.txt"], File 5);
            (["tmp"; "test.txt.1.tgz"], File 1);
            (["tmp"; "test.txt.zz.tgz"], File 2)];
     calls := [] |}.

Definition w_bad_two : world :=
  {| fs := [(["tmp"], Dir); (["tmp"; "test.txt"], File 5);
            (["tmp"; "test.txt.1.tgz"], File 1);
            (["tmp"; "test.txt.old.zz.tgz"], File 2)];
     calls := [] |}.

(** The same call made [n] times in a row, stopping at the first error. *)
Fixpoint repeat_call (E : env) (n : nat) (kw : kwargs) (w : world)
  : outcome unit * world :=
  match n with
  | O => (Return tt, w)
  | S k =>
      match repeat_call E k kw w with
      | (Return _, w') => BackerUpper.call E 0 kw w'
      | r => r
      end
  end.

(** [backerupper(source="/tmp/test.txt", sequential=True)] *)
Definition kw_sequential : kwargs :=
  mkKwargs (Some (ArgStr "/tmp/test.txt")) None None (Some true) None None false.

End Sample.

(** * Properties *)

(** ** Strings *)

Module StrFacts.
Import Str.
Local Open Scope string_scope.

Lemma append_assoc (a b c : string) : (a ++ b) ++ c = a ++ (b ++ c).
Proof. induction a as [|x a IH]; simpl; [reflexivity | now rewrite IH]. Qed.

Lemma append_nil_r (a : string) : a ++ "" = a.
Proof. induction a as [|x a IH]; simpl; [reflexivity | now rewrite IH]. Qed.

Lemma length_append (a b : string) :
  String.length (a ++ b) = String.length a + String.length b.
Proof. induction a as [|x a IH]; simpl; [reflexivity | now rewrite IH]. Qed.

Lemma all_append p (a b : string) : all p (a ++ b) = all p a && all p b.
Proof.
  induction a as [|x a IH]; simpl; [reflexivity|].
  now rewrite IH, andb_assoc.
Qed.

Lemma rsplit1_no_dot (s : string) : no_dot s = true -> rsplit1 s = None.
Proof.
  unfold no_dot. induction s as [|c s IH]; simpl; [reflexivity|].
  intros H. apply andb_true_iff in H as [Hc Hs].
  rewrite (IH Hs). apply negb_true_iff in Hc. now rewrite Hc.
Qed.

Lemma rsplit1_append (a b : string) :
  no_dot b = true -> rsplit1 (a ++ String "." b) = Some (a, b).
Proof.
  intros Hb. induction a as [|c a IH]; simpl.
  - now rewrite (rsplit1_no_dot b Hb).
  - now rewrite IH.
Qed.

Lemma rsplit1_none_no_dot (s : string) : rsplit1 s = None -> no_dot s = true.
Proof.
  unfold no_dot. induction s as [|d s IH]; simpl; [reflexivity|].
  destruct (rsplit1 s) as [[? ?]|]; [discriminate|].
  destruct (Ascii.eqb_spec d "."); [discriminate|].
  intros _. simpl. now apply IH.
Qed.

Lemma rsplit1_inv (s a b : string) :
  rsplit1 s = Some (a, b) -> s = a ++ String "." b /\ no_dot b = true.
Proof.
  revert a b. induction s as [|c s IH]; simpl; intros a b H; [discriminate|].
  destruct (rsplit1 s) as [[a' b']|] eqn:Hs.
  - inversion H; subst. destruct (IH a' b eq_refl) as [-> Hb]. now split.
  - destruct (Ascii.eqb_spec c "."); [|discriminate].
    inversion H; subst. split; [reflexivity|].
    now apply rsplit1_none_no_dot.
Qed.

(** Putting another dot-free marker into a split name and splitting the
    joined name again gives the same parts back. *)
Lemma rsplit2_rejoin (s m t : string) (a : string) (r : list string) :
  rsplit2 s = a :: m :: r -> no_dot t = true ->
  rsplit2 (join_dot (a :: t :: r)) = a :: t :: r.
Proof.
  unfold rsplit2. intros H Ht.
  destruct (rsplit1 s) as [[x c]|] eqn:Hs; [|discriminate].
  destruct (rsplit1_inv _ _ _ Hs) as [_ Hc].
  destruct (rsplit1 x) as [[y b]|] eqn:Hx.
  - inversion H; subst.
    change (join_dot [a; t; c]) with (a ++ String "." (t ++ String "." c)).
    replace (a ++ String "." (t ++ String "." c))
      with ((a ++ String "." t) ++ String "." c)
      by (rewrite append_assoc; reflexivity).
    rewrite (rsplit1_append _ c Hc), (rsplit1_append a t Ht). reflexivity.
  - inversion H; subst.
    change (join_dot [a; t]) with (a ++ String "." t).
    rewrite (rsplit1_append a t Ht).
    now rewrite (rsplit1_no_dot a (rsplit1_none_no_dot _ Hx)).
Qed.

End StrFacts.

(** ** Integers and their decimal text *)

Module PyIntFacts.
Import Str PyInt StrFacts.
Local Open Scope string_scope.

Lemma digit_cases (n : N) :
  (n < 10)%N ->
  n = 0%N \/ n = 1%N \/ n = 2%N \/ n = 3%N \/ n = 4%N \/
  n = 5%N \/ n = 6%N \/ n = 7%N \/ n = 8%N \/ n = 9%N.
Proof. lia. Qed.

Ltac by_digit n H :=
  destruct (digit_cases n H) as [->|[->|[->|[->|[->|[->|[->|[->|[->| ->]]]]]]]]];
  reflexivity.

Lemma digit_char_is_digit (n : N) : (n < 10)%N -> is_digit (digit_char n) = true.
Proof. intros H. by_digit n H. Qed.

Lemma digit_char_val (n : N) : (n < 10)%N -> digit_val (digit_char n) = n.
Proof. intros H. by_digit n H. Qed.

Lemma digit_char_not_dot (n : N) :
  (n < 10)%N -> negb (digit_char n =? ".")%char = true.
Proof. intros H. by_digit n H. Qed.

Lemma digit_char_not_space (n : N) : (n < 10)%N -> is_space (digit_char n) = false.
Proof. intros H. by_digit n H. Qed.

Lemma digit_char_not_sign (n : N) :
  (n < 10)%N -> digit_char n <> "-"%char /\ digit_char n <> "+"%char.
Proof.
  intros H.
  destruct (digit_cases n H) as [->|[->|[->|[->|[->|[->|[->|[->|[->| ->]]]]]]]]];
    split; discriminate.
Qed.

(** The characters of the decimal text are digits. *)
Lemma digits_of_all_digits (f : nat) (n : N) : all is_digit (digits_of f n) = true.
Proof.
  revert n. induction f as [|f IH]; intros n; simpl; [reflexivity|].
  destruct (N.ltb_spec n 10).
  - simpl. now rewrite digit_char_is_digit.
  - rewrite all_append, IH. simpl.
    rewrite digit_char_is_digit; [reflexivity|]. apply N.mod_lt. lia.
Qed.

Lemma digits_value_append (s t : string) (acc : N) :
  digits_value acc (s ++ t) = digits_value (digits_value acc s) t.
Proof. revert acc. induction s as [|c s IH]; intros acc; simpl; auto. Qed.

Lemma digits_of_S (f : nat) (n : N) :
  digits_of (S f) n =
  if (n <? 10)%N then String (digit_char n) ""
  else digits_of f (n / 10) ++ String (digit_char (n mod 10)) "".
Proof. reflexivity. Qed.

(** With enough fuel the text denotes the number it was made from. *)
Lemma digits_of_value (f : nat) (n : N) :
  (n < 2 ^ N.of_nat (S f))%N -> digits_value 0 (digits_of (S f) n) = n.
Proof.
  revert n. induction f as [|f IH]; intros n Hn.
  - simpl in *. destruct (N.ltb_spec n 10); [|lia].
    simpl. rewrite digit_char_val; lia.
  - rewrite digits_of_S. destruct (N.ltb_spec n 10) as [H|H].
    + simpl. rewrite digit_char_val; lia.
    + rewrite digits_value_append, IH.
      * cbn [digits_value]. rewrite digit_char_val by (apply N.mod_lt; lia).
        pose proof (N.div_mod n 10). lia.
      * rewrite Nat2N.inj_succ, N.pow_succ_r' in Hn.
        apply N.Div0.div_lt_upper_bound. lia.
Qed.

Lemma fuel_enough (n : N) : (n < 2 ^ N.of_nat (S (N.to_nat (N.log2 n))))%N.
Proof.
  rewrite Nat2N.inj_succ, N2Nat.id.
  destruct (N.eq_dec n 0) as [->|Hn]; [reflexivity|].
  apply N.log2_spec. lia.
Qed.

Lemma str_N_value (n : N) : digits_value 0 (str_N n) = n.
Proof. apply digits_of_value, fuel_enough. Qed.

Lemma str_N_all_digits (n : N) : all is_digit (str_N n) = true.
Proof. apply digits_of_all_digits. Qed.

Lemma str_N_nonempty (n : N) : str_N n <> "".
Proof.
  unfold str_N. cbn [digits_of]. destruct (n <? 10)%N; [discriminate|].
  destruct (digits_of _ _); discriminate.
Qed.

Lemma is_digit_facts (c : ascii) :
  is_digit c = true ->
  is_space c = false /\ negb (c =? ".")%char = true /\
  c <> "-"%char /\ c <> "+"%char /\ c <> "_"%char.
Proof.
  unfold is_digit, Ascii.leb, Ascii.compare. intros H.
  apply andb_true_iff in H as [H1 H2].
  assert (Hc : (48 <= N_of_ascii c <= 57)%N).
  { change (N_of_ascii "0") with 48%N in H1. change (N_of_ascii "9") with 57%N in H2.
    destruct (N.compare_spec 48 (N_of_ascii c)), (N.compare_spec (N_of_ascii c) 57);
      try discriminate; lia. }
  assert (Hne : forall d, (N_of_ascii d < 48 \/ 57 < N_of_ascii d)%N -> c <> d).
  { intros d Hd ->. lia. }
  repeat split.
  - unfold is_space. cbv zeta.
    destruct (N.leb_spec 9 (N_of_ascii c)), (N.leb_spec (N_of_ascii c) 13),
      (N.eqb_spec (N_of_ascii c) 32), (N.eqb_spec (N_of_ascii c) 133),
      (N.eqb_spec (N_of_ascii c) 160);
      simpl; try reflexivity; lia.
  - apply negb_true_iff, Ascii.eqb_neq, Hne. simpl. lia.
  - apply Hne. simpl. lia.
  - apply Hne. simpl. lia.
  - apply Hne. simpl. lia.
Qed.

Lemma all_digits_no_dot (s : string) : all is_digit s = true -> no_dot s = true.
Proof.
  unfold no_dot. induction s as [|c s IH]; simpl; [reflexivity|].
  intros H. apply andb_true_iff in H as [Hc Hs].
  rewrite (IH Hs). destruct (is_digit_facts c Hc) as (_ & -> & _). reflexivity.
Qed.

(** A text of digits is one run, read to its end. *)
Lemma scan_all_digits (s : string) (acc : N) (count : nat) (prev : bool) :
  all is_digit s = true -> s <> "" ->
  scan acc count prev s =
  Some (digits_value acc s, count + String.length s, "").
Proof.
  revert acc count prev. induction s as [|c s IH]; intros acc count prev H Hne;
    [congruence|].
  simpl in H. apply andb_true_iff in H as [Hc Hs].
  cbn [scan digits_value String.length]. rewrite Hc.
  destruct s as [|d s].
  - cbn [scan digits_value String.length].
    now replace (count + 1) with (S count) by lia.
  - rewrite (IH _ _ _ Hs) by discriminate.
    now replace (S count + String.length (String d s))
      with (count + S (String.length (String d s))) by lia.
Qed.

Lemma lstrip_digit (c : ascii) (s : string) :
  is_digit c = true -> lstrip (String c s) = String c s.
Proof.
  intros Hc. cbn [lstrip]. now destruct (is_digit_facts c Hc) as (-> & _).
Qed.

Lemma unsigned_digits (neg : bool) (s : string) :
  all is_digit s = true -> s <> "" ->
  unsigned neg s =
  if (max_str_digits <? String.length s)%nat then IntTooLong (String.length s)
  else IntOk (if neg then - Z.of_N (digits_value 0 s) else Z.of_N (digits_value 0 s))%Z.
Proof.
  intros H Hne. unfold unsigned.
  rewrite (scan_all_digits _ 0 0 false H Hne). cbn [Nat.add lstrip]. reflexivity.
Qed.

Lemma int_of_digits (s : string) :
  all is_digit s = true -> s <> "" ->
  int_of s =
  if (max_str_digits <? String.length s)%nat then IntTooLong (String.length s)
  else IntOk (Z.of_N (digits_value 0 s)).
Proof.
  intros H Hne. rewrite <- (unsigned_digits false s H Hne). unfold int_of.
  destruct s as [|c s]; [congruence|].
  pose proof H as H'. simpl in H'. apply andb_true_iff in H' as [Hc _].
  rewrite (lstrip_digit c s Hc).
  destruct (is_digit_facts c Hc) as (_ & _ & Hm & Hp & _).
  destruct c as [[] [] [] [] [] [] [] []]; try congruence; reflexivity.
Qed.

Lemma py_int_digits (s : string) :
  all is_digit s = true -> s <> "" ->
  String.length s <= max_str_digits ->
  py_int s = Some (Z.of_N (digits_value 0 s)).
Proof.
  intros H Hne Hl. unfold py_int. rewrite (int_of_digits s H Hne).
  destruct (Nat.ltb_spec max_str_digits (String.length s)); [lia | reflexivity].
Qed.

(** [int(str(z)) == z], for a number that [str] writes. *)
Lemma py_int_py_str (z : Z) : printable z = true -> py_int (py_str z) = Some z.
Proof.
  unfold printable, py_str. intros Hp. apply Nat.leb_le in Hp.
  destruct (Z.ltb_spec z 0).
  - replace (Z.abs_N z) with (Z.to_N (- z)) in Hp by lia.
    unfold py_int, int_of. change (lstrip (String "-" ?s)) with (String "-" s).
    cbv beta iota.
    rewrite (unsigned_digits true _ (str_N_all_digits _) (str_N_nonempty _)).
    destruct (Nat.ltb_spec max_str_digits (String.length (str_N (Z.to_N (- z)))));
      [lia|].
    rewrite str_N_value. f_equal. lia.
  - replace (Z.abs_N z) with (Z.to_N z) in Hp by lia.
    rewrite (py_int_digits _ (str_N_all_digits _) (str_N_nonempty _) Hp).
    rewrite str_N_value. f_equal. lia.
Qed.

Lemma lstrip_inv (s : string) :
  exists sp, s = sp ++ lstrip s /\ all is_space sp = true.
Proof.
  induction s as [|c s (sp & IH & Hsp)].
  - now exists "".
  - cbn [lstrip]. destruct (is_space c) eqn:Hc.
    + exists (String c sp). cbn [append all]. rewrite Hc, Hsp. split; [|reflexivity].
      now rewrite <- IH.
    + now exists "".
Qed.

Lemma lstrip_empty (s : string) : lstrip s = "" -> all is_space s = true.
Proof.
  intros H. destruct (lstrip_inv s) as (sp & He & Hsp).
  rewrite H, append_nil_r in He. now subst.
Qed.

Lemma scan_inv (s : string) (acc : N) (count : nat) (prev : bool) n k rest :
  scan acc count prev s = Some (n, k, rest) ->
  exists run, s = run ++ rest /\
              all (fun c => is_digit c || (c =? "_")%char) run = true.
Proof.
  revert acc count prev. induction s as [|c s IH]; intros acc count prev H.
  - cbn [scan] in H. destruct prev; [|discriminate].
    injection H as _ _ <-. now exists "".
  - cbn [scan] in H. destruct (is_digit c) eqn:Hd.
    + apply IH in H as (run & -> & Hr). exists (String c run).
      cbn [append all]. now rewrite Hd, Hr.
    + destruct (c =? "_")%char eqn:Hu.
      * destruct prev; [|discriminate].
        apply IH in H as (run & -> & Hr). exists (String c run).
        cbn [append all]. now rewrite Hd, Hu, Hr.
      * destruct prev; [|discriminate]. injection H as _ _ <-. now exists "".
Qed.

Lemma all_impl (p q : ascii -> bool) (s : string) :
  (forall c, p c = true -> q c = true) -> all p s = true -> all q s = true.
Proof.
  intros Hpq. induction s as [|c s IH]; simpl; [reflexivity|].
  intros H. apply andb_true_iff in H as [Hc Hs]. now rewrite (Hpq c Hc), IH.
Qed.

Lemma unsigned_chars (neg : bool) (s : string) (z : Z) :
  unsigned neg s = IntOk z -> all Spec.int_char s = true.
Proof.
  unfold unsigned. intros H.
  destruct (scan 0 0 false s) as [[[n k] rest]|] eqn:Hsc; [|discriminate].
  destruct (max_str_digits <? k)%nat; [discriminate|].
  destruct (lstrip rest) eqn:Hr; [|discriminate].
  apply scan_inv in Hsc as (run & -> & Hrun).
  rewrite all_append. apply andb_true_iff. split.
  - revert Hrun. apply all_impl. intros c Hc. unfold Spec.int_char.
    apply orb_true_iff in Hc as [-> | ->]; [reflexivity|].
    now rewrite !orb_true_r.
  - apply lstrip_empty in Hr. revert Hr. apply all_impl.
    intros c Hc. unfold Spec.int_char. rewrite Hc. now rewrite orb_true_r.
Qed.

(** A text that [int] reads holds digits, underscores, signs and
    whitespace only. *)
Lemma py_int_chars (s : string) (z : Z) :
  py_int s = Some z -> all Spec.int_char s = true.
Proof.
  unfold py_int. intros H.
  destruct (int_of s) as [z0| |] eqn:Hi; try discriminate.
  unfold int_of in Hi.
  destruct (lstrip_inv s) as (sp & Hs & Hsp). rewrite Hs.
  set (s1 := lstrip s) in *. clearbody s1.
  rewrite all_append. apply andb_true_iff. split.
  { revert Hsp. apply all_impl. intros c Hc. unfold Spec.int_char. rewrite Hc.
    now rewrite orb_true_r. }
  destruct s1 as [|c r]; [exact (unsigned_chars false "" z0 Hi)|].
  destruct (Ascii.eqb_spec c "-") as [->|Hm].
  { cbn [all]. apply (unsigned_chars true r z0 Hi). }
  destruct (Ascii.eqb_spec c "+") as [->|Hp].
  { cbn [all]. apply (unsigned_chars false r z0 Hi). }
  apply (unsigned_chars false (String c r) z0).
  destruct c as [[] [] [] [] [] [] [] []]; try congruence; exact Hi.
Qed.

Lemma py_str_no_dot (z : Z) : no_dot (py_str z) = true.
Proof.
  unfold py_str. destruct (z <? 0)%Z.
  - unfold no_dot. simpl. apply (all_digits_no_dot _ (str_N_all_digits _)).
  - apply (all_digits_no_dot _ (str_N_all_digits _)).
Qed.

End PyIntFacts.

(** ** Sorting *)

Module PySortFacts.
Import PySort.

Section SortFacts.
Context {A : Type}.
Variable lt : A -> A -> bool.

Lemma insert_perm (x : A) (l : list A) : Permutation (insert lt x l) (x :: l).
Proof.
  induction l as [|y r IH]; simpl; [reflexivity|].
  destruct (lt y x); [|reflexivity].
  rewrite IH. apply perm_swap.
Qed.

Lemma sort_perm (l : list A) : Permutation (sort lt l) l.
Proof.
  induction l as [|x r IH]; simpl; [reflexivity|].
  rewrite insert_perm. now constructor.
Qed.

Hypothesis lt_asym : forall a b, lt a b = true -> lt b a = false.
Hypothesis before_trans : forall a b c, before lt a b -> before lt b c -> before lt a c.

Lemma insert_sorted (x : A) (l : list A) :
  StronglySorted (before lt) l -> StronglySorted (before lt) (insert lt x l).
Proof.
  induction 1 as [|y r Hr IH Hy]; simpl.
  - repeat constructor.
  - destruct (lt y x) eqn:Hyx.
    + constructor; [assumption|].
      rewrite Forall_forall in *. intros z Hz.
      apply (Permutation_in _ (insert_perm x r)) in Hz as [<-|Hz].
      * now apply lt_asym.
      * now apply Hy.
    + constructor; [now constructor|].
      constructor; [exact Hyx|].
      rewrite Forall_forall in *. intros z Hz.
      apply before_trans with y; [exact Hyx | now apply Hy].
Qed.

Lemma sort_sorted (l : list A) : StronglySorted (before lt) (sort lt l).
Proof.
  induction l as [|x r IH]; simpl; [constructor | now apply insert_sorted].
Qed.
End SortFacts.

Lemma in_skipn {A} (l : list A) (k : nat) (b : A) : In b (skipn k l) -> In b l.
Proof.
  intros H. rewrite <- (firstn_skipn k l). apply in_or_app. now right.
Qed.

Lemma in_firstn {A} (l : list A) (k : nat) (b : A) : In b (firstn k l) -> In b l.
Proof.
  intros H. rewrite <- (firstn_skipn k l). apply in_or_app. now left.
Qed.

(** In a strongly sorted list, whatever is in a prefix may stand in front
    of whatever is in the rest. *)
Lemma sorted_firstn_skipn {A} (R : A -> A -> Prop) (l : list A) (k : nat) :
  StronglySorted R l ->
  forall a b, In a (firstn k l) -> In b (skipn k l) -> R a b.
Proof.
  intros Hs. revert k. induction Hs as [|x r Hr IH Hx]; intros k a b Ha Hb.
  - destruct k; simpl in *; contradiction.
  - destruct k as [|k]; simpl in *; [contradiction|].
    destruct Ha as [<-|Ha].
    + rewrite Forall_forall in Hx. apply Hx. eapply in_skipn; eauto.
    + eapply IH; eauto.
Qed.

Lemma sorted_map {A B} (R : A -> A -> Prop) (Q : B -> B -> Prop) (f : A -> B)
    (l : list A) :
  (forall a b, In a l -> In b l -> R a b -> Q (f a) (f b)) ->
  StronglySorted R l -> StronglySorted Q (map f l).
Proof.
  intros HRQ Hs. induction Hs as [|x r Hr IH Hx]; simpl; constructor.
  - apply IH. intros a b Ha Hb. apply HRQ; now right.
  - rewrite Forall_forall in *. intros y Hy.
    apply in_map_iff in Hy as (z & <- & Hz).
    apply HRQ; [now left | now right | now apply Hx].
Qed.

End PySortFacts.

(** ** The order of paths *)

Module PathFacts.
Import Pathlib.

Lemma compare_eq (x y : string) : String.compare x y = Eq <-> x = y.
Proof. apply String_as_OT.cmp_eq. Qed.

Lemma compare_opp (x y : string) :
  String.compare y x = CompOpp (String.compare x y).
Proof. apply String.compare_antisym. Qed.

Lemma compare_trans (x y z : string) (c : comparison) :
  String.compare x y = c -> String.compare y z = c -> String.compare x z = c.
Proof.
  destruct c; intros H1 H2.
  - apply compare_eq in H1, H2. subst. now apply compare_eq.
  - apply String_as_OT.cmp_lt in H1, H2. apply String_as_OT.cmp_lt.
    eapply String_as_OT.lt_trans; eauto.
  - rewrite compare_opp in H1, H2. rewrite compare_opp.
    apply CompOpp_iff in H1, H2. apply CompOpp_iff. simpl in *.
    apply String_as_OT.cmp_lt in H1, H2. apply String_as_OT.cmp_lt.
    eapply String_as_OT.lt_trans; eauto.
Qed.

Lemma ltb_pcompare (p q : Path) :
  ltb p q = match pcompare p q with Lt => true | _ => false end.
Proof. reflexivity. Qed.

Lemma pcompare_opp (p q : Path) : pcompare q p = CompOpp (pcompare p q).
Proof. apply list_compare_antisym; [apply compare_eq | apply compare_opp]. Qed.

Lemma pcompare_trans (p q r : Path) (c : comparison) :
  pcompare p q = c -> pcompare q r = c -> pcompare p r = c.
Proof.
  apply list_compare_trans.
  - apply compare_eq.
  - intros x y z c'. apply compare_trans.
  - apply compare_opp.
Qed.

Lemma ltb_asym (p q : Path) : ltb p q = true -> ltb q p = false.
Proof.
  rewrite !ltb_pcompare, (pcompare_opp p q).
  destruct (pcompare p q); simpl; congruence.
Qed.

(** [not (p < q)] is transitive: the order is total. *)
Lemma not_ltb_trans (p q r : Path) :
  ltb p q = false -> ltb q r = false -> ltb p r = false.
Proof.
  rewrite !ltb_pcompare.
  destruct (pcompare p q) eqn:H1; try discriminate;
    destruct (pcompare q r) eqn:H2; try discriminate; intros _ _.
  - now rewrite (pcompare_trans _ _ _ _ H1 H2).
  - apply list_compare_refl in H1; [|apply compare_eq].
    unfold pcompare in *. now rewrite H1, H2.
  - apply list_compare_refl in H2; [|apply compare_eq].
    unfold pcompare in *. now rewrite <- H2, H1.
  - now rewrite (pcompare_trans _ _ _ _ H1 H2).
Qed.

(** Two entries of one directory compare as their names do. *)
Lemma pcompare_siblings (d : list string) (a b : string) :
  pcompare (mkPath true (d ++ [a])) (mkPath true (d ++ [b])) = String.compare a b.
Proof.
  unfold pcompare, cparts. cbn [anchored parts].
  rewrite (list_compare_app String.compare compare_eq ["/"]).
  rewrite (list_compare_app String.compare compare_eq d).
  simpl. destruct (String.compare a b); reflexivity.
Qed.

End PathFacts.

(** ** The monad and the file system *)

Module FsFacts.
Import Fs.

Lemma path_eqb_spec (p q : list string) : reflect (p = q) (path_eqb p q).
Proof.
  unfold path_eqb. destruct (list_eq_dec string_dec p q); now constructor.
Qed.

Lemma path_eqb_refl (p : list string) : path_eqb p p = true.
Proof. now destruct (path_eqb_spec p p). Qed.

Lemma lookup_in (f : filesystem) (p : list string) (n : node) :
  lookup f p = Some n -> In (p, n) f.
Proof.
  induction f as [|[q m] r IH]; simpl; [discriminate|].
  destruct (path_eqb_spec q p) as [->|Hne].
  - intros [= ->]. now left.
  - intros H. right. now apply IH.
Qed.

Lemma lookup_none (f : filesystem) (p : list string) :
  lookup f p = None <-> ~ In p (map fst f).
Proof.
  induction f as [|[q m] r IH]; simpl; [tauto|].
  destruct (path_eqb_spec q p) as [->|Hne].
  - split; [discriminate | intros H; exfalso; apply H; now left].
  - rewrite IH. tauto.
Qed.

Lemma lookup_filter (g : list string -> bool) (f : filesystem) (p : list string) :
  lookup (filter (fun e => g (fst e)) f) p = if g p then lookup f p else None.
Proof.
  induction f as [|[q m] r IH]; simpl; [now destruct (g p)|].
  destruct (g q) eqn:Hq; simpl.
  - destruct (path_eqb_spec q p) as [->|Hne]; [now rewrite Hq | exact IH].
  - destruct (path_eqb_spec q p) as [->|Hne]; [now rewrite IH, Hq | exact IH].
Qed.

Lemma lookup_remove (f : filesystem) (p q : list string) :
  lookup (remove f p) q = if path_eqb q p then None else lookup f q.
Proof.
  unfold remove. rewrite (lookup_filter (fun x => negb (path_eqb x p))).
  now destruct (path_eqb q p).
Qed.

(** What [glob] returns are entries of the directory, and the last
    component of each matches the pattern. *)
Lemma glob_in (f : filesystem) (d : list string) (pat : string) (q : list string) :
  In q (glob f d pat) ->
  In q (map fst f) /\ q = d ++ [last q ""] /\ Fnmatch.fnmatch pat (last q "") = true.
Proof.
  unfold glob. intros H. apply in_map_iff in H as ([q' n] & <- & H).
  apply filter_In in H as [Hin H]. cbn [fst] in *.
  destruct q' as [|c q']; [discriminate|].
  apply andb_true_iff in H as [Hd Hm].
  destruct (path_eqb_spec (removelast (c :: q')) d) as [<-|]; [|discriminate].
  repeat split.
  - apply in_map_iff. now exists (c :: q', n).
  - apply app_removelast_last. discriminate.
  - exact Hm.
Qed.

Lemma glob_filter (g : list string -> bool) (f : filesystem) (d : list string)
    (pat : string) :
  glob (filter (fun e => g (fst e)) f) d pat = filter g (glob f d pat).
Proof.
  unfold glob. induction f as [|[q n] r IH]; simpl; [reflexivity|].
  destruct (g q) eqn:Hg; simpl.
  - destruct q as [|c q]; simpl; [exact IH|].
    destruct (path_eqb _ d && _); simpl; [rewrite Hg; now f_equal | exact IH].
  - destruct q as [|c q]; simpl; [exact IH|].
    destruct (path_eqb _ d && _); simpl; [now rewrite Hg | exact IH].
Qed.

Lemma glob_nodup (f : filesystem) (d : list string) (pat : string) :
  NoDup (map fst f) -> NoDup (glob f d pat).
Proof.
  unfold glob. induction f as [|[q n] r IH]; simpl; intros H; [constructor|].
  inversion H as [|? ? Hq Hr]; subst.
  destruct (match q with [] => false | _ => _ end); simpl; [|now apply IH].
  constructor; [|now apply IH].
  intros Hin. apply Hq. apply in_map_iff in Hin as (e & <- & He).
  apply filter_In in He as [He _]. now apply in_map.
Qed.

End FsFacts.

(** ** The entry point and the run as a whole *)

Module RunFacts.
Import BackerUpper.

(** Computations that leave the world alone. *)
Lemma reads_only_ret {A} (a : A) : reads_only (ret a).
Proof. intros w. reflexivity. Qed.

Lemma reads_only_raise {A} (e : exn) : reads_only (@raise A e).
Proof. intros w. reflexivity. Qed.

Lemma reads_only_bind {A B} (c : M A) (k : A -> M B) :
  reads_only c -> (forall a, reads_only (k a)) -> reads_only (bind c k).
Proof.
  intros Hc Hk w. unfold bind. specialize (Hc w).
  destruct (c w) as [[a|e] w1]; simpl in *; subst; [apply Hk | reflexivity].
Qed.

Lemma reads_only_to_path (a : arg) : reads_only (to_path a).
Proof. destruct a; intros w; reflexivity. Qed.

Lemma reads_only_expanduser E (p : Path) : reads_only (expanduser E p).
Proof.
  intros w. unfold expanduser.
  destruct (anchored p); [reflexivity|].
  destruct (parts p) as [|[|c u] rest]; try reflexivity.
  destruct c as [[] [] [] [] [] [] [] []]; try reflexivity.
  destruct (home E u); reflexivity.
Qed.

Lemma reads_only_resolve_strict E (p : Path) : reads_only (resolve_strict E p).
Proof.
  intros w. unfold resolve_strict.
  now destruct (Fs.realpath (fs w) [] (if anchored p then parts p else cwd E ++ parts p)).
Qed.

(** Looking a source up changes nothing. *)
Lemma resolve_source_pure E kw : reads_only (resolve_source E kw).
Proof.
  unfold resolve_source.
  apply reads_only_bind; [apply reads_only_to_path|]. intros p.
  apply reads_only_bind; [apply reads_only_expanduser|]. intros p'.
  apply reads_only_resolve_strict.
Qed.

(** When the destination key is absent, the archive goes next to the
    source. *)
Lemma resolve_destination_absent E kw w src :
  kw_source kw = Some (ArgPath src) -> kw_destination kw = None ->
  resolve_destination E kw w =
  (Return (resolve E
             (Pathlib.child (Pathlib.parent src)
                (Pathlib.name src ++ "." ++
                 (if get_sequential kw then PyInt.py_str 1
                  else Datetime.strftime_marker (now E)) ++ "." ++
                 (if get_uncompressed kw then "tar" else "tgz"))%string)), w).
Proof.
  intros Hs Hd. unfold resolve_destination. rewrite Hs, Hd. reflexivity.
Qed.






(** C10.  A destination key that is present and bound to [None] makes
    [resolve_destination] raise [TypeError]; the run stops there with the
    world untouched, so no archive is created.  This is what the command
    line passes when [--to] is left out. *)
Theorem destination_none_raises E nargs kw w src :
  kw_destination kw = Some ArgNone ->
  resolve_source E kw w = (Return src, w) ->
  resolve_destination E (update_source kw src) w = (Raise TypeError, w) /\
  call E nargs kw w = (Raise TypeError, w) /\
  (forall a, Cli.destination a = None ->
             kw_destination (Cli.vars a) = Some ArgNone).
Proof.
  intros Hd Hs.
  assert (Hrd : resolve_destination E (update_source kw src) w = (Raise TypeError, w)).
  { unfold resolve_destination. simpl. rewrite Hd. reflexivity. }
  split; [exact Hrd|]. split.
  - unfold call.
    assert (kw_is_empty kw = false) as ->.
    { unfold kw_is_empty. rewrite Hd. now destruct (kw_source kw). }
    rewrite andb_false_r.
    unfold bind at 1. rewrite Hs.
    unfold bind at 1. now rewrite Hrd.
  - intros a Ha. simpl. now rewrite Ha.
Qed.

Lemma destination_none_raises_witness :
  call Sample.E0 0 (Cli.vars Sample.argv_no_to) Sample.w_fresh =
  (Raise TypeError, Sample.w_fresh).
Proof.
  apply (destination_none_raises Sample.E0 0 (Cli.vars Sample.argv_no_to)
           Sample.w_fresh (mkPath true ["tmp"; "test.txt"]));
    reflexivity.
Defined.

(** C5, at the input on which the code departs from it: the command line
    without [--to] does not place the archive in the parent directory of
    the source, it raises [TypeError] and creates nothing. *)
Theorem cli_without_to_creates_nothing :
  Cli.run Sample.E0 Sample.argv_no_to Sample.w_fresh =
  (Cli.mkExit 0 [TypeError], Sample.w_fresh).
Proof. reflexivity. Qed.

(** C1, as the code has it.  The error of a failed run is logged once and
    the world is left as the run left it; the exit status is non-zero
    exactly when [--debug] is given, because only then is the exception
    raised again.  A run that succeeds logs no error and exits with 0. *)
Theorem cli_exit_status E a w r w' :
  call E 0 (Cli.vars a) w = (r, w') ->
  snd (Cli.run E a w) = w' /\
  match r with
  | Return _ =>
      Cli.status (fst (Cli.run E a w)) = 0%Z /\ Cli.errors (fst (Cli.run E a w)) = []
  | Raise err =>
      Cli.errors (fst (Cli.run E a w)) = [err] /\
      (Cli.status (fst (Cli.run E a w)) <> 0%Z <-> Cli.debug a = true)
  end.
Proof.
  intros H. unfold Cli.run. rewrite H.
  destruct r as [u|err]; simpl; [auto|].
  destruct (Cli.debug a); simpl; repeat split; try congruence; intros; lia.
Qed.

Lemma cli_exit_status_witness :
  snd (Cli.run Sample.E0 Sample.argv_debug_ok Sample.w_fresh) =
  snd (call Sample.E0 0 (Cli.vars Sample.argv_debug_ok) Sample.w_fresh) /\
  Cli.status (fst (Cli.run Sample.E0 Sample.argv_debug_ok Sample.w_fresh)) = 0%Z /\
  Cli.errors (fst (Cli.run Sample.E0 Sample.argv_debug_ok Sample.w_fresh)) = [].
Proof.
  exact (cli_exit_status Sample.E0 Sample.argv_debug_ok Sample.w_fresh
           (Return tt)
           (snd (call Sample.E0 0 (Cli.vars Sample.argv_debug_ok) Sample.w_fresh))
           eq_refl).
Defined.

(** The claim C1 fails here: the source is missing, the run raises, the
    error is logged, and yet the exit status is 0. *)
Lemma cli_error_exits_zero :
  call Sample.E0 0 (Cli.vars Sample.argv_missing) Sample.w_fresh =
    (Raise (FileNotFoundError ["tmp"; "missing.txt"]), Sample.w_fresh) /\
  Cli.run Sample.E0 Sample.argv_missing Sample.w_fresh =
    (Cli.mkExit 0 [FileNotFoundError ["tmp"; "missing.txt"]], Sample.w_fresh).
Proof. split; reflexivity. Qed.

End RunFacts.

(** ** Runs that delete nothing *)

Module NoDeletionFacts.
Import BackerUpper RunFacts.

Lemma quiet_reads_only {A} (c : M A) : reads_only c -> Spec.never_unlinks c.
Proof. intros H w. exists []. split; [now rewrite H | constructor]. Qed.

Lemma quiet_bind {A B} (c : M A) (k : A -> M B) :
  Spec.never_unlinks c -> (forall a, Spec.never_unlinks (k a)) ->
  Spec.never_unlinks (bind c k).
Proof.
  intros Hc Hk w. unfold bind. destruct (Hc w) as (l1 & H1 & F1).
  destruct (c w) as [[a|e] w1]; cbn [snd] in *.
  - destruct (Hk a w1) as (l2 & H2 & F2). exists (l2 ++ l1). split.
    + now rewrite H2, H1, app_assoc.
    + apply Forall_app. now split.
  - now exists l1.
Qed.

Lemma quiet_for_each {A} (body : A -> M unit) (l : list A) :
  (forall x, Spec.never_unlinks (body x)) -> Spec.never_unlinks (for_each body l).
Proof.
  intros H. induction l as [|x r IH]; cbn [for_each].
  - apply quiet_reads_only, reads_only_ret.
  - apply quiet_bind; auto.
Qed.

Lemma quiet_one {A} (c : M A) (s : syscall) :
  Spec.is_unlink s = false ->
  (forall w, calls (snd (c w)) = s :: calls w) -> Spec.never_unlinks c.
Proof.
  intros Hs Hc w. exists [s]. split; [apply Hc | now repeat constructor].
Qed.

Lemma quiet_rename (old new : list string) : Spec.never_unlinks (Fs.rename old new).
Proof.
  apply (quiet_one _ (SysRename old new)); [reflexivity|].
  intros w. unfold Fs.rename.
  repeat match goal with
         | |- context [match ?x with _ => _ end] => destruct x
         end; reflexivity.
Qed.

Lemma quiet_open_write (p : list string) : Spec.never_unlinks (Fs.open_write p).
Proof.
  apply (quiet_one _ (SysOpenWrite p)); [reflexivity|].
  intros w. unfold Fs.open_write.
  repeat match goal with
         | |- context [match ?x with _ => _ end] => destruct x
         end; reflexivity.
Qed.

Lemma quiet_write (p : list string) (d : N) : Spec.never_unlinks (Fs.write p d).
Proof. intros w. exists []. split; [reflexivity | constructor]. Qed.

Lemma reads_only_map_m {A B} (f : A -> M B) (l : list A) :
  (forall x, reads_only (f x)) -> reads_only (map_m f l).
Proof.
  intros H. induction l as [|x r IH]; cbn [map_m]; [apply reads_only_ret|].
  apply reads_only_bind; [apply H|]. intros y.
  apply reads_only_bind; [exact IH|]. intros ys. apply reads_only_ret.
Qed.

Lemma reads_only_marker_of (item : Path) : reads_only (marker_of item).
Proof.
  unfold marker_of. destruct (nth_error _ 1) as [m|]; [|apply reads_only_raise].
  destruct (PyInt.py_int m); [apply reads_only_ret | apply reads_only_raise].
Qed.

Lemma reads_only_keyed (l : list Path) : reads_only (keyed l).
Proof.
  apply reads_only_map_m. intros item.
  apply reads_only_bind; [apply reads_only_marker_of|]. intros z. apply reads_only_ret.
Qed.

Lemma reads_only_gather kw : reads_only (gather_matching_archives kw).
Proof.
  unfold gather_matching_archives.
  destruct (kw_archive kw); [|apply reads_only_raise].
  apply reads_only_bind; [|intros l; apply reads_only_ret].
  intros w. unfold Fs.glob_m. now destruct (Str.has_stars _).
Qed.

Lemma reads_only_next_name E (item : Path) : reads_only (next_name E item).
Proof.
  apply reads_only_bind; [apply reads_only_marker_of|]. intros z.
  destruct (PyInt.printable (z + 1)); [apply reads_only_ret | apply reads_only_raise].
Qed.

Lemma reads_only_resolve_destination E kw : reads_only (resolve_destination E kw).
Proof.
  unfold resolve_destination.
  destruct (kw_source kw) as [[| |src]|]; try apply reads_only_raise.
  apply reads_only_bind; [|intros d; apply reads_only_ret].
  destruct (match kw_destination kw with Some d => d | None => _ end) as [|s|d].
  - apply reads_only_bind; [apply reads_only_to_path|]. intros p.
    apply reads_only_bind; [apply reads_only_expanduser|]. intros p'.
    apply reads_only_ret.
  - apply reads_only_bind; [apply reads_only_to_path|]. intros p.
    apply reads_only_bind; [apply reads_only_expanduser|]. intros p'.
    apply reads_only_ret.
  - apply reads_only_ret.
Qed.

(** Rotation only renames. *)
Lemma quiet_move E kw : Spec.never_unlinks (move_previous_archives E kw).
Proof.
  unfold move_previous_archives.
  destruct (negb (get_sequential kw)); [apply quiet_reads_only, reads_only_ret|].
  apply quiet_bind; [apply quiet_reads_only, reads_only_gather|]. intros [pat l].
  cbn [snd]. destruct l as [|x r]; [apply quiet_reads_only, reads_only_ret|].
  apply quiet_bind; [apply quiet_reads_only, reads_only_keyed|]. intros items.
  apply quiet_for_each. intros item.
  apply quiet_bind; [apply quiet_reads_only, reads_only_next_name|]. intros new.
  apply quiet_rename.
Qed.

(** Creating the archive only opens and writes it. *)
Lemma quiet_create E kw : Spec.never_unlinks (create_archive E kw).
Proof.
  unfold create_archive.
  destruct (kw_archive kw) as [archive|]; [|apply quiet_reads_only, reads_only_raise].
  apply quiet_bind; [apply quiet_open_write|]. intros _.
  destruct (source_location E (kw_source kw)) as [src|];
    try (apply quiet_reads_only, reads_only_raise).
  apply quiet_bind; [apply quiet_reads_only; intros w; reflexivity|].
  intros [|]; [apply quiet_write | apply quiet_reads_only, reads_only_raise].
Qed.

(** C7.  With a retention count of zero or less, retention enforcement
    returns at once: the file system is unchanged and no system call is
    issued, whatever the destination holds.  A whole run then never issues
    an unlink, whichever scheme it uses and however it ends. *)
Theorem retention_disabled kw w :
  (get_retention_count kw <= 0)%Z ->
  remove_previous_archives kw w = (Return tt, w) /\
  (forall E nargs, Spec.never_unlinks (call E nargs kw)).
Proof.
  intros H.
  assert (Hrm : forall kw' w', get_retention_count kw' = get_retention_count kw ->
                  remove_previous_archives kw' w' = (Return tt, w')).
  { intros kw' w' He. unfold remove_previous_archives. rewrite He.
    destruct (Z.leb_spec (get_retention_count kw) 0); [reflexivity | lia]. }
  split; [now apply Hrm|].
  intros E nargs. unfold call.
  destruct ((nargs =? 0)%nat && kw_is_empty kw);
    [apply quiet_reads_only, reads_only_raise|].
  apply quiet_bind; [apply quiet_reads_only, resolve_source_pure|]. intros source.
  apply quiet_bind; [apply quiet_reads_only, reads_only_resolve_destination|].
  intros archive.
  apply quiet_bind; [apply quiet_move|]. intros _.
  apply quiet_bind; [apply quiet_create|]. intros _.
  apply quiet_reads_only. intros w'. now rewrite Hrm.
Qed.

Lemma retention_disabled_witness :
  remove_previous_archives
    (Sample.kw_with 0 false "test.txt.2024-11-04T00-00-00-000000Z.tgz")
    Sample.w_three = (Return tt, Sample.w_three) /\
  (forall E nargs,
      Spec.never_unlinks
        (call E nargs
           (Sample.kw_with 0 false "test.txt.2024-11-04T00-00-00-000000Z.tgz"))).
Proof.
  apply retention_disabled.
  unfold get_retention_count, Sample.kw_with. cbn [kw_retention_count]. lia.
Defined.

End NoDeletionFacts.

(** ** Archive names *)

Module NameFacts.
Import BackerUpper StrFacts PyIntFacts.
Local Open Scope string_scope.

Lemma length_string_of_list_ascii (l : list ascii) :
  String.length (string_of_list_ascii l) = List.length l.
Proof. induction l as [|c l IH]; simpl; [reflexivity | now rewrite IH]. Qed.

Lemma digits_of_length (f : nat) (n : N) (w : nat) :
  (n < 10 ^ N.of_nat w)%N -> 1 <= w -> String.length (PyInt.digits_of f n) <= w.
Proof.
  revert n w. induction f as [|f IH]; intros n w Hn Hw; simpl; [lia|].
  destruct (N.ltb_spec n 10) as [H|H]; [simpl; lia|].
  rewrite length_append. simpl.
  destruct w as [|w]; [lia|].
  rewrite Nat2N.inj_succ, N.pow_succ_r' in Hn.
  destruct w as [|w]; [simpl in Hn; lia|].
  enough (String.length (PyInt.digits_of f (n / 10)) <= S w) by lia.
  apply IH; [|lia].
  apply N.Div0.div_lt_upper_bound. lia.
Qed.

(** A field that fits its width is printed as exactly that many digits. *)
Lemma field_shape (w : nat) (n : N) :
  (n < 10 ^ N.of_nat w)%N -> 1 <= w ->
  Str.all Str.is_digit (Datetime.field w n) = true /\
  String.length (Datetime.field w n) = w.
Proof.
  intros Hn Hw. unfold Datetime.field, Datetime.zfill.
  pose proof (digits_of_length (S (N.to_nat (N.log2 n))) n w Hn Hw) as Hl.
  fold (PyInt.str_N n) in Hl. split.
  - rewrite all_append, str_N_all_digits, andb_true_r.
    induction (w - String.length (PyInt.str_N n)) as [|k IH]; simpl; auto.
  - rewrite length_append, length_string_of_list_ascii, repeat_length. lia.
Qed.

Lemma digit_val_bound (c : ascii) : Str.is_digit c = true -> (PyInt.digit_val c <= 9)%N.
Proof.
  unfold Str.is_digit, Ascii.leb, Ascii.compare, PyInt.digit_val. intros H.
  apply andb_true_iff in H as [H1 H2].
  change (N_of_ascii "0") with 48%N in H1. change (N_of_ascii "9") with 57%N in H2.
  destruct (N.compare_spec 48 (N_of_ascii c)), (N.compare_spec (N_of_ascii c) 57);
    try discriminate; lia.
Qed.

(** A text of [k] digits denotes a number below [10^k]. *)
Lemma digits_value_bound (s : string) (acc : N) :
  Str.all Str.is_digit s = true ->
  (PyInt.digits_value acc s < (acc + 1) * 10 ^ N.of_nat (String.length s))%N.
Proof.
  revert acc. induction s as [|c s IH]; intros acc H.
  - simpl. lia.
  - simpl in H. apply andb_true_iff in H as [Hc Hs].
    cbn [PyInt.digits_value String.length].
    specialize (IH (10 * acc + PyInt.digit_val c)%N Hs).
    pose proof (digit_val_bound c Hc).
    rewrite Nat2N.inj_succ, N.pow_succ_r'. nia.
Qed.

Lemma digits_value_zeros (k : nat) (s : string) :
  PyInt.digits_value 0 (string_of_list_ascii (repeat "0"%char k) ++ s) =
  PyInt.digits_value 0 s.
Proof. induction k as [|k IH]; [reflexivity | exact IH]. Qed.

(** A field that fits its width reads as the number it was made from. *)
Lemma field_reads (w : nat) (n : N) :
  (n < 10 ^ N.of_nat w)%N -> 1 <= w -> Spec.reads (Datetime.field w n) w n.
Proof.
  intros Hn Hw. destruct (field_shape w n Hn Hw) as [Hd Hl].
  repeat split; [exact Hl | exact Hd |].
  unfold Datetime.field, Datetime.zfill. rewrite digits_value_zeros.
  apply str_N_value.
Qed.

(** A year of four digits needs no padding. *)
Lemma year_field (n : N) :
  (1000 <= n <= 9999)%N -> PyInt.str_N n = Datetime.field 4 n.
Proof.
  intros Hn. unfold Datetime.field, Datetime.zfill.
  pose proof (digits_value_bound (PyInt.str_N n) 0 (str_N_all_digits n)) as Hb.
  rewrite str_N_value in Hb.
  assert (Hl : 4 <= String.length (PyInt.str_N n)).
  { destruct (Nat.le_gt_cases 4 (String.length (PyInt.str_N n))) as [|Hlt]; [assumption|].
    exfalso.
    assert (10 ^ N.of_nat (String.length (PyInt.str_N n)) <= 10 ^ 3)%N
      by (apply N.pow_le_mono_r; lia).
    change (10 ^ 3)%N with 1000%N in *. lia. }
  replace (4 - String.length (PyInt.str_N n)) with 0 by lia. reflexivity.
Qed.

Lemma rmatch_app (r1 r2 : list Spec.rtoken) (s1 s2 : string) :
  Spec.rmatch r1 s1 = true -> Spec.rmatch r2 s2 = true ->
  Spec.rmatch (r1 ++ r2)%list (s1 ++ s2) = true.
Proof.
  revert s1. induction r1 as [|t r1 IH]; intros s1 H1 H2.
  - destruct s1; [exact H2 | discriminate].
  - destruct t as [|d], s1 as [|c s1]; simpl in *; try discriminate;
      apply andb_true_iff in H1 as [Hc H1]; rewrite Hc; simpl; now apply IH.
Qed.

Lemma rmatch_lit (s : string) : Spec.rmatch (Spec.lit s) s = true.
Proof.
  induction s as [|c s IH]; simpl; [reflexivity|].
  now rewrite Ascii.eqb_refl.
Qed.

Lemma rmatch_digits (s : string) :
  Str.all Str.is_digit s = true ->
  Spec.rmatch (Spec.digits (String.length s)) s = true.
Proof.
  induction s as [|c s IH]; simpl; [reflexivity|].
  intros H. apply andb_true_iff in H as [-> Hs]. now apply IH.
Qed.

Lemma rmatch_field (w : nat) (n : N) :
  (n < 10 ^ N.of_nat w)%N -> 1 <= w ->
  Spec.rmatch (Spec.digits w) (Datetime.field w n) = true.
Proof.
  intros Hn Hw. destruct (field_shape w n Hn Hw) as [Hd Hl].
  rewrite <- Hl at 1. now apply rmatch_digits.
Qed.

(** The time marker has the fixed shape of the pattern. *)
Lemma strftime_marker_shape (t : Datetime.datetime) :
  Datetime.valid t ->
  Spec.rmatch Spec.marker_regex (Datetime.strftime_marker t) = true.
Proof.
  intros (Hy & Hmo & Hd & Hh & Hmi & Hs & Hus).
  unfold Spec.marker_regex, Datetime.strftime_marker.
  rewrite (year_field _ Hy).
  repeat (apply rmatch_app;
          [first [ apply rmatch_lit
                 | apply rmatch_field; [simpl; lia | lia] ] | ]).
  apply rmatch_lit.
Qed.

Lemma collapse_snoc (l : list string) (x : string) :
  x <> ".." -> Pathlib.collapse (l ++ [x]) = (Pathlib.collapse l ++ [x])%list.
Proof.
  intros Hx. unfold Pathlib.collapse. rewrite fold_left_app. simpl.
  now destruct (String.eqb_spec x "..").
Qed.

(** A resolved path keeps the name of its last component. *)
Lemma name_resolve_child E (d : Path) (x : string) :
  x <> ".." -> Pathlib.name (resolve E (Pathlib.child d x)) = x.
Proof.
  intros Hx. unfold Pathlib.name, resolve, Pathlib.child. cbn [parts anchored].
  destruct (anchored d).
  - rewrite (collapse_snoc _ _ Hx). apply last_last.
  - rewrite app_assoc, (collapse_snoc _ _ Hx). apply last_last.
Qed.

Lemma long_not_dotdot (x : string) : 2 < String.length x -> x <> "..".
Proof. intros H ->. simpl in H. lia. Qed.

Lemma archive_name_not_dotdot (b m e : string) :
  e <> "" -> b ++ "." ++ m ++ "." ++ e <> "..".
Proof.
  intros He. apply long_not_dotdot.
  rewrite !length_append. simpl. destruct e; [congruence | simpl; lia].
Qed.

(** What [resolve_destination] returns when it returns. *)
Lemma resolve_destination_inv E kw w archive w' :
  resolve_destination E kw w = (Return archive, w') ->
  exists src dest,
    kw_source kw = Some (ArgPath src) /\ w' = w /\
    archive = resolve E
                (Pathlib.child dest
                   (Pathlib.name src ++ "." ++
                    (if get_sequential kw then PyInt.py_str 1
                     else Datetime.strftime_marker (now E)) ++ "." ++
                    (if get_uncompressed kw then "tar" else "tgz"))).
Proof.
  unfold resolve_destination.
  destruct (kw_source kw) as [[| |src]|]; try discriminate.
  set (x := Pathlib.name src ++ _).
  intros H. exists src.
  unfold bind at 1 in H.
  match type of H with
  | context [match ?c w with _ => _ end] => destruct (c w) as [[dest|e] w1] eqn:Hd
  end; [|discriminate].
  assert (w1 = w) as ->.
  { destruct (match kw_destination kw with Some d => d | None => _ end) as [|s|d].
    - discriminate.
    - pose proof (RunFacts.reads_only_bind (to_path (ArgStr s))
                    (fun p => p' <- expanduser E p ;; ret (resolve E p'))
                    (RunFacts.reads_only_to_path _)) as Hp.
      specialize (Hp (fun p => RunFacts.reads_only_bind _ _
                        (RunFacts.reads_only_expanduser E p)
                        (fun p' => RunFacts.reads_only_ret _)) w).
      rewrite Hd in Hp. exact Hp.
    - now inversion Hd. }
  exists dest. inversion H. auto.
Qed.

(** C9.  In a compressed run with time markers, the name of the archive is
    the name of the source, a dot, the UTC time as
    [YYYY-MM-DDTHH-MM-SS-ffffffZ] and [.tgz]: the seven fields of the marker
    have the widths 4, 2, 2, 2, 2, 2 and 6, they are made of digits, and
    they read as the year, month, day, hour, minute, second and microsecond
    of the clock; so the name matches
    [^<basename>\.\d{4}-\d{2}-\d{2}T\d{2}-\d{2}-\d{2}-\d{6}Z\.tgz$]. *)
Theorem timestamp_archive_name E kw w archive w' :
  get_sequential kw = false ->
  get_uncompressed kw = false ->
  Datetime.valid (now E) ->
  resolve_destination E kw w = (Return archive, w') ->
  exists src Y m d H M S f,
    kw_source kw = Some (ArgPath src) /\
    Pathlib.name archive =
      Pathlib.name src ++ "." ++
      (Y ++ "-" ++ m ++ "-" ++ d ++ "T" ++ H ++ "-" ++ M ++ "-" ++ S ++ "-" ++ f ++ "Z") ++
      ".tgz" /\
    Spec.reads Y 4 (Datetime.year (now E)) /\
    Spec.reads m 2 (Datetime.month (now E)) /\
    Spec.reads d 2 (Datetime.day (now E)) /\
    Spec.reads H 2 (Datetime.hour (now E)) /\
    Spec.reads M 2 (Datetime.minute (now E)) /\
    Spec.reads S 2 (Datetime.second (now E)) /\
    Spec.reads f 6 (Datetime.microsecond (now E)) /\
    Spec.rmatch (Spec.archive_regex (Pathlib.name src)) (Pathlib.name archive) = true.
Proof.
  intros Hseq Hunc Hv H.
  apply resolve_destination_inv in H as (src & dest & Hsrc & -> & ->).
  rewrite Hseq, Hunc.
  pose proof Hv as (Hy & Hmo & Hd & Hh & Hmi & Hs & Hus).
  exists src, (PyInt.str_N (Datetime.year (now E))),
    (Datetime.field 2 (Datetime.month (now E))),
    (Datetime.field 2 (Datetime.day (now E))),
    (Datetime.field 2 (Datetime.hour (now E))),
    (Datetime.field 2 (Datetime.minute (now E))),
    (Datetime.field 2 (Datetime.second (now E))),
    (Datetime.field 6 (Datetime.microsecond (now E))).
  split; [exact Hsrc|].
  rewrite name_resolve_child by (apply archive_name_not_dotdot; discriminate).
  split; [reflexivity|].
  split; [rewrite (year_field _ Hy); apply field_reads; simpl; lia|].
  do 6 (split; [apply field_reads; simpl; lia|]).
  unfold Spec.archive_regex.
  apply rmatch_app; [apply rmatch_lit|].
  apply (rmatch_app (Spec.lit ".") _ "."); [reflexivity|].
  apply rmatch_app; [now apply strftime_marker_shape | reflexivity].
Qed.

Lemma timestamp_archive_name_witness :
  exists src Y m d H M S f,
    kw_source (update_source Sample.kw_default (mkPath true ["tmp"; "test.txt"])) =
      Some (ArgPath src) /\
    Pathlib.name (mkPath true ["tmp"; "test.txt.2024-11-03T09-43-23-001234Z.tgz"]) =
      Pathlib.name src ++ "." ++
      (Y ++ "-" ++ m ++ "-" ++ d ++ "T" ++ H ++ "-" ++ M ++ "-" ++ S ++ "-" ++ f ++ "Z") ++
      ".tgz" /\
    Spec.reads Y 4 (Datetime.year (now Sample.E0)) /\
    Spec.reads m 2 (Datetime.month (now Sample.E0)) /\
    Spec.reads d 2 (Datetime.day (now Sample.E0)) /\
    Spec.reads H 2 (Datetime.hour (now Sample.E0)) /\
    Spec.reads M 2 (Datetime.minute (now Sample.E0)) /\
    Spec.reads S 2 (Datetime.second (now Sample.E0)) /\
    Spec.reads f 6 (Datetime.microsecond (now Sample.E0)) /\
    Spec.rmatch (Spec.archive_regex (Pathlib.name src))
      (Pathlib.name (mkPath true ["tmp"; "test.txt.2024-11-03T09-43-23-001234Z.tgz"]))
    = true.
Proof.
  apply (timestamp_archive_name Sample.E0
           (update_source Sample.kw_default (mkPath true ["tmp"; "test.txt"]))
           Sample.w_fresh
           (mkPath true ["tmp"; "test.txt.2024-11-03T09-43-23-001234Z.tgz"])
           Sample.w_fresh).
  - reflexivity.
  - reflexivity.
  - unfold Datetime.valid. simpl. lia.
  - reflexivity.
Defined.

End NameFacts.

(** ** Markers and the matching archives *)

Module MarkerFacts.
Import BackerUpper.

(** The matching archives are gathered unless the pattern is refused. *)
Lemma gather_cases kw w archive :
  kw_archive kw = Some archive ->
  gather_matching_archives kw w =
  if Str.has_stars (Spec.pattern_of archive)
  then (Raise (ValueError invalid_pattern), w)
  else (Return (Spec.pattern_of archive, Spec.matching w archive), w).
Proof.
  intros H. unfold gather_matching_archives. rewrite H.
  unfold bind, Fs.glob_m. fold (Spec.pattern_of archive).
  now destruct (Str.has_stars (Spec.pattern_of archive)).
Qed.

Lemma gather_spec kw w archive :
  kw_archive kw = Some archive ->
  Spec.pattern_ok archive ->
  exists pattern,
    gather_matching_archives kw w = (Return (pattern, Spec.matching w archive), w).
Proof.
  intros H Hok. rewrite (gather_cases kw w archive H), Hok. eexists. reflexivity.
Qed.

Lemma gather_refused kw w archive :
  kw_archive kw = Some archive ->
  ~ Spec.pattern_ok archive ->
  gather_matching_archives kw w = (Raise (ValueError invalid_pattern), w).
Proof.
  intros H Hok. rewrite (gather_cases kw w archive H).
  unfold Spec.pattern_ok in Hok.
  now destruct (Str.has_stars (Spec.pattern_of archive)).
Qed.

Lemma marker_of_some p z w :
  Spec.marker_value p = Some z -> marker_of p w = (Return z, w).
Proof.
  unfold Spec.marker_value, marker_of.
  destruct (nth_error _ 1) as [m|]; [|discriminate].
  now intros ->.
Qed.

Lemma marker_of_none p w :
  Spec.marker_value p = None ->
  exists e, marker_of p w = (Raise e, w) /\ Spec.bad_marker_error p e.
Proof.
  unfold Spec.marker_value, marker_of, Spec.bad_marker_error.
  destruct (nth_error _ 1) as [m|].
  - intros ->. eexists. split; [reflexivity | now split].
  - intros _. eexists. split; reflexivity.
Qed.

Lemma marker_or_zero_some p z :
  Spec.marker_value p = Some z -> Spec.marker_or_zero p = z.
Proof. unfold Spec.marker_or_zero. now intros ->. Qed.

(** When every marker is an integer, the keys are the markers. *)
Lemma keyed_ok (l : list Path) w :
  (forall p, In p l -> Spec.marker_value p <> None) ->
  keyed l w = (Return (map (fun p => (Spec.marker_or_zero p, p)) l), w).
Proof.
  induction l as [|x r IH]; intros H; [reflexivity|].
  unfold keyed in *. cbn [map_m map].
  destruct (Spec.marker_value x) as [z|] eqn:Hx;
    [|exfalso; now apply (H x (or_introl eq_refl))].
  unfold bind at 1. unfold bind at 1. rewrite (marker_of_some _ _ _ Hx).
  unfold ret at 1. unfold bind at 1. rewrite IH by (intros p Hp; apply H; now right).
  now rewrite (marker_or_zero_some _ _ Hx).
Qed.

(** When some marker is not an integer, the first such archive decides the
    error, and nothing has happened by then. *)
Lemma keyed_fail_first (l : list Path) w :
  (exists p, In p l /\ Spec.marker_value p = None) ->
  exists e bad,
    keyed l w = (Raise e, w) /\ Spec.first_malformed l bad /\
    Spec.bad_marker_error bad e.
Proof.
  induction l as [|x r IH]; intros (p & Hp & Hm); [contradiction|].
  unfold keyed in *. cbn [map_m].
  destruct (Spec.marker_value x) as [z|] eqn:Hx.
  - destruct Hp as [->|Hp]; [congruence|].
    destruct IH as (e & bad & He & (l1 & l2 & Hl & Hl1 & Hbad) & Herr);
      [now exists p|].
    exists e, bad. repeat split; auto.
    + unfold bind at 1. unfold bind at 1. rewrite (marker_of_some _ _ _ Hx).
      unfold ret at 1. unfold bind at 1. now rewrite He.
    + exists (x :: l1), l2. repeat split; [now rewrite Hl | | exact Hbad].
      intros q [<-|Hq]; [congruence | now apply Hl1].
  - destruct (marker_of_none x w Hx) as (e & He & Herr).
    exists e, x. repeat split; auto.
    + unfold bind at 1. unfold bind at 1. now rewrite He.
    + exists [], r. repeat split; [intros q [] | exact Hx].
Qed.

Lemma first_malformed_in (l : list Path) (bad : Path) :
  Spec.first_malformed l bad -> In bad l /\ Spec.marker_value bad = None.
Proof.
  intros (l1 & l2 & -> & _ & Hbad). split; [|exact Hbad].
  apply in_or_app. right. now left.
Qed.

Lemma keyed_fail (l : list Path) w :
  (exists p, In p l /\ Spec.marker_value p = None) ->
  exists e bad,
    keyed l w = (Raise e, w) /\ In bad l /\
    Spec.marker_value bad = None /\ Spec.bad_marker_error bad e.
Proof.
  intros H. destruct (keyed_fail_first l w H) as (e & bad & He & Hf & Herr).
  destruct (first_malformed_in l bad Hf) as [Hin Hbad].
  now exists e, bad.
Qed.

(** C6, as the code has it.  When an archive that matches the pattern has
    a marker that is no integer, a sequential rotation raises before any
    rename is issued: the world is unchanged and no archive is skipped.
    The error is that of the first such archive in the order of the
    directory scan: the [ValueError] of [int], whose message quotes the
    marker text, not the file name (or gives the number of digits of a
    marker that is too long); or [IndexError] for a name without a marker
    part. *)
Theorem malformed_marker_stops_rotation E kw w archive item :
  get_sequential kw = true ->
  kw_archive kw = Some archive ->
  Spec.pattern_ok archive ->
  In item (Spec.matching w archive) ->
  Spec.marker_value item = None ->
  exists e bad,
    move_previous_archives E kw w = (Raise e, w) /\
    Spec.first_malformed (Spec.matching w archive) bad /\
    Spec.bad_marker_error bad e.
Proof.
  intros Hseq Ha Hok Hin Hm.
  destruct (keyed_fail_first (Spec.matching w archive) w) as (e & bad & He & Hb & Herr);
    [now exists item|].
  exists e, bad. repeat split; auto.
  unfold move_previous_archives. rewrite Hseq. cbn [negb].
  destruct (gather_spec kw w archive Ha Hok) as (pattern & Hg).
  unfold bind at 1. rewrite Hg. cbn [snd].
  destruct (Spec.matching w archive) as [|x r] eqn:Hl; [contradiction|].
  unfold bind at 1. now rewrite He.
Qed.

Lemma malformed_marker_stops_rotation_witness :
  exists e bad,
    move_previous_archives Sample.E0 (Sample.kw_with 10 true "test.txt.1.tgz")
      Sample.w_bad_one = (Raise e, Sample.w_bad_one) /\
    Spec.first_malformed
      (Spec.matching Sample.w_bad_one (mkPath true ["tmp"; "test.txt.1.tgz"])) bad /\
    Spec.bad_marker_error bad e.
Proof.
  apply (malformed_marker_stops_rotation Sample.E0
           (Sample.kw_with 10 true "test.txt.1.tgz") Sample.w_bad_one
           (mkPath true ["tmp"; "test.txt.1.tgz"])
           (mkPath true ["tmp"; "test.txt.zz.tgz"])).
  - reflexivity.
  - reflexivity.
  - reflexivity.
  - vm_compute. right. left. reflexivity.
  - reflexivity.
Defined.

(** The claim C6 fails here: two destinations whose malformed archives
    have different names make the rotation raise one and the same error,
    so the error does not identify the name. *)
Lemma rotation_error_hides_the_name :
  let kw := Sample.kw_with 10 true "test.txt.1.tgz" in
  let archive := mkPath true ["tmp"; "test.txt.1.tgz"] in
  move_previous_archives Sample.E0 kw Sample.w_bad_one =
    (Raise (ValueError "invalid literal for int() with base 10: 'zz'"),
     Sample.w_bad_one) /\
  move_previous_archives Sample.E0 kw Sample.w_bad_two =
    (Raise (ValueError "invalid literal for int() with base 10: 'zz'"),
     Sample.w_bad_two) /\
  map Pathlib.name
      (filter (fun p => match Spec.marker_value p with None => true | _ => false end)
              (Spec.matching Sample.w_bad_one archive)) = ["test.txt.zz.tgz"] /\
  map Pathlib.name
      (filter (fun p => match Spec.marker_value p with None => true | _ => false end)
              (Spec.matching Sample.w_bad_two archive)) = ["test.txt.old.zz.tgz"].
Proof. repeat split; vm_compute; reflexivity. Qed.

End MarkerFacts.

(** ** Retention *)

Module RetentionFacts.
Import BackerUpper FsFacts PySortFacts PathFacts MarkerFacts.

Lemma mem_spec (p : list string) (l : list (list string)) :
  Fs.mem p l = true <-> In p l.
Proof.
  unfold Fs.mem. rewrite existsb_exists. split.
  - intros (q & Hq & He). now destruct (path_eqb_spec p q) as [->|].
  - intros H. exists p. split; [exact H | apply path_eqb_refl].
Qed.

Lemma mem_false (p : list string) (l : list (list string)) :
  Fs.mem p l = false <-> ~ In p l.
Proof.
  rewrite <- mem_spec. destruct (Fs.mem p l); split; congruence.
Qed.

Lemma lookup_remove_all (f : filesystem) (l : list (list string)) (q : list string) :
  Fs.lookup (Fs.remove_all f l) q = if Fs.mem q l then None else Fs.lookup f q.
Proof.
  unfold Fs.remove_all. rewrite (lookup_filter (fun x => negb (Fs.mem x l))).
  now destruct (Fs.mem q l).
Qed.

Lemma remove_all_cons (f : filesystem) (x : list string) (l : list (list string)) :
  Fs.remove_all (Fs.remove f x) l = Fs.remove_all f (x :: l).
Proof.
  unfold Fs.remove_all, Fs.remove. induction f as [|[q n] r IH]; [reflexivity|].
  cbn [filter fst Fs.mem existsb].
  destruct (path_eqb_spec q x) as [->|Hne]; cbn [negb orb filter fst].
  - exact IH.
  - fold (Fs.mem q l). destruct (Fs.mem q l); cbn [negb]; [exact IH | now rewrite IH].
Qed.

Lemma for_each_app {A} (body : A -> M unit) (l1 l2 : list A) (w : world) :
  for_each body (l1 ++ l2) w =
  match for_each body l1 w with
  | (Return _, w1) => for_each body l2 w1
  | (Raise e, w1) => (Raise e, w1)
  end.
Proof.
  revert w. induction l1 as [|x r IH]; intros w; [reflexivity|].
  cbn [app for_each]. unfold bind.
  destruct (body x w) as [[u|e] w1]; [apply IH | reflexivity].
Qed.

(** Deleting regular files one after the other succeeds and removes
    exactly them. *)
Lemma unlink_all_ok (l : list Path) (w : world) :
  NoDup (map parts l) ->
  (forall p, In p l -> Spec.is_file (fs w) (parts p)) ->
  for_each (fun item => Fs.unlink (parts item)) l w =
  (Return tt,
   {| fs := Fs.remove_all (fs w) (map parts l);
      calls := rev (map SysUnlink (map parts l)) ++ calls w |}).
Proof.
  revert w. induction l as [|x r IH]; intros w Hnd Hf.
  - cbn [for_each map rev app]. unfold ret, Fs.remove_all. cbn [Fs.mem existsb negb].
    rewrite filter_true. now destruct w.
  - cbn [for_each map]. inversion Hnd as [|? ? Hx Hr]; subst.
    destruct (Hf x (or_introl eq_refl)) as (dx & Hdx).
    unfold bind, Fs.unlink at 1. rewrite Hdx.
    rewrite IH; cbn [fs calls]; [| assumption |].
    + rewrite remove_all_cons. cbn [rev]. now rewrite <- app_assoc.
    + intros p Hp. destruct (Hf p (or_intror Hp)) as (d & Hd). exists d.
      rewrite lookup_remove.
      destruct (path_eqb_spec (parts p) (parts x)) as [He|]; [|exact Hd].
      exfalso. apply Hx. rewrite <- He. now apply in_map.
Qed.

Lemma matching_parts (w : world) (archive p : Path) :
  In p (Spec.matching w archive) ->
  exists n, p = mkPath true (parts (Pathlib.parent archive) ++ [n]) /\
            In (parts p) (map fst (fs w)).
Proof.
  unfold Spec.matching. intros H. apply in_map_iff in H as (q & <- & Hq).
  apply glob_in in Hq as (Hin & Hq & _).
  exists (last q ""). split; [now rewrite <- Hq | exact Hin].
Qed.

Lemma map_parts_mkPath (l : list (list string)) : map parts (map (mkPath true) l) = l.
Proof. rewrite map_map. apply map_id. Qed.

Lemma matching_nodup (w : world) (archive : Path) :
  NoDup (map fst (fs w)) -> NoDup (map parts (Spec.matching w archive)).
Proof.
  intros H. unfold Spec.matching. rewrite map_parts_mkPath. now apply glob_nodup.
Qed.

Lemma retention_order_perm (seq : bool) (l : list Path) :
  Permutation (Spec.retention_order seq l) l.
Proof.
  unfold Spec.retention_order, PySort.sorted. destruct seq.
  - rewrite sort_perm, map_map. cbn [snd]. now rewrite map_id.
  - apply sort_perm.
Qed.

Lemma retention_order_by_marker (l : list Path) :
  (forall p, In p l -> Spec.marker_value p <> None) ->
  StronglySorted Spec.marker_le (Spec.retention_order true l).
Proof.
  intros Hm. unfold Spec.retention_order, PySort.sorted.
  apply (sorted_map (PySort.before key_lt)).
  - intros a b Ha Hb Hab.
    assert (Hk : forall c, In c (PySort.sort key_lt
                                   (map (fun p => (Spec.marker_or_zero p, p)) l)) ->
                           Spec.marker_value (snd c) = Some (fst c)).
    { intros c Hc. apply (Permutation_in _ (sort_perm _ _)) in Hc.
      apply in_map_iff in Hc as (p & <- & Hp). cbn [fst snd].
      specialize (Hm p Hp). unfold Spec.marker_or_zero.
      now destruct (Spec.marker_value p). }
    unfold Spec.marker_le. rewrite (Hk a Ha), (Hk b Hb).
    unfold PySort.before, key_lt in Hab. lia.
  - apply sort_sorted; unfold PySort.before, key_lt; intros; lia.
Qed.

Lemma retention_order_by_name (d : list string) (l : list Path) :
  (forall p, In p l -> exists n, p = mkPath true (d ++ [n])) ->
  StronglySorted Spec.name_ge (Spec.retention_order false l).
Proof.
  intros Hd. unfold Spec.retention_order, PySort.sorted.
  rewrite <- (map_id (PySort.sort _ l)).
  apply (sorted_map (PySort.before (fun a b => Pathlib.ltb b a))).
  - intros a b Ha Hb Hab.
    apply (Permutation_in _ (sort_perm _ _)) in Ha, Hb.
    destruct (Hd a Ha) as (na & ->), (Hd b Hb) as (nb & ->).
    unfold PySort.before in Hab. rewrite ltb_pcompare, pcompare_siblings in Hab.
    unfold Spec.name_ge, Pathlib.name. cbn [parts]. rewrite !last_last.
    unfold String.leb. rewrite compare_opp.
    destruct (String.compare na nb); simpl; congruence.
  - apply sort_sorted; unfold PySort.before.
    + intros a b. apply ltb_asym.
    + intros a b c. apply not_ltb_trans.
Qed.

(** Past its guards, retention deletes what follows the first [K] archives
    of the ranking, in that order. *)
Lemma remove_unfold kw w archive :
  kw_archive kw = Some archive ->
  Spec.pattern_ok archive ->
  (0 < get_retention_count kw)%Z ->
  (get_retention_count kw < Z.of_nat (List.length (Spec.matching w archive)))%Z ->
  (get_sequential kw = true ->
   forall p, In p (Spec.matching w archive) -> Spec.marker_value p <> None) ->
  remove_previous_archives kw w =
  for_each (fun item => Fs.unlink (parts item))
           (skipn (Z.to_nat (get_retention_count kw))
                  (Spec.retention_order (get_sequential kw)
                                        (Spec.matching w archive))) w.
Proof.
  intros Ha Hok HK HM Hm. unfold remove_previous_archives.
  destruct (Z.leb_spec (get_retention_count kw) 0); [lia|].
  destruct (gather_spec kw w archive Ha Hok) as (pattern & Hg).
  unfold bind at 1. rewrite Hg. cbn [snd].
  destruct (Z.leb_spec (Z.of_nat (List.length (Spec.matching w archive)))
                       (get_retention_count kw)); [lia|].
  unfold Spec.retention_order. destruct (get_sequential kw).
  - unfold bind at 1. unfold bind at 1. rewrite (keyed_ok _ _ (Hm eq_refl)).
    reflexivity.
  - reflexivity.
Qed.

Lemma nodup_app_disjoint {A} (l1 l2 : list A) (x : A) :
  NoDup (l1 ++ l2) -> In x l1 -> ~ In x l2.
Proof.
  induction l1 as [|a l1 IH]; intros Hnd H1 H2; [contradiction|].
  inversion Hnd as [|? ? Ha Hr]; subst. destruct H1 as [->|H1].
  - apply Ha, in_or_app. now right.
  - now apply IH.
Qed.

Lemma nodup_firstn {A} (l : list A) (k : nat) : NoDup l -> NoDup (firstn k l).
Proof.
  intros H. rewrite <- (firstn_skipn k l) in H. now apply NoDup_app_remove_r in H.
Qed.

Lemma nodup_skipn {A} (l : list A) (k : nat) : NoDup l -> NoDup (skipn k l).
Proof.
  intros H. rewrite <- (firstn_skipn k l) in H. now apply NoDup_app_remove_l in H.
Qed.

(** Taking away what follows the first [k] of a ranking leaves the first
    [k], whatever the order of the directory scan. *)
Lemma kept_is_prefix (G O : list (list string)) (k : nat) :
  NoDup G -> Permutation O G ->
  Permutation (filter (fun q => negb (Fs.mem q (skipn k O))) G) (firstn k O).
Proof.
  intros HG HP.
  assert (HO : NoDup O) by (apply (Permutation_NoDup (Permutation_sym HP) HG)).
  apply NoDup_Permutation.
  - now apply NoDup_filter.
  - now apply nodup_firstn.
  - intros q. rewrite filter_In, negb_true_iff, mem_false. split.
    + intros [Hq Hn]. apply (Permutation_in _ (Permutation_sym HP)) in Hq.
      rewrite <- (firstn_skipn k O) in Hq. apply in_app_or in Hq as [|]; tauto.
    + intros Hq. split.
      * apply (Permutation_in _ HP). now apply in_firstn in Hq.
      * apply (nodup_app_disjoint (firstn k O)); [now rewrite firstn_skipn | exact Hq].
Qed.

Lemma matching_is_mkPath (w : world) (archive : Path) (l : list Path) :
  Permutation l (Spec.matching w archive) -> map (mkPath true) (map parts l) = l.
Proof.
  intros HP. rewrite map_map. rewrite <- (map_id l) at 2.
  apply map_ext_in. intros p Hp. apply (Permutation_in _ HP) in Hp.
  apply matching_parts in Hp as (n & -> & _). reflexivity.
Qed.

Lemma matching_after_removal (w : world) (archive : Path) (l : list (list string))
    (c : list syscall) :
  Spec.matching {| fs := Fs.remove_all (fs w) l; calls := c |} archive =
  map (mkPath true)
      (filter (fun q => negb (Fs.mem q l)) (map parts (Spec.matching w archive))).
Proof.
  unfold Spec.matching. cbn [fs]. rewrite map_parts_mkPath.
  unfold Fs.remove_all.
  now rewrite (glob_filter (fun q => negb (Fs.mem q l))).
Qed.

(** C2.  With a retention count [K > 0], a pattern that [Path.glob] takes
    (it holds no "**") and more than [K] matching archives (regular files;
    in the sequential scheme with markers that [int] reads), retention
    succeeds and exactly [K] archives remain.  They are the first [K] of
    the ranking, which holds every matching archive once and is ordered by
    ascending marker in the sequential scheme and by descending file name
    otherwise.  The others are gone and nothing else is touched. *)
Theorem retention_keeps_newest kw w archive :
  kw_archive kw = Some archive ->
  Spec.pattern_ok archive ->
  (0 < get_retention_count kw)%Z ->
  (get_retention_count kw < Z.of_nat (List.length (Spec.matching w archive)))%Z ->
  NoDup (map fst (fs w)) ->
  (forall p, In p (Spec.matching w archive) -> Spec.is_file (fs w) (parts p)) ->
  (get_sequential kw = true ->
   forall p, In p (Spec.matching w archive) -> Spec.marker_value p <> None) ->
  exists w' ordered,
    remove_previous_archives kw w = (Return tt, w') /\
    Permutation ordered (Spec.matching w archive) /\
    StronglySorted (if get_sequential kw then Spec.marker_le else Spec.name_ge)
                   ordered /\
    Permutation (Spec.matching w' archive)
                (firstn (Z.to_nat (get_retention_count kw)) ordered) /\
    List.length (Spec.matching w' archive) = Z.to_nat (get_retention_count kw) /\
    (forall p, In p (skipn (Z.to_nat (get_retention_count kw)) ordered) ->
               Fs.lookup (fs w') (parts p) = None) /\
    (forall q, ~ In q (map parts (skipn (Z.to_nat (get_retention_count kw)) ordered)) ->
               Fs.lookup (fs w') q = Fs.lookup (fs w) q).
Proof.
  intros Ha Hok HK HM Hnd Hfiles Hmark.
  set (k := Z.to_nat (get_retention_count kw)).
  set (matched := Spec.matching w archive) in *.
  set (ordered := Spec.retention_order (get_sequential kw) matched).
  pose proof (retention_order_perm (get_sequential kw) matched) as HP.
  fold ordered in HP.
  assert (HndO : NoDup (map parts ordered)).
  { apply (Permutation_NoDup (Permutation_map parts (Permutation_sym HP))).
    now apply matching_nodup. }
  assert (HD : NoDup (map parts (skipn k ordered))).
  { rewrite <- skipn_map. now apply nodup_skipn. }
  assert (HfD : forall p, In p (skipn k ordered) -> Spec.is_file (fs w) (parts p)).
  { intros p Hp. apply Hfiles, (Permutation_in _ HP). now apply in_skipn in Hp. }
  pose proof (remove_unfold kw w archive Ha Hok HK HM Hmark) as Hrun.
  fold matched ordered k in Hrun.
  rewrite (unlink_all_ok _ w HD HfD) in Hrun.
  eexists. exists ordered. split; [exact Hrun|].
  assert (Hkept : Permutation
                    (Spec.matching
                       {| fs := Fs.remove_all (fs w) (map parts (skipn k ordered));
                          calls := rev (map SysUnlink (map parts (skipn k ordered)))
                                     ++ calls w |} archive)
                    (firstn k ordered)).
  { rewrite <- skipn_map, matching_after_removal. fold matched.
    replace (firstn k ordered)
      with (map (mkPath true) (firstn k (map parts ordered)))
      by (now rewrite <- firstn_map, (matching_is_mkPath w archive ordered HP)).
    apply Permutation_map, kept_is_prefix.
    - now apply matching_nodup.
    - now apply Permutation_map. }
  split; [exact HP|]. split.
  { subst ordered. destruct (get_sequential kw) eqn:Hseq.
    - apply retention_order_by_marker. now apply Hmark.
    - apply (retention_order_by_name (parts (Pathlib.parent archive))).
      intros p Hp. apply matching_parts in Hp as (n & -> & _). now exists n. }
  split; [exact Hkept|]. split.
  { rewrite (Permutation_length Hkept), length_firstn,
      (Permutation_length HP). subst k. lia. }
  cbn [fs]. split.
  - intros p Hp. rewrite lookup_remove_all.
    replace (Fs.mem (parts p) (map parts (skipn k ordered))) with true; [reflexivity|].
    symmetry. apply mem_spec. now apply in_map.
  - intros q Hq. rewrite lookup_remove_all.
    apply mem_false in Hq. now rewrite Hq.
Qed.

Lemma retention_keeps_newest_witness :
  exists w' ordered,
    remove_previous_archives
      (Sample.kw_with 2 true "test.txt.1.tgz") Sample.w_seq = (Return tt, w') /\
    Permutation ordered
      (Spec.matching Sample.w_seq (mkPath true ["tmp"; "test.txt.1.tgz"])) /\
    StronglySorted Spec.marker_le ordered /\
    Permutation (Spec.matching w' (mkPath true ["tmp"; "test.txt.1.tgz"]))
                (firstn 2 ordered) /\
    List.length (Spec.matching w' (mkPath true ["tmp"; "test.txt.1.tgz"])) = 2 /\
    (forall p, In p (skipn 2 ordered) -> Fs.lookup (fs w') (parts p) = None) /\
    (forall q, ~ In q (map parts (skipn 2 ordered)) ->
               Fs.lookup (fs w') q = Fs.lookup (fs Sample.w_seq) q).
Proof.
  apply (retention_keeps_newest (Sample.kw_with 2 true "test.txt.1.tgz")
           Sample.w_seq (mkPath true ["tmp"; "test.txt.1.tgz"])).
  - reflexivity.
  - reflexivity.
  - reflexivity.
  - vm_compute. reflexivity.
  - repeat constructor; simpl; intuition discriminate.
  - intros p Hp. vm_compute in Hp. unfold Spec.is_file.
    destruct Hp as [<-|[<-|[<-|[]]]];
      [exists 1%N | exists 10%N | exists 2%N]; vm_compute; reflexivity.
  - intros _ p Hp. vm_compute in Hp.
    destruct Hp as [<-|[<-|[<-|[]]]]; vm_compute; discriminate.
Defined.

(** The first path that cannot be deleted ends the loop. *)
Lemma unlink_stops (l1 : list Path) (x : Path) (l2 : list Path) (w : world) :
  NoDup (map parts (l1 ++ x :: l2)) ->
  (forall p, In p l1 -> Spec.is_file (fs w) (parts p)) ->
  ~ Spec.is_file (fs w) (parts x) ->
  for_each (fun item => Fs.unlink (parts item)) (l1 ++ x :: l2) w =
  (Raise (Spec.unlink_error (fs w) (parts x)),
   {| fs := Fs.remove_all (fs w) (map parts l1);
      calls := SysUnlink (parts x) :: rev (map SysUnlink (map parts l1)) ++ calls w |}).
Proof.
  intros Hnd Hf Hx. rewrite map_app in Hnd.
  rewrite for_each_app, (unlink_all_ok l1 w (NoDup_app_remove_r _ _ Hnd) Hf).
  cbn [for_each]. unfold bind, Fs.unlink at 1. cbn [fs calls].
  rewrite lookup_remove_all.
  assert (Fs.mem (parts x) (map parts l1) = false) as ->.
  { apply mem_false. intros Hin.
    apply (nodup_app_disjoint _ _ _ Hnd Hin). now left. }
  unfold Spec.unlink_error.
  destruct (Fs.lookup (fs w) (parts x)) as [[d|]|] eqn:Hl; try reflexivity.
  exfalso. apply Hx. now exists d.
Qed.

(** C4, as the code has it.  Retention deletes in ranking order and stops
    at the first archive that cannot be deleted: the error of that file
    ends the run, the archives before it are gone, and the archives after
    it are neither attempted nor removed.  This is for a pattern that
    [Path.glob] takes (it holds no "**") and, in the sequential scheme,
    markers that [int] reads; otherwise retention raises before it deletes
    anything. *)
Theorem deletion_stops_at_first_failure kw w archive l1 x l2 :
  kw_archive kw = Some archive ->
  Spec.pattern_ok archive ->
  (0 < get_retention_count kw)%Z ->
  (get_retention_count kw < Z.of_nat (List.length (Spec.matching w archive)))%Z ->
  NoDup (map fst (fs w)) ->
  (get_sequential kw = true ->
   forall p, In p (Spec.matching w archive) -> Spec.marker_value p <> None) ->
  skipn (Z.to_nat (get_retention_count kw))
        (Spec.retention_order (get_sequential kw) (Spec.matching w archive)) =
    l1 ++ x :: l2 ->
  (forall p, In p l1 -> Spec.is_file (fs w) (parts p)) ->
  ~ Spec.is_file (fs w) (parts x) ->
  exists w',
    remove_previous_archives kw w = (Raise (Spec.unlink_error (fs w) (parts x)), w') /\
    calls w' = SysUnlink (parts x) :: rev (map SysUnlink (map parts l1)) ++ calls w /\
    (forall p, In p l1 -> Fs.lookup (fs w') (parts p) = None) /\
    (forall p, In p (x :: l2) ->
               Fs.lookup (fs w') (parts p) = Fs.lookup (fs w) (parts p) /\
               (p <> x -> ~ In (SysUnlink (parts p))
                             (SysUnlink (parts x) :: rev (map SysUnlink (map parts l1))))).
Proof.
  intros Ha Hok HK HM Hnd Hmark Hsplit Hf Hx.
  pose proof (retention_order_perm (get_sequential kw) (Spec.matching w archive)) as HP.
  assert (HD : NoDup (map parts (l1 ++ x :: l2))).
  { rewrite <- Hsplit, <- skipn_map. apply nodup_skipn.
    apply (Permutation_NoDup (Permutation_map parts (Permutation_sym HP))).
    now apply matching_nodup. }
  rewrite (remove_unfold kw w archive Ha Hok HK HM Hmark), Hsplit.
  rewrite (unlink_stops l1 x l2 w HD Hf Hx).
  eexists. split; [reflexivity|]. cbn [fs calls]. split; [reflexivity|].
  rewrite map_app in HD.
  assert (Hout : forall p, In p (x :: l2) -> ~ In (parts p) (map parts l1)).
  { intros p Hp Hin. apply (nodup_app_disjoint _ _ _ HD Hin). now apply in_map. }
  split.
  - intros p Hp. rewrite lookup_remove_all.
    replace (Fs.mem (parts p) (map parts l1)) with true; [reflexivity|].
    symmetry. apply mem_spec. now apply in_map.
  - intros p Hp. split.
    + rewrite lookup_remove_all.
      pose proof (Hout p Hp) as Hn. apply mem_false in Hn. now rewrite Hn.
    + intros Hne [He|Hin].
      * apply NoDup_app_remove_l in HD. cbn [map] in HD.
        inversion HD as [|? ? Hnx _]; subst. apply Hnx.
        destruct Hp as [->|Hp]; [congruence|].
        injection He as He. rewrite He. now apply in_map.
      * apply in_rev in Hin. apply in_map_iff in Hin as (q & Hq & Hin).
        injection Hq as ->. now apply (Hout p Hp).
Qed.

Lemma deletion_stops_at_first_failure_witness :
  let kw := Sample.kw_with 1 false "test.txt.2024-11-04T00-00-00-000000Z.tgz" in
  let x := mkPath true ["tmp"; "test.txt.2024-11-02T00-00-00-000000Z.tgz"] in
  let l1 := [mkPath true ["tmp"; "test.txt.2024-11-03T00-00-00-000000Z.tgz"]] in
  let l2 := [mkPath true ["tmp"; "test.txt.2024-11-01T00-00-00-000000Z.tgz"]] in
  exists w',
    remove_previous_archives kw Sample.w_dir_in_the_way =
      (Raise (Spec.unlink_error (fs Sample.w_dir_in_the_way) (parts x)), w') /\
    calls w' = SysUnlink (parts x) :: rev (map SysUnlink (map parts l1))
                 ++ calls Sample.w_dir_in_the_way /\
    (forall p, In p l1 -> Fs.lookup (fs w') (parts p) = None) /\
    (forall p, In p (x :: l2) ->
               Fs.lookup (fs w') (parts p) =
                 Fs.lookup (fs Sample.w_dir_in_the_way) (parts p) /\
               (p <> x -> ~ In (SysUnlink (parts p))
                             (SysUnlink (parts x) :: rev (map SysUnlink (map parts l1))))).
Proof.
  intros kw x l1 l2.
  apply (deletion_stops_at_first_failure kw Sample.w_dir_in_the_way
           (mkPath true ["tmp"; "test.txt.2024-11-04T00-00-00-000000Z.tgz"]) l1 x l2).
  - reflexivity.
  - reflexivity.
  - reflexivity.
  - reflexivity.
  - repeat constructor; simpl; intuition discriminate.
  - discriminate.
  - reflexivity.
  - intros p [<-|[]]. eexists. reflexivity.
  - intros [d Hd]. discriminate Hd.
Defined.

(** The claim C4 fails here: the second deletion hits a directory and
    raises, and the archive that was next in line is not attempted and is
    still there. *)
Lemma failed_deletion_aborts_the_rest :
  let kw := Sample.kw_with 1 false "test.txt.2024-11-04T00-00-00-000000Z.tgz" in
  let oldest := ["tmp"; "test.txt.2024-11-01T00-00-00-000000Z.tgz"] in
  exists w',
    remove_previous_archives kw Sample.w_dir_in_the_way =
      (Raise (IsADirectoryError ["tmp"; "test.txt.2024-11-02T00-00-00-000000Z.tgz"]), w') /\
    calls w' = [SysUnlink ["tmp"; "test.txt.2024-11-02T00-00-00-000000Z.tgz"];
                SysUnlink ["tmp"; "test.txt.2024-11-03T00-00-00-000000Z.tgz"]] /\
    In (mkPath true oldest)
       (skipn 1 (Spec.retention_order false
                   (Spec.matching Sample.w_dir_in_the_way
                      (mkPath true ["tmp"; "test.txt.2024-11-04T00-00-00-000000Z.tgz"])))) /\
    Fs.lookup (fs w') oldest = Some (File 1).
Proof.
  eexists. split; [vm_compute; reflexivity|].
  repeat split; vm_compute; auto.
Qed.

End RetentionFacts.

(** ** Rotation *)

Module RotationFacts.
Import BackerUpper FsFacts PySortFacts MarkerFacts StrFacts PyIntFacts NameFacts.

(** The new name is the old one with the marker replaced by its successor
    in plain decimal, and it reads back as that successor. *)
Lemma step_spec E (z : Z) (item : Path) :
  Spec.marker_value item = Some z ->
  PyInt.printable (z + 1) = true ->
  exists stem m rest,
    Str.rsplit2 (Pathlib.name item) = stem :: m :: rest /\
    Pathlib.name (Spec.st_new (Spec.step_of E (z, item))) =
      Str.join_dot (stem :: PyInt.py_str (z + 1) :: rest) /\
    Str.rsplit2 (Pathlib.name (Spec.st_new (Spec.step_of E (z, item)))) =
      stem :: PyInt.py_str (z + 1) :: rest /\
    Spec.marker_value (Spec.st_new (Spec.step_of E (z, item))) = Some (z + 1)%Z.
Proof.
  unfold Spec.marker_value at 1. intros Hm Hpr.
  destruct (Str.rsplit2 (Pathlib.name item)) as [|stem [|m rest]] eqn:Hs;
    try discriminate.
  exists stem, m, rest. split; [reflexivity|].
  pose proof (rsplit2_rejoin _ m (PyInt.py_str (z + 1)) stem rest Hs
                (py_str_no_dot _)) as Hre.
  assert (Hname : Pathlib.name (Spec.st_new (Spec.step_of E (z, item))) =
                  Str.join_dot (stem :: PyInt.py_str (z + 1) :: rest)).
  { unfold Spec.step_of. cbn [Spec.st_new fst snd]. rewrite Hs.
    apply name_resolve_child. intros Hdd. rewrite Hdd in Hre.
    injection Hre as _ Ht _.
    pose proof (py_int_py_str (z + 1) Hpr) as Hp. rewrite <- Ht in Hp. discriminate. }
  split; [exact Hname|]. rewrite Hname. split; [exact Hre|].
  unfold Spec.marker_value. rewrite Hname, Hre. cbn [nth_error].
  now apply py_int_py_str.
Qed.

Lemma bind_eq {A B} (c c' : M A) (k k' : A -> M B) (w : world) :
  c w = c' w -> (forall a w1, k a w1 = k' a w1) -> bind c k w = bind c' k' w.
Proof.
  intros Hc Hk. unfold bind. rewrite Hc.
  destruct (c' w) as [[a|e] w1]; [apply Hk | reflexivity].
Qed.

Lemma next_name_spec E (item : Path) (z : Z) (w : world) :
  Spec.marker_value item = Some z ->
  PyInt.printable (z + 1) = true ->
  next_name E item w = (Return (Spec.st_new (Spec.step_of E (z, item))), w).
Proof.
  intros Hm Hp. unfold next_name, bind. now rewrite (marker_of_some _ _ _ Hm), Hp.
Qed.

(** The number of a marker that is as long as [str] allows has no
    successor that [str] writes. *)
Lemma next_name_limit E (item : Path) (z : Z) (w : world) :
  Spec.marker_value item = Some z ->
  PyInt.printable (z + 1) = false ->
  next_name E item w = (Raise (ValueError str_limit), w).
Proof.
  intros Hm Hp. unfold next_name, bind. now rewrite (marker_of_some _ _ _ Hm), Hp.
Qed.

Lemma for_each_steps E (ks : list (Z * Path)) (w : world) :
  (forall kp, In kp ks -> Spec.marker_value (snd kp) = Some (fst kp) /\
                          PyInt.printable (fst kp + 1) = true) ->
  for_each (fun item => new_name <- next_name E item ;;
                        Fs.rename (parts item) (parts new_name))
           (map snd ks) w =
  for_each Spec.run_step (map (Spec.step_of E) ks) w.
Proof.
  revert w. induction ks as [|[z item] r IH]; intros w H; [reflexivity|].
  cbn [map for_each snd]. apply bind_eq.
  - unfold bind. destruct (H (z, item) (or_introl eq_refl)) as [Hm Hp].
    now rewrite (next_name_spec E item z w Hm Hp).
  - intros _ w1. apply IH. intros kp Hkp. apply H. now right.
Qed.

Lemma keys_are_markers (l : list Path) (lt : Z * Path -> Z * Path -> bool) kp :
  (forall p, In p l -> Spec.marker_value p <> None) ->
  In kp (PySort.sort lt (map (fun p => (Spec.marker_or_zero p, p)) l)) ->
  Spec.marker_value (snd kp) = Some (fst kp) /\ In (snd kp) l.
Proof.
  intros Hm Hin. apply (Permutation_in _ (sort_perm _ _)) in Hin.
  apply in_map_iff in Hin as (p & <- & Hp). cbn [fst snd]. split; [|exact Hp].
  specialize (Hm p Hp). unfold Spec.marker_or_zero.
  now destruct (Spec.marker_value p).
Qed.

Lemma can_shift_marker (p : Path) :
  Spec.can_shift p -> Spec.marker_value p <> None.
Proof. intros (z & Hz & _). congruence. Qed.

Lemma keys_can_shift (l : list Path) (lt : Z * Path -> Z * Path -> bool) kp :
  (forall p, In p l -> Spec.can_shift p) ->
  In kp (PySort.sort lt (map (fun p => (Spec.marker_or_zero p, p)) l)) ->
  Spec.marker_value (snd kp) = Some (fst kp) /\
  PyInt.printable (fst kp + 1) = true /\ In (snd kp) l.
Proof.
  intros Hc Hin.
  destruct (keys_are_markers l lt kp
              (fun p Hp => can_shift_marker p (Hc p Hp)) Hin) as [Hm Hp].
  repeat split; [exact Hm | | exact Hp].
  destruct (Hc _ Hp) as (z & Hz & Hpr). rewrite Hm in Hz. now injection Hz as ->.
Qed.

(** A sequential rotation is the run of its plan. *)
Lemma rotation_unfold E kw w archive :
  get_sequential kw = true ->
  kw_archive kw = Some archive ->
  Spec.pattern_ok archive ->
  (forall p, In p (Spec.matching w archive) -> Spec.can_shift p) ->
  move_previous_archives E kw w =
  for_each Spec.run_step (Spec.rotation_plan E (Spec.matching w archive)) w.
Proof.
  intros Hseq Ha Hok Hc. unfold move_previous_archives. rewrite Hseq. cbn [negb].
  destruct (gather_spec kw w archive Ha Hok) as (pattern & Hg).
  unfold bind at 1. rewrite Hg. cbn [snd].
  destruct (Spec.matching w archive) as [|x r] eqn:Hl; [reflexivity|].
  unfold bind at 1.
  rewrite (keyed_ok _ _ (fun p Hp => can_shift_marker p (Hc p Hp))).
  unfold Spec.rotation_plan. apply for_each_steps.
  intros kp Hkp.
  destruct (keys_can_shift (x :: r) (fun a b => key_lt b a) kp Hc Hkp)
    as (Hm & Hp & _).
  now split.
Qed.

(** Every step issues one rename, so the calls of a rotation are the
    renames of a prefix of its plan, all of it when no rename fails. *)
Lemma run_plan_calls (plan : list Spec.step) (w : world) :
  exists j,
    calls (snd (for_each Spec.run_step plan w)) =
      rev (map Spec.rename_call (firstn j plan)) ++ calls w /\
    (forall u, fst (for_each Spec.run_step plan w) = Return u ->
               j = List.length plan).
Proof.
  revert w. induction plan as [|s r IH]; intros w.
  - exists 0. split; [reflexivity | auto].
  - cbn [for_each]. unfold bind.
    assert (Hc : calls (snd (Spec.run_step s w)) = Spec.rename_call s :: calls w).
    { unfold Spec.run_step, Fs.rename, Spec.rename_call.
      repeat match goal with
             | |- context [match ?x with _ => _ end] => destruct x
             end; reflexivity. }
    destruct (Spec.run_step s w) as [[u|e] w1] eqn:Hs; cbn [snd] in Hc.
    + destruct (IH w1) as (j & Hj & Hlen). exists (S j). split.
      * rewrite Hj, Hc. cbn [firstn map rev]. now rewrite <- app_assoc.
      * intros u' Hu. cbn [List.length]. f_equal. now apply (Hlen u').
    + exists 1. split; [cbn [snd firstn map rev app]; now rewrite Hc | discriminate].
Qed.

Lemma sorted_strict {A} (key : A -> Z) (l : list A) :
  StronglySorted (fun a b => (key b <= key a)%Z) l ->
  NoDup (map key l) ->
  StronglySorted (fun a b => (key b < key a)%Z) l.
Proof.
  induction 1 as [|x r Hr IH Hx]; intros Hnd; constructor.
  - apply IH. now inversion Hnd.
  - inversion Hnd as [|? ? Hnx _]; subst.
    rewrite Forall_forall in *. intros y Hy.
    assert (key y <> key x) by (intros He; apply Hnx; rewrite <- He; now apply in_map).
    specialize (Hx y Hy). lia.
Qed.

Lemma distinct_markers (l : list Path) :
  (forall p, In p l -> Spec.marker_value p <> None) ->
  NoDup (map Spec.marker_value l) -> NoDup (map Spec.marker_or_zero l).
Proof.
  intros Hm Hnd. apply (NoDup_map_inv Some). rewrite map_map.
  erewrite map_ext_in; [exact Hnd|].
  intros p Hp. cbv beta. specialize (Hm p Hp). unfold Spec.marker_or_zero.
  now destruct (Spec.marker_value p).
Qed.

(** The rotation of the archives 1, 2 and 10: the renames as they are
    issued, the latest first, and the directory afterwards. *)
Example rotation_of_1_2_10 :
  move_previous_archives Sample.E0 (Sample.kw_with 10 true "test.txt.1.tgz")
    Sample.w_seq =
  (Return tt,
   {| fs := [(["tmp"], Dir); (["tmp"; "test.txt"], File 5);
             (["tmp"; "test.txt.2.tgz"], File 1);
             (["tmp"; "test.txt.11.tgz"], File 10);
             (["tmp"; "test.txt.3.tgz"], File 2)];
      calls := [SysRename ["tmp"; "test.txt.1.tgz"] ["tmp"; "test.txt.2.tgz"];
                SysRename ["tmp"; "test.txt.2.tgz"] ["tmp"; "test.txt.3.tgz"];
                SysRename ["tmp"; "test.txt.10.tgz"] ["tmp"; "test.txt.11.tgz"]] |}).
Proof. vm_compute. reflexivity. Qed.

(** The sequential test of the repository: after eleven backups of
    [test.txt] with the default retention, the directory holds the file and
    the archives 1 to 10. *)
Example eleven_sequential_backups :
  let '(r, w) := Sample.repeat_call Sample.E0 11 Sample.kw_sequential Sample.w_fresh in
  r = Return tt /\
  map (fun e => Pathlib.name (mkPath true (fst e))) (fs w) =
    ["tmp"; "test.txt"; "test.txt.10.tgz"; "test.txt.9.tgz"; "test.txt.8.tgz";
     "test.txt.7.tgz"; "test.txt.6.tgz"; "test.txt.5.tgz"; "test.txt.4.tgz";
     "test.txt.3.tgz"; "test.txt.2.tgz"; "test.txt.1.tgz"].
Proof. vm_compute. split; reflexivity. Qed.

End RotationFacts.

(** ** Resolved paths *)

Module ResolveFacts.
Import BackerUpper RunFacts NameFacts.

Lemma removelast_no_dotdot (ps : list string) :
  Spec.no_dotdot ps -> Spec.no_dotdot (removelast ps).
Proof.
  unfold Spec.no_dotdot. induction ps as [|c r IH]; intros H; [constructor|].
  inversion H; subst. destruct r as [|d r]; [constructor|].
  cbn [removelast]. constructor; [assumption | now apply IH].
Qed.

Lemma collapse_from (ps acc : list string) :
  Spec.no_dotdot acc ->
  Spec.no_dotdot
    (fold_left (fun acc c => if (c =? "..")%string then removelast acc else acc ++ [c])
               ps acc).
Proof.
  revert acc. induction ps as [|c r IH]; intros acc H; [exact H|].
  cbn [fold_left]. apply IH. destruct (String.eqb_spec c "..").
  - now apply removelast_no_dotdot.
  - apply Forall_app. split; [exact H | now repeat constructor].
Qed.

(** Folding leaves no ".." behind. *)
Lemma collapse_no_dotdot (ps : list string) : Spec.no_dotdot (Pathlib.collapse ps).
Proof. apply collapse_from. constructor. Qed.

Lemma collapse_keep (ps acc : list string) :
  Spec.no_dotdot ps ->
  fold_left (fun acc c => if (c =? "..")%string then removelast acc else acc ++ [c])
            ps acc = acc ++ ps.
Proof.
  revert acc. induction ps as [|c r IH]; intros acc H; [now rewrite app_nil_r|].
  inversion H; subst. cbn [fold_left].
  destruct (String.eqb_spec c ".."); [contradiction|].
  rewrite IH by assumption. now rewrite <- app_assoc.
Qed.

(** A path without ".." folds to itself. *)
Lemma collapse_fixed (ps : list string) :
  Spec.no_dotdot ps -> Pathlib.collapse ps = ps.
Proof. intros H. unfold Pathlib.collapse. now rewrite collapse_keep. Qed.

Lemma resolve_fixed E (p : Path) :
  anchored p = true -> Spec.no_dotdot (parts p) -> resolve E p = p.
Proof.
  intros Ha Hp. unfold resolve. rewrite Ha, (collapse_fixed _ Hp).
  destruct p. simpl in *. now subst.
Qed.

Lemma found_nil (f : filesystem) : Spec.found f [].
Proof.
  split; [constructor|]. intros pre c post H. now destruct pre.
Qed.

Lemma found_removelast (f : filesystem) (path : list string) :
  Spec.found f path -> Spec.found f (removelast path).
Proof.
  intros [Hd Hf]. split; [now apply removelast_no_dotdot|].
  intros pre c post H.
  destruct path as [|x path'] using rev_ind; [now destruct pre|].
  rewrite removelast_last in H. apply (Hf pre c (post ++ [x])).
  now rewrite H, <- app_assoc.
Qed.

Lemma found_snoc (f : filesystem) (path : list string) (c : string) :
  Spec.found f path -> c <> ".."%string -> Fs.lstat f path c = None ->
  Spec.found f (path ++ [c]).
Proof.
  intros [Hd Hf] Hc Hl. split.
  - apply Forall_app. split; [exact Hd | now repeat constructor].
  - intros pre x post H.
    destruct post as [|y post'] using rev_ind.
    + apply app_inj_tail in H as [-> ->]. exact Hl.
    + clear IHpost'. rewrite app_comm_cons, app_assoc in H.
      apply app_inj_tail in H as [-> _]. now apply (Hf pre x post').
Qed.

(** A strict resolution that returns has found every component of the
    path that it returns. *)
Lemma realpath_inv (f : filesystem) (rest path q : list string) :
  Fs.realpath f path rest = inl q -> Spec.found f path -> Spec.found f q.
Proof.
  revert path. induction rest as [|c r IH]; intros path H Hp.
  - now injection H as <-.
  - cbn [Fs.realpath] in H. destruct (String.eqb_spec c "..") as [->|Hc].
    + apply (IH _ H). now apply found_removelast.
    + destruct (Fs.lstat f path c) eqn:Hl; [discriminate|].
      apply (IH _ H). now apply found_snoc.
Qed.

(** A path whose components are all found resolves to itself. *)
Lemma realpath_found (f : filesystem) (rest path : list string) :
  Spec.found f (path ++ rest) -> Fs.realpath f path rest = inl (path ++ rest).
Proof.
  revert path. induction rest as [|c r IH]; intros path H.
  - now rewrite app_nil_r.
  - cbn [Fs.realpath]. destruct H as [Hd Hf].
    assert (Hc : c <> ".."%string).
    { apply Forall_app in Hd as [_ Hd]. now inversion Hd. }
    apply String.eqb_neq in Hc. rewrite Hc.
    rewrite (Hf path c r eq_refl).
    replace (path ++ c :: r) with ((path ++ [c]) ++ r) by now rewrite <- app_assoc.
    apply IH. split; rewrite <- app_assoc; assumption.
Qed.

Lemma found_exists (f : filesystem) (path : list string) :
  Spec.found f path -> Fs.exists_ f path = true.
Proof.
  intros [_ Hf]. destruct path as [|x path'] using rev_ind; [reflexivity|].
  clear IHpath'. specialize (Hf path' x [] eq_refl). unfold Fs.lstat in Hf.
  unfold Fs.exists_.
  destruct (Fs.lookup f (path' ++ [x])) as [n|] eqn:Hl.
  - now destruct (path' ++ [x]).
  - destruct (Fs.lookup f path') as [[|]|]; discriminate.
Qed.

(** What [resolve_source] returns when it returns. *)
Lemma resolve_source_found E kw w src w' :
  resolve_source E kw w = (Return src, w') ->
  w' = w /\ anchored src = true /\ Spec.found (fs w) (parts src).
Proof.
  intros H. pose proof (resolve_source_pure E kw w) as Hw. rewrite H in Hw.
  cbn [snd] in Hw. subst w'. split; [reflexivity|].
  unfold resolve_source, bind in H.
  destruct (to_path _ w) as [[p|e] w1] eqn:Hp; [|discriminate].
  pose proof (reads_only_to_path
                (match kw_source kw with Some a => a | None => ArgNone end) w) as Hw1.
  rewrite Hp in Hw1. cbn [snd] in Hw1. subst w1.
  destruct (expanduser E p w) as [[p'|e] w2] eqn:Hp'; [|discriminate].
  pose proof (reads_only_expanduser E p w) as Hw2.
  rewrite Hp' in Hw2. cbn [snd] in Hw2. subst w2.
  unfold resolve_strict in H.
  destruct (Fs.realpath (fs w) [] _) as [q|e] eqn:Hq; [|discriminate].
  injection H as <-. split; [reflexivity|]. cbn [parts].
  apply (realpath_inv _ _ _ _ Hq), found_nil.
Qed.

Lemma resolve_source_inv E kw w src w' :
  resolve_source E kw w = (Return src, w') ->
  w' = w /\ anchored src = true /\ Spec.no_dotdot (parts src) /\
  Fs.exists_ (fs w) (parts src) = true.
Proof.
  intros H. apply resolve_source_found in H as (-> & Ha & Hf).
  repeat split; [exact Ha | exact (proj1 Hf) | now apply found_exists].
Qed.

(** X1.  A resolved source is an absolute path without "..", it exists, and
    it is a fixed point: resolving it again, as a path or as its key in the
    keyword arguments, gives it back. *)
Theorem resolve_source_stable E kw w src :
  resolve_source E kw w = (Return src, w) ->
  anchored src = true /\ Spec.no_dotdot (parts src) /\
  Fs.exists_ (fs w) (parts src) = true /\
  resolve E src = src /\
  resolve_source E (update_source kw src) w = (Return src, w).
Proof.
  intros H. pose proof (resolve_source_found _ _ _ _ _ H) as (_ & _ & Hf).
  apply resolve_source_inv in H as (_ & Ha & Hp & Hex).
  pose proof (resolve_fixed E src Ha Hp) as Hfix.
  repeat split; auto.
  unfold resolve_source, update_source, bind. cbn [kw_source to_path ret].
  unfold expanduser. rewrite Ha. unfold ret, resolve_strict. rewrite Ha.
  rewrite (realpath_found (fs w) (parts src) [] Hf). cbn [app].
  destruct src. cbn [anchored parts] in *. now subst.
Qed.

Lemma resolve_source_stable_witness :
  let src := mkPath true ["tmp"; "test.txt"] in
  anchored src = true /\ Spec.no_dotdot (parts src) /\
  Fs.exists_ (fs Sample.w_fresh) (parts src) = true /\
  resolve Sample.E0 src = src /\
  resolve_source Sample.E0 (update_source Sample.kw_default src) Sample.w_fresh =
    (Return src, Sample.w_fresh).
Proof.
  intros src.
  apply (resolve_source_stable Sample.E0 Sample.kw_default Sample.w_fresh src).
  vm_compute. reflexivity.
Defined.

(** X2.  In a run whose keyword arguments hold no destination key, the
    archive is a sibling of the resolved source: it has the parent of the
    source, and its name is that of the source followed by the marker and
    the extension. *)
Theorem default_destination_is_sibling E kw w src :
  resolve_source E kw w = (Return src, w) ->
  kw_destination kw = None ->
  exists archive,
    resolve_destination E (update_source kw src) w = (Return archive, w) /\
    Pathlib.parent archive = Pathlib.parent src /\
    Pathlib.name archive =
      (Pathlib.name src ++ "." ++
       (if get_sequential kw then "1" else Datetime.strftime_marker (now E)) ++ "." ++
       (if get_uncompressed kw then "tar" else "tgz"))%string.
Proof.
  intros Hs Hd. apply resolve_source_inv in Hs as (_ & Ha & Hp & _).
  eexists. split.
  { apply resolve_destination_absent; [reflexivity | exact Hd]. }
  assert (Hx : forall m, (Pathlib.name src ++ "." ++ m ++ "." ++
                (if get_uncompressed kw then "tar" else "tgz"))%string <> "..").
  { intros m. apply archive_name_not_dotdot.
    destruct (get_uncompressed kw); discriminate. }
  split.
  - unfold Pathlib.parent, resolve, Pathlib.child. cbn [anchored parts].
    rewrite Ha.
    rewrite collapse_snoc, removelast_last by apply Hx.
    now rewrite (collapse_fixed _ (removelast_no_dotdot _ Hp)).
  - rewrite name_resolve_child by apply Hx.
    change (get_sequential (update_source kw src)) with (get_sequential kw).
    change (get_uncompressed (update_source kw src)) with (get_uncompressed kw).
    destruct (get_sequential kw); reflexivity.
Qed.

Lemma default_destination_is_sibling_witness :
  let src := mkPath true ["tmp"; "test.txt"] in
  exists archive,
    resolve_destination Sample.E0 (update_source Sample.kw_sequential src)
      Sample.w_fresh = (Return archive, Sample.w_fresh) /\
    Pathlib.parent archive = Pathlib.parent src /\
    Pathlib.name archive =
      (Pathlib.name src ++ "." ++
       (if get_sequential Sample.kw_sequential then "1"
        else Datetime.strftime_marker (now Sample.E0)) ++ "." ++
       (if get_uncompressed Sample.kw_sequential then "tar" else "tgz"))%string.
Proof.
  intros src.
  apply (default_destination_is_sibling Sample.E0 Sample.kw_sequential
           Sample.w_fresh src).
  - vm_compute. reflexivity.
  - reflexivity.
Defined.

(** X3.  A call without a usable source never gets to the file system: with
    no arguments at all it raises [ValueError], and with arguments but no
    source key, or a source that is [None], it raises [TypeError]; either
    way the world is unchanged. *)
Theorem missing_source_key E nargs kw w :
  kw_source kw = None \/ kw_source kw = Some ArgNone ->
  call E nargs kw w =
  (Raise (if (nargs =? 0)%nat && kw_is_empty kw
          then ValueError "No arguments passed" else TypeError), w).
Proof.
  intros H. unfold call.
  destruct ((nargs =? 0)%nat && kw_is_empty kw); [reflexivity|].
  unfold bind at 1. unfold resolve_source, bind.
  destruct H as [-> | ->]; reflexivity.
Qed.

Lemma missing_source_key_witness :
  call Sample.E0 1 (mkKwargs None None None None None None false) Sample.w_fresh =
  (Raise TypeError, Sample.w_fresh) /\
  call Sample.E0 0 (mkKwargs None None None None None None false) Sample.w_fresh =
  (Raise (ValueError "No arguments passed"), Sample.w_fresh).
Proof.
  split.
  - apply (missing_source_key Sample.E0 1
             (mkKwargs None None None None None None false) Sample.w_fresh).
    now left.
  - apply (missing_source_key Sample.E0 0
             (mkKwargs None None None None None None false) Sample.w_fresh).
    now left.
Defined.

End ResolveFacts.

(** ** Name patterns *)

Module PatternFacts.
Import BackerUpper StrFacts PyIntFacts NameFacts FsFacts MarkerFacts.
Local Open Scope string_scope.

Lemma field_all_digits (w : nat) (n : N) :
  Str.all Str.is_digit (Datetime.field w n) = true.
Proof.
  unfold Datetime.field, Datetime.zfill.
  rewrite all_append, str_N_all_digits, andb_true_r.
  induction (w - String.length (PyInt.str_N n)) as [|k IH]; simpl; auto.
Qed.

Lemma field_marker_chars (w : nat) (n : N) :
  Str.all Spec.marker_char (Datetime.field w n) = true.
Proof.
  apply (all_impl Str.is_digit); [|apply field_all_digits].
  intros c Hc. unfold Spec.marker_char. now rewrite Hc.
Qed.

(** A time marker is made of digits, "-", "T" and "Z", whatever the
    clock shows. *)
Lemma strftime_marker_chars (t : Datetime.datetime) :
  Str.all Spec.marker_char (Datetime.strftime_marker t) = true.
Proof.
  assert (Hy : Str.all Spec.marker_char (PyInt.str_N (Datetime.year t)) = true).
  { apply (all_impl Str.is_digit); [|apply str_N_all_digits].
    intros c Hc. unfold Spec.marker_char. now rewrite Hc. }
  unfold Datetime.strftime_marker.
  repeat (rewrite all_append; rewrite ?field_marker_chars, ?Hy; cbn [andb]).
  reflexivity.
Qed.

Lemma marker_char_facts (c : ascii) :
  Spec.marker_char c = true ->
  negb (c =? ".")%char = true /\ Str.is_space c = false.
Proof.
  unfold Spec.marker_char. intros H.
  apply orb_true_iff in H as [H|H]; [apply orb_true_iff in H as [H|H];
    [apply orb_true_iff in H as [H|H]|]|].
  - destruct (is_digit_facts c H) as (Hs & Hd & _). now split.
  - apply Ascii.eqb_eq in H as ->. now split.
  - apply Ascii.eqb_eq in H as ->. now split.
  - apply Ascii.eqb_eq in H as ->. now split.
Qed.

Lemma strftime_marker_no_dot (t : Datetime.datetime) :
  Str.no_dot (Datetime.strftime_marker t) = true.
Proof.
  apply (all_impl Spec.marker_char); [|apply strftime_marker_chars].
  intros c Hc. now destruct (marker_char_facts c Hc).
Qed.

(** Splitting an archive name gives back the three parts it was made of,
    dots in the first part or not. *)
Lemma rsplit2_archive (b m e : string) :
  Str.no_dot m = true -> Str.no_dot e = true ->
  Str.rsplit2 (b ++ "." ++ m ++ "." ++ e) = [b; m; e].
Proof.
  intros Hm He. unfold Str.rsplit2.
  replace (b ++ "." ++ m ++ "." ++ e) with ((b ++ String "." m) ++ String "." e)
    by (rewrite append_assoc; reflexivity).
  now rewrite (rsplit1_append _ e He), (rsplit1_append b m Hm).
Qed.

Lemma ext_no_dot (kw : kwargs) :
  Str.no_dot (if get_uncompressed kw then "tar" else "tgz") = true.
Proof. now destruct (get_uncompressed kw). Qed.

Lemma marker_no_dot E (kw : kwargs) :
  Str.no_dot (if get_sequential kw then PyInt.py_str 1
              else Datetime.strftime_marker (now E)) = true.
Proof.
  destruct (get_sequential kw); [reflexivity | apply strftime_marker_no_dot].
Qed.

Lemma has_stars_append (b r : string) (c : ascii) :
  c <> "*"%char ->
  Str.has_stars (b ++ String c r) = Str.has_stars b || Str.has_stars (String c r).
Proof.
  intros Hc. induction b as [|x b IH]; [reflexivity|].
  change (String x b ++ String c r) with (String x (b ++ String c r)).
  destruct b as [|y b'].
  - change ("" ++ String c r) with (String c r).
    change (Str.has_stars (String x (String c r)))
      with (((x =? "*") && (c =? "*"))%char || Str.has_stars (String c r)).
    apply Ascii.eqb_neq in Hc. now rewrite Hc, andb_false_r.
  - change (String y b' ++ String c r) with (String y (b' ++ String c r)) in *.
    change (Str.has_stars (String x (String y (b' ++ String c r))))
      with (((x =? "*") && (y =? "*"))%char ||
            Str.has_stars (String y (b' ++ String c r))).
    rewrite IH.
    change (Str.has_stars (String x (String y b')))
      with (((x =? "*") && (y =? "*"))%char || Str.has_stars (String y b')).
    now rewrite orb_assoc.
Qed.

(** The pattern of a run holds "**" exactly when the name of the source
    does. *)
Lemma run_pattern_stars (b : string) (kw : kwargs) :
  Str.has_stars (b ++ ".*." ++ (if get_uncompressed kw then "tar" else "tgz")) =
  Str.has_stars b.
Proof.
  change (b ++ ".*." ++ ?e) with (b ++ String "." ("*." ++ e)).
  rewrite has_stars_append by discriminate.
  destruct (get_uncompressed kw); now rewrite orb_false_r.
Qed.

(** What [resolve_destination] returns has the pattern of the run. *)
Lemma run_pattern_of E kw w archive w' :
  resolve_destination E kw w = (Return archive, w') ->
  exists src,
    kw_source kw = Some (ArgPath src) /\
    Spec.pattern_of archive =
      Pathlib.name src ++ ".*." ++ (if get_uncompressed kw then "tar" else "tgz").
Proof.
  intros H. apply resolve_destination_inv in H as (src & dest & Hsrc & _ & ->).
  exists src. split; [exact Hsrc|]. unfold Spec.pattern_of.
  rewrite name_resolve_child
    by (apply archive_name_not_dotdot; destruct (get_uncompressed kw); discriminate).
  rewrite (rsplit2_archive _ _ _ (marker_no_dot E kw) (ext_no_dot kw)).
  reflexivity.
Qed.

(** X4.  The pattern with which a run looks for its archives is the name
    of the source, a dot, a star, a dot and the extension, in either scheme
    and also when the name of the source holds dots.  [Path.glob] refuses
    it when the name of the source holds "**"; otherwise the archives that
    are gathered are those that match it. *)
Theorem run_pattern E kw w archive w' :
  resolve_destination E kw w = (Return archive, w') ->
  exists src,
    kw_source kw = Some (ArgPath src) /\
    forall w1,
      gather_matching_archives (update_archive kw archive) w1 =
      if Str.has_stars (Pathlib.name src)
      then (Raise (ValueError invalid_pattern), w1)
      else (Return (Pathlib.name src ++ ".*." ++
                    (if get_uncompressed kw then "tar" else "tgz"),
                    Spec.matching w1 archive), w1).
Proof.
  intros H. destruct (run_pattern_of E kw w archive w' H) as (src & Hsrc & Hpat).
  exists src. split; [exact Hsrc|]. intros w1.
  rewrite (gather_cases (update_archive kw archive) w1 archive eq_refl).
  now rewrite Hpat, run_pattern_stars.
Qed.

Lemma run_pattern_witness :
  exists src,
    kw_source (update_source Sample.kw_default (mkPath true ["tmp"; "test.txt"])) =
      Some (ArgPath src) /\
    forall w1,
      gather_matching_archives
        (update_archive
           (update_source Sample.kw_default (mkPath true ["tmp"; "test.txt"]))
           (mkPath true ["tmp"; "test.txt.2024-11-03T09-43-23-001234Z.tgz"])) w1 =
      if Str.has_stars (Pathlib.name src)
      then (Raise (ValueError invalid_pattern), w1)
      else (Return (Pathlib.name src ++ ".*." ++
                    (if get_uncompressed
                          (update_source Sample.kw_default
                             (mkPath true ["tmp"; "test.txt"]))
                     then "tar" else "tgz"),
                    Spec.matching w1
                      (mkPath true ["tmp"; "test.txt.2024-11-03T09-43-23-001234Z.tgz"])),
            w1).
Proof.
  apply (run_pattern Sample.E0
           (update_source Sample.kw_default (mkPath true ["tmp"; "test.txt"]))
           Sample.w_fresh _ Sample.w_fresh).
  vm_compute. reflexivity.
Defined.

End PatternFacts.

(** ** Matching names against the pattern of a run *)

Module MatchFacts.
Import BackerUpper StrFacts PyIntFacts NameFacts FsFacts MarkerFacts PatternFacts.
Import Fnmatch.
Local Open Scope string_scope.

Lemma lookup_some_in (f : filesystem) (p : list string) :
  Fs.lookup f p <> None -> In p (map fst f).
Proof.
  intros H. destruct (Fs.lookup f p) as [n|] eqn:Hl; [|congruence].
  apply lookup_in in Hl. apply in_map_iff. now exists (p, n).
Qed.

Lemma tokenize_plain (b rest : string) (f : nat) :
  Spec.plain b = true ->
  tokenize (String.length b + f) (b ++ rest) = (Spec.lits b ++ tokenize f rest)%list.
Proof.
  unfold Spec.plain. induction b as [|c b IH]; intros H; [reflexivity|].
  simpl in H. apply andb_true_iff in H as [Hc Hb].
  change (String.length (String c b) + f) with (S (String.length b + f)).
  change (String c b ++ rest) with (String c (b ++ rest)).
  cbn [Spec.lits list_ascii_of_string map app]. fold (Spec.lits b).
  rewrite <- (IH Hb).
  destruct c as [[] [] [] [] [] [] [] []]; try discriminate Hc; reflexivity.
Qed.

Lemma match_lits (b s : string) (ts : list token) :
  match_tokens (Spec.lits b ++ ts)%list (b ++ s) = match_tokens ts s.
Proof.
  induction b as [|c b IH]; [reflexivity|].
  cbn [Spec.lits list_ascii_of_string map app match_tokens append].
  now rewrite Ascii.eqb_refl.
Qed.

Lemma match_lit (c : ascii) (s : string) (ts : list token) :
  match_tokens (TLit c :: ts) (String c s) = match_tokens ts s.
Proof. cbn [match_tokens]. now rewrite Ascii.eqb_refl. Qed.

Lemma match_star (m s : string) (ts : list token) :
  match_tokens ts s = true -> match_tokens (TStar :: ts) (m ++ s) = true.
Proof.
  intros H. induction m as [|c m IH].
  - cbn [append match_tokens]. destruct s; now rewrite H.
  - cbn [append]. cbn [match_tokens] in *.
    apply orb_true_iff. right. exact IH.
Qed.

(** The pattern of a plain name matches every name made of it, a marker
    and the extension. *)
Lemma pattern_matches (b m e : string) :
  Spec.plain b = true -> Spec.plain e = true ->
  fnmatch (b ++ ".*." ++ e) (b ++ "." ++ m ++ "." ++ e) = true.
Proof.
  intros Hb He. unfold fnmatch.
  replace (S (String.length (b ++ ".*." ++ e)))
    with (String.length b + S (S (S (String.length e + 1))))
    by (rewrite !length_append; simpl; lia).
  rewrite (tokenize_plain b _ _ Hb).
  change (tokenize (S (S (S (String.length e + 1)))) (".*." ++ e))
    with (TLit "."%char :: TStar :: TLit "."%char :: tokenize (String.length e + 1) e).
  rewrite <- (append_nil_r e) at 2. rewrite (tokenize_plain e "" 1 He).
  cbn [tokenize]. rewrite app_nil_r, match_lits.
  change ("." ++ m ++ "." ++ e) with (String "." (m ++ String "." e)).
  rewrite match_lit. apply match_star. rewrite match_lit.
  rewrite <- (append_nil_r e) at 2. rewrite <- (app_nil_r (Spec.lits e)).
  now rewrite match_lits.
Qed.

Lemma glob_intro (f : filesystem) (d : list string) (pat : string) (q : list string) :
  In q (map fst f) -> q <> [] -> removelast q = d ->
  fnmatch pat (last q "") = true -> In q (Fs.glob f d pat).
Proof.
  intros Hin Hq Hd Hm. unfold Fs.glob.
  apply in_map_iff in Hin as ([q' n] & Hq' & Hin). cbn [fst] in Hq'. subst q'.
  apply in_map_iff. exists (q, n). split; [reflexivity|].
  apply filter_In. split; [exact Hin|]. cbn [fst].
  destruct q as [|c q]; [congruence|].
  rewrite Hd, path_eqb_refl, Hm. reflexivity.
Qed.

Lemma plain_no_stars (b : string) : Spec.plain b = true -> Str.has_stars b = false.
Proof.
  unfold Spec.plain. induction b as [|c b IH]; [reflexivity|].
  intros H. simpl in H. apply andb_true_iff in H as [Hc Hb].
  destruct b as [|d b']; [reflexivity|].
  change (Str.has_stars (String c (String d b')))
    with (((c =? "*") && (d =? "*"))%char || Str.has_stars (String d b')).
  rewrite (IH Hb), orb_false_r.
  apply negb_true_iff in Hc. apply orb_false_iff in Hc as [Hc _].
  apply orb_false_iff in Hc as [Hc _]. now rewrite Hc.
Qed.

Lemma pattern_tokens (b e : string) :
  Spec.plain b = true -> Spec.plain e = true ->
  tokenize (S (String.length (b ++ ".*." ++ e))) (b ++ ".*." ++ e) =
  (Spec.lits b ++ TLit "." :: TStar :: TLit "." :: Spec.lits e)%list.
Proof.
  intros Hb He.
  replace (S (String.length (b ++ ".*." ++ e)))
    with (String.length b + S (S (S (String.length e + 1))))
    by (rewrite !length_append; simpl; lia).
  rewrite (tokenize_plain b _ _ Hb).
  change (tokenize (S (S (S (String.length e + 1)))) (".*." ++ e))
    with (TLit "."%char :: TStar :: TLit "."%char :: tokenize (String.length e + 1) e).
  rewrite <- (append_nil_r e) at 2. rewrite (tokenize_plain e "" 1 He).
  cbn [tokenize]. now rewrite app_nil_r.
Qed.

Lemma match_lits_inv (b s : string) (ts : list token) :
  match_tokens (Spec.lits b ++ ts)%list s = true ->
  exists r, s = b ++ r /\ match_tokens ts r = true.
Proof.
  revert s. induction b as [|c b IH]; intros s H; [now exists s|].
  cbn [Spec.lits list_ascii_of_string map app match_tokens] in H.
  destruct s as [|d s]; [discriminate|].
  apply andb_true_iff in H as [Hc H]. apply Ascii.eqb_eq in Hc as <-.
  destruct (IH s H) as (r & -> & Hr). now exists r.
Qed.

Lemma match_lit_inv (c : ascii) (ts : list token) (s : string) :
  match_tokens (TLit c :: ts) s = true ->
  exists r, s = String c r /\ match_tokens ts r = true.
Proof.
  destruct s as [|d r]; [discriminate|]. cbn [match_tokens].
  intros H. apply andb_true_iff in H as [Hc H]. apply Ascii.eqb_eq in Hc as <-.
  now exists r.
Qed.

Lemma match_star_inv (ts : list token) (s : string) :
  match_tokens (TStar :: ts) s = true ->
  exists x r, s = x ++ r /\ match_tokens ts r = true.
Proof.
  induction s as [|c s IH]; intros H.
  - cbn [match_tokens] in H. rewrite orb_false_r in H. now exists "", "".
  - cbn [match_tokens] in H. apply orb_true_iff in H as [H|H].
    + now exists "", (String c s).
    + destruct (IH H) as (x & r & -> & Hr). now exists (String c x), r.
Qed.

(** A name that the pattern of a plain name matches is that name, a dot,
    some text, a dot and the extension. *)
Lemma pattern_inv (b e name : string) :
  Spec.plain b = true -> Spec.plain e = true ->
  fnmatch (b ++ ".*." ++ e) name = true ->
  exists x, name = b ++ "." ++ x ++ "." ++ e.
Proof.
  intros Hb He H. unfold fnmatch in H. rewrite (pattern_tokens b e Hb He) in H.
  apply match_lits_inv in H as (r1 & -> & H).
  apply match_lit_inv in H as (r2 & -> & H).
  apply match_star_inv in H as (x & r3 & -> & H).
  apply match_lit_inv in H as (r4 & -> & H).
  rewrite <- (app_nil_r (Spec.lits e)) in H.
  apply match_lits_inv in H as (r5 & -> & H).
  destruct r5; [|discriminate]. exists x. now rewrite append_nil_r.
Qed.

(** Putting another marker into such a name gives a name of the same
    shape. *)
Lemma shifted_name (b e x t stem m : string) (rest : list string) :
  Str.no_dot e = true ->
  Str.rsplit2 (b ++ "." ++ x ++ "." ++ e) = stem :: m :: rest ->
  exists x', Str.join_dot (stem :: t :: rest) = b ++ "." ++ x' ++ "." ++ e.
Proof.
  intros He. unfold Str.rsplit2.
  replace (b ++ "." ++ x ++ "." ++ e) with ((b ++ String "." x) ++ String "." e)
    by (rewrite append_assoc; reflexivity).
  rewrite (rsplit1_append _ e He).
  destruct (Str.rsplit1 x) as [[x1 x2]|] eqn:Hx.
  - apply rsplit1_inv in Hx as [-> Hx2].
    replace (b ++ String "." (x1 ++ String "." x2))
      with ((b ++ String "." x1) ++ String "." x2)
      by (rewrite append_assoc; reflexivity).
    rewrite (rsplit1_append _ x2 Hx2). intros H. injection H as <- _ <-.
    exists (x1 ++ "." ++ t). cbn [Str.join_dot String.concat].
    rewrite !append_assoc. reflexivity.
  - apply rsplit1_none_no_dot in Hx. rewrite (rsplit1_append b x Hx).
    intros H. injection H as <- _ <-. now exists t.
Qed.

Lemma matching_inv (w : world) (archive p : Path) :
  In p (Spec.matching w archive) ->
  In (parts p) (map fst (fs w)) /\
  p = mkPath true (parts (Pathlib.parent archive) ++ [Pathlib.name p]) /\
  fnmatch (Spec.pattern_of archive) (Pathlib.name p) = true.
Proof.
  unfold Spec.matching, Spec.pattern_of. intros H.
  apply in_map_iff in H as (q & <- & H). apply glob_in in H as (Hin & Hq & Hm).
  cbn [parts]. unfold Pathlib.name. cbn [parts].
  split; [exact Hin|]. split; [now rewrite <- Hq | exact Hm].
Qed.

Lemma matching_intro (w : world) (archive : Path) (q : list string) :
  Fs.lookup (fs w) q <> None -> q <> [] ->
  removelast q = parts (Pathlib.parent archive) ->
  fnmatch (Spec.pattern_of archive) (last q "") = true ->
  In q (map parts (Spec.matching w archive)).
Proof.
  intros Hl Hq Hd Hm. unfold Spec.matching. rewrite RetentionFacts.map_parts_mkPath.
  apply glob_intro; auto. now apply lookup_some_in.
Qed.

(** X5.  When the name of the source holds none of the wildcard characters
    of a pattern, the archive of the run is one of the matching archives as
    soon as it exists; so retention counts the archive that was just
    created. *)
Theorem new_archive_is_matched E kw w0 archive w0' :
  resolve_destination E kw w0 = (Return archive, w0') ->
  (forall src, kw_source kw = Some (ArgPath src) ->
               Spec.plain (Pathlib.name src) = true) ->
  forall w, Fs.lookup (fs w) (parts archive) <> None ->
            In archive (Spec.matching w archive).
Proof.
  intros H Hplain w Hex.
  apply resolve_destination_inv in H as (src & dest & Hsrc & _ & Harch).
  specialize (Hplain src Hsrc).
  set (x := Pathlib.name src ++ "." ++
            (if get_sequential kw then PyInt.py_str 1
             else Datetime.strftime_marker (now E)) ++ "." ++
            (if get_uncompressed kw then "tar" else "tgz")) in *.
  assert (Hx : x <> "..").
  { apply archive_name_not_dotdot. destruct (get_uncompressed kw); discriminate. }
  assert (Hparts : exists d, parts archive = (d ++ [x])%list).
  { subst archive. unfold resolve, Pathlib.child. cbn [parts anchored].
    destruct (anchored dest); [|rewrite app_assoc];
      rewrite (collapse_snoc _ _ Hx); eexists; reflexivity. }
  destruct Hparts as (d & Hd).
  assert (Harch' : archive = mkPath true (parts archive)) by (now subst archive).
  unfold Spec.matching. rewrite Harch' at 1. apply in_map.
  apply glob_intro.
  - apply lookup_some_in. exact Hex.
  - rewrite Hd. now destruct d.
  - reflexivity.
  - unfold Pathlib.name. rewrite Hd, last_last. subst x.
    rewrite (rsplit2_archive _ _ _ (marker_no_dot E kw) (ext_no_dot kw)).
    cbn [hd last Str.join_dot String.concat].
    apply pattern_matches; [exact Hplain | now destruct (get_uncompressed kw)].
Qed.

Lemma new_archive_is_matched_witness :
  In (mkPath true ["tmp"; "test.txt.1.tgz"])
     (Spec.matching Sample.w_seq (mkPath true ["tmp"; "test.txt.1.tgz"])).
Proof.
  apply (new_archive_is_matched Sample.E0
           (update_source Sample.kw_sequential (mkPath true ["tmp"; "test.txt"]))
           Sample.w_fresh (mkPath true ["tmp"; "test.txt.1.tgz"]) Sample.w_fresh).
  - vm_compute. reflexivity.
  - intros src Hsrc. injection Hsrc as <-. vm_compute. reflexivity.
  - vm_compute. discriminate.
Defined.

(** No time marker reads as an integer, whatever the clock shows: it
    holds a "T". *)
Lemma strftime_marker_not_int (t : Datetime.datetime) :
  PyInt.py_int (Datetime.strftime_marker t) = None.
Proof.
  destruct (PyInt.py_int (Datetime.strftime_marker t)) as [z|] eqn:H;
    [|reflexivity].
  exfalso. apply py_int_chars in H. unfold Datetime.strftime_marker in H.
  do 2 (rewrite all_append in H; apply andb_true_iff in H as [_ H];
        cbn [append Str.all] in H; apply andb_true_iff in H as [_ H]).
  rewrite all_append in H. apply andb_true_iff in H as [_ H].
  cbn [append Str.all] in H. apply andb_true_iff in H as [H _].
  discriminate H.
Qed.

(** X6.  An archive that carries a time marker has no integer marker, so a
    sequential run cannot rotate a destination that still holds such an
    archive of the same source: rotation raises, and nothing is renamed.
    The error is that of an archive without an integer marker, unless the
    pattern itself is refused. *)
Theorem time_marked_archive_stops_rotation E kw w archive item t b e :
  get_sequential kw = true ->
  kw_archive kw = Some archive ->
  In item (Spec.matching w archive) ->
  Pathlib.name item = b ++ "." ++ Datetime.strftime_marker t ++ "." ++ e ->
  Str.no_dot e = true ->
  Spec.marker_value item = None /\
  exists err,
    move_previous_archives E kw w = (Raise err, w) /\
    (Spec.pattern_ok archive ->
     exists bad, In bad (Spec.matching w archive) /\ Spec.bad_marker_error bad err) /\
    (~ Spec.pattern_ok archive -> err = ValueError invalid_pattern).
Proof.
  intros Hseq Ha Hin Hname He.
  assert (Hm : Spec.marker_value item = None).
  { unfold Spec.marker_value.
    rewrite Hname, (rsplit2_archive _ _ _ (strftime_marker_no_dot t) He).
    cbn [nth_error]. apply strftime_marker_not_int. }
  split; [exact Hm|].
  unfold move_previous_archives. rewrite Hseq. cbn [negb].
  unfold bind at 1. rewrite (gather_cases kw w archive Ha).
  unfold Spec.pattern_ok.
  destruct (Str.has_stars (Spec.pattern_of archive)).
  - exists (ValueError invalid_pattern).
    split; [reflexivity|]. split; [discriminate | reflexivity].
  - destruct (keyed_fail (Spec.matching w archive) w)
      as (err & bad & Hk & Hb & _ & Herr); [now exists item|].
    exists err. split; [|split; [now exists bad | congruence]].
    cbn [snd].
    destruct (Spec.matching w archive) as [|x r] eqn:Hl; [contradiction|].
    unfold bind at 1. now rewrite Hk.
Qed.

Lemma time_marked_archive_stops_rotation_witness :
  let item := mkPath true ["tmp"; "test.txt.2024-11-03T09-43-23-001234Z.tgz"] in
  let archive := mkPath true ["tmp"; "test.txt.1.tgz"] in
  let w := {| fs := [(["tmp"], Dir); (["tmp"; "test.txt"], File 5);
                     (["tmp"; "test.txt.2024-11-03T09-43-23-001234Z.tgz"], File 1)];
              calls := [] |} in
  Spec.marker_value item = None /\
  exists err,
    move_previous_archives Sample.E0 (Sample.kw_with 10 true "test.txt.1.tgz") w =
      (Raise err, w) /\
    (Spec.pattern_ok archive ->
     exists bad, In bad (Spec.matching w archive) /\ Spec.bad_marker_error bad err) /\
    (~ Spec.pattern_ok archive -> err = ValueError invalid_pattern).
Proof.
  intros item archive w.
  apply (time_marked_archive_stops_rotation Sample.E0
           (Sample.kw_with 10 true "test.txt.1.tgz") w archive item
           Sample.clock "test.txt" "tgz").
  - reflexivity.
  - reflexivity.
  - vm_compute. left. reflexivity.
  - vm_compute. reflexivity.
  - reflexivity.
Defined.

End MatchFacts.

(** ** Creating the archive *)

Module CreateFacts.
Import BackerUpper FsFacts RunFacts.

Lemma path_eqb_false (p q : list string) : p <> q -> Fs.path_eqb p q = false.
Proof. intros H. now destruct (path_eqb_spec p q). Qed.

Lemma lookup_replace (f : filesystem) (p : list string) (n : node) (q : list string) :
  Fs.lookup (map (fun e => if Fs.path_eqb (fst e) p then (p, n) else e) f) q =
  if Fs.path_eqb q p then option_map (fun _ => n) (Fs.lookup f p)
  else Fs.lookup f q.
Proof.
  induction f as [|[a m] r IH]; cbn [map Fs.lookup fst].
  - now destruct (Fs.path_eqb q p).
  - destruct (list_eq_dec string_dec a p) as [Hap|Hap].
    + subst a. rewrite !path_eqb_refl. cbn [Fs.lookup].
      destruct (list_eq_dec string_dec q p) as [Hqp|Hqp].
      * subst q. now rewrite !path_eqb_refl.
      * rewrite (path_eqb_false q p Hqp) in *.
        rewrite (path_eqb_false p q) by congruence. exact IH.
    + rewrite (path_eqb_false a p Hap). cbn [Fs.lookup].
      destruct (list_eq_dec string_dec a q) as [Haq|Haq].
      * subst q. rewrite path_eqb_refl. now rewrite (path_eqb_false a p Hap).
      * rewrite (path_eqb_false a q Haq). exact IH.
Qed.

Lemma lookup_snoc (f : filesystem) (p : list string) (n : node) (q : list string) :
  Fs.lookup (f ++ [(p, n)]) q =
  match Fs.lookup f q with
  | Some x => Some x
  | None => if Fs.path_eqb p q then Some n else None
  end.
Proof.
  induction f as [|[a m] r IH]; cbn [app Fs.lookup]; [reflexivity|].
  destruct (Fs.path_eqb a q); [reflexivity | exact IH].
Qed.

(** Opening a path that is no directory, in a directory that exists,
    leaves an empty file there and every other path as it was. *)
Lemma open_write_ok (p : list string) (w : world) :
  Fs.is_dir (fs w) (removelast p) = true ->
  Fs.lookup (fs w) p <> Some Dir ->
  exists w1,
    Fs.open_write p w = (Return tt, w1) /\
    Fs.lookup (fs w1) p = Some (File 0) /\
    (forall q, q <> p -> Fs.lookup (fs w1) q = Fs.lookup (fs w) q) /\
    calls w1 = SysOpenWrite p :: calls w.
Proof.
  intros Hd Hp. unfold Fs.open_write. rewrite Hd. cbn [negb].
  destruct (Fs.lookup (fs w) p) as [[d|]|] eqn:Hl; [|congruence|].
  - eexists. split; [reflexivity|]. cbn [fs calls]. repeat split.
    + now rewrite lookup_replace, path_eqb_refl, Hl.
    + intros q Hq. rewrite lookup_replace.
      destruct (path_eqb_spec q p); [congruence | reflexivity].
  - eexists. split; [reflexivity|]. cbn [fs calls]. repeat split.
    + now rewrite lookup_snoc, Hl, path_eqb_refl.
    + intros q Hq. rewrite lookup_snoc.
      destruct (Fs.lookup (fs w) q); [reflexivity|].
      destruct (path_eqb_spec p q); [congruence | reflexivity].
Qed.

Lemma glob_replace (f : filesystem) (p : list string) (n : node)
    (d : list string) (pat : string) :
  Fs.glob (map (fun e => if Fs.path_eqb (fst e) p then (p, n) else e) f) d pat =
  Fs.glob f d pat.
Proof.
  unfold Fs.glob. induction f as [|[a m] r IH]; [reflexivity|].
  cbn [map filter fst].
  destruct (path_eqb_spec a p) as [->|Hap]; cbn [fst];
    destruct (match _ with [] => false | _ => _ end); cbn [map fst];
    now rewrite IH.
Qed.

Lemma glob_snoc (f : filesystem) (e : list string * node) (d : list string)
    (pat : string) :
  List.length (Fs.glob (f ++ [e]) d pat) <= S (List.length (Fs.glob f d pat)).
Proof.
  unfold Fs.glob. rewrite filter_app, map_app, length_app. cbn [filter].
  destruct (match fst e with [] => false | _ => _ end); simpl; lia.
Qed.

(** What a successful [create_archive] does. *)
Lemma create_archive_ok E kw w archive src :
  kw_archive kw = Some archive ->
  kw_source kw = Some (ArgPath src) ->
  Fs.is_dir (fs w) (removelast (parts archive)) = true ->
  Fs.lookup (fs w) (parts archive) <> Some Dir ->
  Fs.exists_ (fs w) (parts src) = true ->
  exists w',
    create_archive E kw w = (Return tt, w') /\
    Fs.lookup (fs w') (parts archive) = Some (File (tar_bytes E)) /\
    (forall q, q <> parts archive -> Fs.lookup (fs w') q = Fs.lookup (fs w) q) /\
    calls w' = SysOpenWrite (parts archive) :: calls w /\
    (forall d pat,
        List.length (Fs.glob (fs w') d pat) <= S (List.length (Fs.glob (fs w) d pat))).
Proof.
  intros Ha Hs Hd Hp Hex.
  destruct (open_write_ok (parts archive) w Hd Hp) as (w1 & Ho & Hl1 & Hf1 & Hc1).
  assert (Hg1 : forall d pat,
             List.length (Fs.glob (fs w1) d pat) <= S (List.length (Fs.glob (fs w) d pat))).
  { intros d pat. unfold Fs.open_write in Ho. rewrite Hd in Ho. cbn [negb] in Ho.
    destruct (Fs.lookup (fs w) (parts archive)) as [[x|]|]; [|congruence|];
      injection Ho as <-; cbn [fs].
    - rewrite glob_replace. lia.
    - apply glob_snoc. }
  unfold create_archive. rewrite Ha, Hs. cbn [source_location].
  unfold bind at 1. rewrite Ho.
  unfold bind, Fs.exists_m.
  assert (Fs.exists_ (fs w1) (parts src) = true) as ->.
  { unfold Fs.exists_ in *. destruct (parts src) as [|c r] eqn:Hsrc; [reflexivity|].
    destruct (list_eq_dec string_dec (c :: r) (parts archive)) as [He|Hne].
    - now rewrite He, Hl1.
    - now rewrite (Hf1 _ Hne). }
  unfold Fs.write. eexists. split; [reflexivity|]. cbn [fs calls]. repeat split.
  - now rewrite lookup_replace, path_eqb_refl, Hl1.
  - intros q Hq. rewrite lookup_replace.
    destruct (path_eqb_spec q (parts archive)); [congruence | now apply Hf1].
  - exact Hc1.
  - intros d pat. rewrite glob_replace. apply Hg1.
Qed.

(** X7.  When the destination directory exists, the archive path is no
    directory and the source exists, [create_archive] succeeds with one
    open for writing: afterwards the archive is a regular file holding what
    the tar writer produced, and every other path is as it was. *)
Theorem create_archive_writes_one_file E kw w archive src :
  kw_archive kw = Some archive ->
  kw_source kw = Some (ArgPath src) ->
  Fs.is_dir (fs w) (removelast (parts archive)) = true ->
  Fs.lookup (fs w) (parts archive) <> Some Dir ->
  Fs.exists_ (fs w) (parts src) = true ->
  exists w',
    create_archive E kw w = (Return tt, w') /\
    Fs.lookup (fs w') (parts archive) = Some (File (tar_bytes E)) /\
    (forall q, q <> parts archive -> Fs.lookup (fs w') q = Fs.lookup (fs w) q) /\
    calls w' = SysOpenWrite (parts archive) :: calls w.
Proof.
  intros Ha Hs Hd Hp Hex.
  destruct (create_archive_ok E kw w archive src Ha Hs Hd Hp Hex)
    as (w' & H1 & H2 & H3 & H4 & _).
  exists w'. auto.
Qed.

Lemma create_archive_writes_one_file_witness :
  let archive := mkPath true ["tmp"; "test.txt.1.tgz"] in
  let kw := Sample.kw_with 10 true "test.txt.1.tgz" in
  exists w',
    create_archive Sample.E0 kw Sample.w_fresh = (Return tt, w') /\
    Fs.lookup (fs w') (parts archive) = Some (File (tar_bytes Sample.E0)) /\
    (forall q, q <> parts archive ->
               Fs.lookup (fs w') q = Fs.lookup (fs Sample.w_fresh) q) /\
    calls w' = SysOpenWrite (parts archive) :: calls Sample.w_fresh.
Proof.
  intros archive kw.
  apply (create_archive_writes_one_file Sample.E0 kw Sample.w_fresh archive
           (mkPath true ["tmp"; "test.txt"])).
  - reflexivity.
  - reflexivity.
  - vm_compute. reflexivity.
  - vm_compute. discriminate.
  - vm_compute. reflexivity.
Defined.

End CreateFacts.

(** ** The order of the system calls of a run *)

Module RunOrderFacts.
Import BackerUpper RunFacts NoDeletionFacts.

Lemma issues_reads_only {A} (P : syscall -> bool) (c : M A) :
  reads_only c -> Spec.issues P c.
Proof. intros H w. exists []. now rewrite H. Qed.

Lemma issues_bind {A B} (P : syscall -> bool) (c : M A) (k : A -> M B) :
  Spec.issues P c -> (forall a, Spec.issues P (k a)) -> Spec.issues P (bind c k).
Proof.
  intros Hc Hk w. unfold bind. destruct (Hc w) as (l1 & H1 & F1).
  destruct (c w) as [[a|e] w1]; cbn [snd] in *.
  - destruct (Hk a w1) as (l2 & H2 & F2). exists (l2 ++ l1). split.
    + now rewrite H2, H1, app_assoc.
    + now rewrite forallb_app, F1, F2.
  - now exists l1.
Qed.

Lemma issues_for_each {A} (P : syscall -> bool) (body : A -> M unit) (l : list A) :
  (forall x, Spec.issues P (body x)) -> Spec.issues P (for_each body l).
Proof.
  intros H. induction l as [|x r IH]; cbn [for_each].
  - apply issues_reads_only, reads_only_ret.
  - apply issues_bind; auto.
Qed.

Lemma issues_rename (old new : list string) :
  Spec.issues Spec.is_rename (Fs.rename old new).
Proof.
  intros w. exists [SysRename old new]. split; [|reflexivity].
  unfold Fs.rename.
  repeat match goal with
         | |- context [match ?x with _ => _ end] => destruct x
         end; reflexivity.
Qed.

Lemma issues_unlink (p : list string) : Spec.issues Spec.is_unlink (Fs.unlink p).
Proof.
  intros w. exists [SysUnlink p]. split; [|reflexivity].
  unfold Fs.unlink.
  repeat match goal with
         | |- context [match ?x with _ => _ end] => destruct x
         end; reflexivity.
Qed.

(** Rotation issues renames and nothing else. *)
Lemma issues_move E kw : Spec.issues Spec.is_rename (move_previous_archives E kw).
Proof.
  unfold move_previous_archives.
  destruct (negb (get_sequential kw)); [apply issues_reads_only, reads_only_ret|].
  apply issues_bind; [apply issues_reads_only, reads_only_gather|]. intros [pat l].
  cbn [snd]. destruct l as [|x r]; [apply issues_reads_only, reads_only_ret|].
  apply issues_bind; [apply issues_reads_only, reads_only_keyed|]. intros items.
  apply issues_for_each. intros item.
  apply issues_bind; [apply issues_reads_only, reads_only_next_name|]. intros new.
  apply issues_rename.
Qed.

(** Retention issues unlinks and nothing else. *)
Lemma issues_remove kw : Spec.issues Spec.is_unlink (remove_previous_archives kw).
Proof.
  unfold remove_previous_archives.
  destruct (get_retention_count kw <=? 0)%Z;
    [apply issues_reads_only, reads_only_ret|].
  apply issues_bind; [apply issues_reads_only, reads_only_gather|]. intros [pat l].
  cbn [snd].
  destruct (Z.of_nat (List.length l) <=? get_retention_count kw)%Z;
    [apply issues_reads_only, reads_only_ret|].
  apply issues_bind.
  - apply issues_reads_only. destruct (get_sequential kw); [|apply reads_only_ret].
    apply reads_only_bind; [apply reads_only_keyed|]. intros items.
    apply reads_only_ret.
  - intros archives. apply issues_for_each. intros item. apply issues_unlink.
Qed.

(** Creating the archive opens at most one path, and does nothing else to
    the log of calls. *)
Lemma create_opens_once E kw (w : world) :
  exists os,
    calls (snd (create_archive E kw w)) = os ++ calls w /\
    forallb Spec.is_open os = true /\ List.length os <= 1.
Proof.
  unfold create_archive.
  destruct (kw_archive kw) as [archive|]; [|exists []; repeat split; auto].
  exists [SysOpenWrite (parts archive)]. split; [|split; [reflexivity | simpl; lia]].
  unfold bind, Fs.open_write, Fs.exists_m, Fs.write, raise.
  destruct (negb (Fs.is_dir (fs w) (removelast (parts archive)))); [reflexivity|].
  destruct (Fs.lookup (fs w) (parts archive)) as [[d|]|]; try reflexivity;
    destruct (source_location E (kw_source kw)) as [src|]; try reflexivity;
    cbn [fs calls];
    match goal with
    | |- context [Fs.exists_ ?f ?p] => destruct (Fs.exists_ f p)
    end; reflexivity.
Qed.

Lemma staged_nil : Spec.staged [].
Proof. exists [], [], []. repeat split; auto. Qed.

Lemma not_rename_of (P : syscall -> bool) (l : list syscall) :
  (forall c, P c = true -> Spec.is_rename c = false) ->
  forallb P l = true -> forallb (fun c => negb (Spec.is_rename c)) l = true.
Proof.
  intros HP. induction l as [|c r IH]; [reflexivity|]. cbn [forallb].
  intros H. apply andb_true_iff in H as [Hc Hr]. now rewrite (HP c Hc), IH.
Qed.

(** X9.  Whatever the arguments and however the run ends, the system
    calls of one run come in three stages: first the renames of rotation,
    then at most one open for writing the archive, then the unlinks of
    retention.  A run with time markers issues no rename at all. *)
Theorem run_calls_are_staged E nargs kw w :
  exists l,
    calls (snd (call E nargs kw w)) = l ++ calls w /\
    Spec.staged l /\
    (get_sequential kw = false ->
     forallb (fun c => negb (Spec.is_rename c)) l = true).
Proof.
  unfold call.
  destruct ((nargs =? 0)%nat && kw_is_empty kw);
    [exists []; repeat split; auto using staged_nil|].
  unfold bind at 1. pose proof (resolve_source_pure E kw w) as Hs.
  destruct (resolve_source E kw w) as [[src|e] w1]; cbn [snd] in Hs; subst w1;
    [|exists []; repeat split; auto using staged_nil].
  unfold bind at 1.
  pose proof (reads_only_resolve_destination E (update_source kw src) w) as Hd.
  destruct (resolve_destination E (update_source kw src) w) as [[archive|e] w1];
    cbn [snd] in Hd; subst w1; [|exists []; repeat split; auto using staged_nil].
  set (kw2 := update_archive (update_source kw src) archive).
  assert (Hseq : get_sequential kw2 = get_sequential kw) by reflexivity.
  unfold bind at 1.
  destruct (issues_move E kw2 w) as (rs & Hrs & Frs).
  assert (Hts : get_sequential kw = false -> rs = []).
  { intros Hf. unfold move_previous_archives in Hrs. rewrite Hseq, Hf in Hrs.
    cbn in Hrs. apply (app_inv_tail (calls w) rs []). now rewrite <- Hrs. }
  destruct (move_previous_archives E kw2 w) as [[u|e] w1]; cbn [snd] in Hrs.
  2:{ exists rs. split; [exact Hrs|]. split.
      - exists [], [], rs. repeat split; auto.
      - intros Hf. now rewrite (Hts Hf). }
  unfold bind at 1.
  destruct (create_opens_once E kw2 w1) as (os & Hos & Fos & Los).
  destruct (create_archive E kw2 w1) as [[u'|e] w2]; cbn [snd] in Hos.
  2:{ exists (os ++ rs). split; [cbn [snd]; now rewrite Hos, Hrs, app_assoc|]. split.
      - exists [], os, rs. repeat split; auto.
      - intros Hf. rewrite (Hts Hf), app_nil_r.
        apply (not_rename_of Spec.is_open); [now intros [] | exact Fos]. }
  destruct (issues_remove kw2 w2) as (us & Hus & Fus).
  exists (us ++ os ++ rs). split.
  { now rewrite Hus, Hos, Hrs, <- !app_assoc. }
  split.
  - exists us, os, rs. repeat split; auto.
  - intros Hf. rewrite (Hts Hf), app_nil_r, forallb_app.
    rewrite (not_rename_of Spec.is_unlink us) by (now intros [] || exact Fus).
    rewrite (not_rename_of Spec.is_open os) by (now intros [] || exact Fos).
    reflexivity.
Qed.

End RunOrderFacts.

(** ** Whole runs *)

Module EndToEndFacts.
Import BackerUpper FsFacts RunFacts MarkerFacts ResolveFacts CreateFacts.

(** Once source and destination are resolved, a run is rotation, then
    creation, then retention, on the completed keyword arguments. *)
Lemma call_steps E nargs kw w src archive :
  resolve_source E kw w = (Return src, w) ->
  resolve_destination E (update_source kw src) w = (Return archive, w) ->
  call E nargs kw w =
  (move_previous_archives E (update_archive (update_source kw src) archive) ;;;
   create_archive E (update_archive (update_source kw src) archive) ;;;
   remove_previous_archives (update_archive (update_source kw src) archive)) w.
Proof.
  intros Hs Hd. unfold call.
  assert (kw_is_empty kw = false) as ->.
  { unfold kw_is_empty. destruct (kw_source kw) eqn:Hk; [reflexivity|].
    unfold resolve_source in Hs. rewrite Hk in Hs. discriminate. }
  rewrite andb_false_r.
  unfold bind at 1. rewrite Hs. unfold bind at 1. now rewrite Hd.
Qed.

(** In a file system where every entry lies in an existing directory, a
    directory that does not exist has no entries. *)
Lemma glob_empty_dir (f : filesystem) (d : list string) (pat : string) :
  Spec.parents_exist f -> Fs.is_dir f d = false -> Fs.glob f d pat = [].
Proof.
  intros Hp Hd. destruct (Fs.glob f d pat) as [|q r] eqn:Hg; [reflexivity|].
  assert (Hq : In q (Fs.glob f d pat)) by (rewrite Hg; now left).
  apply glob_in in Hq as (Hin & Hq & _).
  specialize (Hp q Hin). rewrite Hq, removelast_last in Hp. congruence.
Qed.

Lemma blocked_under (f : filesystem) (rest path : list string) :
  Fs.blocked_by_file f path rest = true ->
  exists pre post d,
    rest = pre ++ post /\ pre <> [] /\ Fs.lookup f (path ++ pre) = Some (File d).
Proof.
  revert path. induction rest as [|c r IH]; intros path H; [discriminate|].
  cbn [Fs.blocked_by_file] in H.
  destruct (Fs.lookup f (path ++ [c])) as [[d|]|] eqn:Hl; [| |discriminate].
  - exists [c], r, d. repeat split; [discriminate | exact Hl].
  - destruct (IH _ H) as (pre & post & d & -> & Hne & Hd).
    exists (c :: pre), post, d. repeat split; [discriminate|].
    now rewrite <- app_assoc in Hd.
Qed.

Lemma under_blocked (f : filesystem) (pre post path : list string) (d : N) :
  (forall a b, pre = a ++ b -> a <> [] -> b <> [] ->
               Fs.lookup f (path ++ a) = Some Dir) ->
  pre <> [] -> Fs.lookup f (path ++ pre) = Some (File d) ->
  Fs.blocked_by_file f path (pre ++ post) = true.
Proof.
  revert path. induction pre as [|c r IH]; intros path Hdirs Hne Hd; [congruence|].
  cbn [app Fs.blocked_by_file]. destruct r as [|c' r'].
  - now rewrite Hd.
  - rewrite (Hdirs [c] (c' :: r') eq_refl) by discriminate.
    apply IH; [|discriminate | now rewrite <- app_assoc].
    intros a b Hab Ha Hb. rewrite <- app_assoc.
    apply (Hdirs (c :: a) b); [now rewrite Hab | discriminate | exact Hb].
Qed.

(** Where every entry lies in a directory, what lies above an entry is a
    directory. *)
Lemma ancestors_are_dirs (f : filesystem) (a b : list string) :
  Spec.parents_exist f -> In (a ++ b) (map fst f) -> a <> [] -> b <> [] ->
  Fs.lookup f a = Some Dir.
Proof.
  intros Hp. induction b as [|x b' IH] using rev_ind; intros Hin Ha Hb; [congruence|].
  pose proof (Hp _ Hin) as Hd. rewrite app_assoc, removelast_last in Hd.
  unfold Fs.is_dir in Hd.
  destruct (a ++ b') as [|y l] eqn:Hab.
  { destruct a; [congruence | discriminate]. }
  rewrite <- Hab in Hd.
  destruct (Fs.lookup f (a ++ b')) as [[|]|] eqn:Hl; try discriminate.
  destruct b' as [|z b'']; [now rewrite app_nil_r in Hl|].
  apply IH; [|exact Ha | discriminate].
  apply lookup_in in Hl. apply in_map_iff. now exists (a ++ z :: b'', Dir).
Qed.

(** In such a file system, a path that cannot be reached is reported as
    [NotADirectoryError] exactly when a regular file lies on the way. *)
Lemma reach_error_cases (f : filesystem) (p : list string) :
  Spec.parents_exist f ->
  (Spec.under_file f p -> Fs.reach_error f p = NotADirectoryError p) /\
  (~ Spec.under_file f p -> Fs.reach_error f p = FileNotFoundError p).
Proof.
  intros Hp. unfold Fs.reach_error. split.
  - intros (pre & post & d & -> & Hpre & Hpost & Hd).
    assert (Hr : removelast (pre ++ post) = pre ++ removelast post).
    { now apply removelast_app. }
    rewrite Hr, (under_blocked f pre (removelast post) [] d); auto.
    intros a b -> Ha Hb. cbn [app].
    apply (ancestors_are_dirs f a b Hp); auto.
    apply lookup_in in Hd. apply in_map_iff. now exists (a ++ b, File d).
  - intros Hn.
    destruct (Fs.blocked_by_file f [] (removelast p)) eqn:Hb; [|reflexivity].
    exfalso. apply Hn.
    destruct (blocked_under _ _ _ Hb) as (pre & post & d & Hr & Hpre & Hd).
    cbn [app] in Hd.
    destruct p as [|x p'] using rev_ind; [now destruct pre|].
    rewrite removelast_last in Hr. subst p'.
    exists pre, (post ++ [x]), d. repeat split; auto.
    + now rewrite app_assoc.
    + now destruct post.
Qed.

(** X8.  When the destination directory does not exist, the run gets as
    far as opening the archive and fails there: rotation finds nothing to
    rename, and the file system is left as it was.  The error is
    [NotADirectoryError] when a regular file lies on the way to the
    archive, and [FileNotFoundError] otherwise. *)
Theorem missing_destination_directory E nargs kw w src archive :
  resolve_source E kw w = (Return src, w) ->
  resolve_destination E (update_source kw src) w = (Return archive, w) ->
  get_sequential kw = false \/ Spec.pattern_ok archive ->
  Spec.parents_exist (fs w) ->
  Fs.is_dir (fs w) (parts (Pathlib.parent archive)) = false ->
  exists e w',
    call E nargs kw w = (Raise e, w') /\
    fs w' = fs w /\
    calls w' = SysOpenWrite (parts archive) :: calls w /\
    (Spec.under_file (fs w) (parts archive) ->
     e = NotADirectoryError (parts archive)) /\
    (~ Spec.under_file (fs w) (parts archive) ->
     e = FileNotFoundError (parts archive)).
Proof.
  intros Hs Hd Hok Hp Hdir. rewrite (call_steps E nargs kw w src archive Hs Hd).
  set (kw2 := update_archive (update_source kw src) archive).
  assert (Hmove : move_previous_archives E kw2 w = (Return tt, w)).
  { unfold move_previous_archives.
    change (get_sequential kw2) with (get_sequential kw).
    destruct (get_sequential kw); [|reflexivity].
    destruct Hok as [Hok|Hok]; [discriminate|]. cbn [negb].
    destruct (gather_spec kw2 w archive eq_refl Hok) as (pattern & Hg).
    unfold bind at 1. rewrite Hg. cbn [snd].
    unfold Spec.matching. now rewrite (glob_empty_dir _ _ _ Hp Hdir). }
  unfold bind at 1. rewrite Hmove.
  unfold bind at 1. unfold create_archive. cbn [kw2 update_archive kw_archive].
  unfold bind at 1. unfold Fs.open_write.
  change (removelast (parts archive)) with (parts (Pathlib.parent archive)).
  rewrite Hdir. cbn [negb]. do 2 eexists. split; [reflexivity|].
  split; [reflexivity|]. split; [reflexivity|].
  apply (reach_error_cases _ _ Hp).
Qed.

Lemma missing_destination_directory_witness :
  let kw := mkKwargs (Some (ArgStr "/tmp/test.txt")) (Some (ArgStr "/tmp/test.txt/b"))
                     None None None None false in
  let archive :=
    mkPath true ["tmp"; "test.txt"; "b"; "test.txt.2024-11-03T09-43-23-001234Z.tgz"] in
  exists e w',
    call Sample.E0 0 kw Sample.w_fresh = (Raise e, w') /\
    fs w' = fs Sample.w_fresh /\
    calls w' = SysOpenWrite (parts archive) :: calls Sample.w_fresh /\
    (Spec.under_file (fs Sample.w_fresh) (parts archive) ->
     e = NotADirectoryError (parts archive)) /\
    (~ Spec.under_file (fs Sample.w_fresh) (parts archive) ->
     e = FileNotFoundError (parts archive)).
Proof.
  intros kw archive.
  apply (missing_destination_directory Sample.E0 0 kw Sample.w_fresh
           (mkPath true ["tmp"; "test.txt"]) archive).
  - vm_compute. reflexivity.
  - vm_compute. reflexivity.
  - left. reflexivity.
  - intros q Hq. vm_compute in Hq. destruct Hq as [<-|[<-|[]]]; vm_compute; reflexivity.
  - vm_compute. reflexivity.
Defined.

(** X11.  A backup that has nothing to rotate (time markers, or a pattern
    that is taken and no matching archive yet), whose destination directory
    exists, whose archive path is no directory, and whose retention has
    nothing to do (it is off, or the pattern is taken and the destination
    holds fewer matching archives than the retention count) succeeds with a
    single system call: the archive is written, and every other path is as
    it was. *)
Theorem plain_backup_adds_one_archive E nargs kw w src archive :
  get_sequential kw = false \/
  (Spec.pattern_ok archive /\ Spec.matching w archive = []) ->
  resolve_source E kw w = (Return src, w) ->
  resolve_destination E (update_source kw src) w = (Return archive, w) ->
  Fs.is_dir (fs w) (parts (Pathlib.parent archive)) = true ->
  Fs.lookup (fs w) (parts archive) <> Some Dir ->
  (get_retention_count kw <= 0)%Z \/
  (Spec.pattern_ok archive /\
   (Z.of_nat (List.length (Spec.matching w archive)) < get_retention_count kw)%Z) ->
  exists w',
    call E nargs kw w = (Return tt, w') /\
    Fs.lookup (fs w') (parts archive) = Some (File (tar_bytes E)) /\
    (forall q, q <> parts archive -> Fs.lookup (fs w') q = Fs.lookup (fs w) q) /\
    calls w' = SysOpenWrite (parts archive) :: calls w.
Proof.
  intros Hseq Hs Hd Hdir Hnd HK.
  rewrite (call_steps E nargs kw w src archive Hs Hd).
  set (kw2 := update_archive (update_source kw src) archive).
  apply resolve_source_inv in Hs as (_ & _ & _ & Hex).
  destruct (create_archive_ok E kw2 w archive src eq_refl eq_refl Hdir Hnd Hex)
    as (w' & Hc & Hl & Hf & Hcalls & Hlen).
  exists w'. repeat split; auto.
  assert (Hmove : move_previous_archives E kw2 w = (Return tt, w)).
  { unfold move_previous_archives.
    change (get_sequential kw2) with (get_sequential kw).
    destruct (get_sequential kw); [|reflexivity].
    destruct Hseq as [Hseq|[Hok Hseq]]; [discriminate|]. cbn [negb].
    destruct (gather_spec kw2 w archive eq_refl Hok) as (pattern & Hg).
    unfold bind at 1. now rewrite Hg, Hseq. }
  unfold bind at 1. rewrite Hmove.
  unfold bind at 1. rewrite Hc.
  unfold remove_previous_archives.
  change (get_retention_count kw2) with (get_retention_count kw).
  destruct (Z.leb_spec (get_retention_count kw) 0) as [|Hpos]; [reflexivity|].
  destruct HK as [HK|[Hok HK]]; [lia|].
  destruct (gather_spec kw2 w' archive eq_refl Hok) as (pattern & Hg).
  unfold bind at 1. rewrite Hg. cbn [snd].
  assert (Hm : List.length (Spec.matching w' archive) <=
               S (List.length (Spec.matching w archive))).
  { unfold Spec.matching. rewrite !length_map. apply Hlen. }
  destruct (Z.leb_spec (Z.of_nat (List.length (Spec.matching w' archive)))
                       (get_retention_count kw)); [reflexivity | lia].
Qed.

Lemma plain_backup_adds_one_archive_witness :
  let archive := mkPath true ["tmp"; "test.txt.2024-11-03T09-43-23-001234Z.tgz"] in
  exists w',
    call Sample.E0 0 Sample.kw_default Sample.w_fresh = (Return tt, w') /\
    Fs.lookup (fs w') (parts archive) = Some (File (tar_bytes Sample.E0)) /\
    (forall q, q <> parts archive ->
               Fs.lookup (fs w') q = Fs.lookup (fs Sample.w_fresh) q) /\
    calls w' = SysOpenWrite (parts archive) :: calls Sample.w_fresh.
Proof.
  intros archive.
  apply (plain_backup_adds_one_archive Sample.E0 0 Sample.kw_default
           Sample.w_fresh (mkPath true ["tmp"; "test.txt"]) archive).
  - left. reflexivity.
  - vm_compute. reflexivity.
  - vm_compute. reflexivity.
  - vm_compute. reflexivity.
  - vm_compute. discriminate.
  - right. split; vm_compute; reflexivity.
Defined.

End EndToEndFacts.

(** ** Retention, run again *)

Module RetentionAgainFacts.
Import BackerUpper FsFacts MarkerFacts RetentionFacts.

(** When every deletion succeeds, what is left is the file system without
    the deleted paths. *)
Lemma unlink_all_inv (l : list Path) (w w' : world) :
  for_each (fun item => Fs.unlink (parts item)) l w = (Return tt, w') ->
  fs w' = Fs.remove_all (fs w) (map parts l).
Proof.
  revert w. induction l as [|x r IH]; intros w H.
  - cbn in H. injection H as <-. unfold Fs.remove_all. cbn [map Fs.mem existsb negb].
    now rewrite filter_true.
  - cbn [for_each map] in H. unfold bind, Fs.unlink at 1 in H.
    destruct (Fs.lookup (fs w) (parts x)) as [[d|]|]; try discriminate.
    apply IH in H. cbn [fs] in H. now rewrite H, remove_all_cons.
Qed.

(** With a malformed marker among more than [K] archives, sequential
    retention raises. *)
Lemma remove_raises_on_bad_marker kw w archive :
  kw_archive kw = Some archive ->
  Spec.pattern_ok archive ->
  (0 < get_retention_count kw)%Z ->
  (get_retention_count kw < Z.of_nat (List.length (Spec.matching w archive)))%Z ->
  get_sequential kw = true ->
  (exists p, In p (Spec.matching w archive) /\ Spec.marker_value p = None) ->
  exists e, remove_previous_archives kw w = (Raise e, w).
Proof.
  intros Ha Hok HK HM Hseq Hbad.
  destruct (keyed_fail _ w Hbad) as (e & bad & He & _).
  exists e. unfold remove_previous_archives.
  destruct (Z.leb_spec (get_retention_count kw) 0); [lia|].
  destruct (gather_spec kw w archive Ha Hok) as (pattern & Hg).
  unfold bind at 1. rewrite Hg. cbn [snd].
  destruct (Z.leb_spec (Z.of_nat (List.length (Spec.matching w archive)))
                       (get_retention_count kw)); [lia|].
  rewrite Hseq. unfold bind at 1. unfold bind at 1. now rewrite He.
Qed.

Lemma bad_marker_dec (l : list Path) :
  (exists p, In p l /\ Spec.marker_value p = None) \/
  (forall p, In p l -> Spec.marker_value p <> None).
Proof.
  induction l as [|x r [(p & Hp & Hm)|IH]].
  - right. intros p [].
  - left. exists p. split; [now right | exact Hm].
  - destruct (Spec.marker_value x) eqn:Hx.
    + right. intros p [<-|Hp]; [congruence | now apply IH].
    + left. exists x. split; [now left | exact Hx].
Qed.

(** X10.  Retention is idempotent: when it has succeeded on a file system
    whose paths are distinct, running it again at once changes nothing and
    issues no system call. *)
Theorem retention_is_idempotent kw w w' :
  NoDup (map fst (fs w)) ->
  remove_previous_archives kw w = (Return tt, w') ->
  remove_previous_archives kw w' = (Return tt, w').
Proof.
  intros Hnd H.
  destruct (Z.leb_spec (get_retention_count kw) 0) as [HK|HK].
  { unfold remove_previous_archives in *.
    destruct (Z.leb_spec (get_retention_count kw) 0); [reflexivity | lia]. }
  destruct (kw_archive kw) as [archive|] eqn:Ha.
  2:{ unfold remove_previous_archives, gather_matching_archives in H.
      destruct (Z.leb_spec (get_retention_count kw) 0); [lia|].
      rewrite Ha in H. discriminate. }
  assert (Hok : Spec.pattern_ok archive).
  { unfold Spec.pattern_ok.
    destruct (Str.has_stars (Spec.pattern_of archive)) eqn:Hst; [|reflexivity].
    exfalso. unfold remove_previous_archives in H.
    destruct (Z.leb_spec (get_retention_count kw) 0); [lia|].
    unfold bind at 1 in H. rewrite (gather_cases kw w archive Ha), Hst in H.
    discriminate. }
  assert (Hguard : forall v,
             (Z.of_nat (List.length (Spec.matching v archive)) <=
              get_retention_count kw)%Z ->
             remove_previous_archives kw v = (Return tt, v)).
  { intros v Hv. unfold remove_previous_archives.
    destruct (Z.leb_spec (get_retention_count kw) 0); [lia|].
    destruct (gather_spec kw v archive Ha Hok) as (pattern & Hg).
    unfold bind at 1. rewrite Hg. cbn [snd].
    destruct (Z.leb_spec (Z.of_nat (List.length (Spec.matching v archive)))
                         (get_retention_count kw)); [reflexivity | lia]. }
  destruct (Z.le_gt_cases (Z.of_nat (List.length (Spec.matching w archive)))
                          (get_retention_count kw)) as [HM|HM].
  { rewrite (Hguard w HM) in H. injection H as <-. now apply Hguard. }
  assert (Hmark : get_sequential kw = true ->
                  forall p, In p (Spec.matching w archive) ->
                            Spec.marker_value p <> None).
  { intros Hseq. destruct (bad_marker_dec (Spec.matching w archive)) as [Hbad|Hall];
      [|exact Hall].
    destruct (remove_raises_on_bad_marker kw w archive Ha Hok HK HM
                Hseq Hbad) as (e & He).
    congruence. }
  rewrite (remove_unfold kw w archive Ha Hok HK HM Hmark) in H.
  apply unlink_all_inv in H.
  apply Hguard.
  set (k := Z.to_nat (get_retention_count kw)) in *.
  set (ordered := Spec.retention_order (get_sequential kw) (Spec.matching w archive)) in *.
  pose proof (retention_order_perm (get_sequential kw) (Spec.matching w archive)) as HP.
  fold ordered in HP.
  destruct w' as [f' c']. cbn [fs] in H. subst f'.
  rewrite <- skipn_map, matching_after_removal, length_map.
  rewrite (Permutation_length
             (kept_is_prefix _ (map parts ordered) k
                (matching_nodup w archive Hnd) (Permutation_map parts HP))).
  rewrite length_firstn. subst k. lia.
Qed.

Lemma retention_is_idempotent_witness :
  let kw := Sample.kw_with 2 true "test.txt.1.tgz" in
  let w' := snd (remove_previous_archives kw Sample.w_seq) in
  remove_previous_archives kw w' = (Return tt, w').
Proof.
  intros kw w'.
  apply (retention_is_idempotent kw Sample.w_seq w').
  - repeat constructor; simpl; intuition discriminate.
  - vm_compute. reflexivity.
Defined.

End RetentionAgainFacts.

(** ** What rotation and retention can touch *)

Module SafetyFacts.
Import BackerUpper FsFacts MarkerFacts RetentionFacts RotationFacts NameFacts.
Import PatternFacts ResolveFacts RetentionAgainFacts PySortFacts.

(** X12.  Whatever destination is given, an archive path that
    [resolve_destination] returns is absolute and holds no "..", and its
    name splits from the right into exactly the name of the source, the
    marker and the extension, also when the name of the source holds
    dots. *)
Theorem archive_path_shape E kw w archive w' :
  resolve_destination E kw w = (Return archive, w') ->
  exists src,
    kw_source kw = Some (ArgPath src) /\
    anchored archive = true /\
    Spec.no_dotdot (parts archive) /\
    Str.rsplit2 (Pathlib.name archive) =
      [Pathlib.name src;
       if get_sequential kw then "1"%string else Datetime.strftime_marker (now E);
       if get_uncompressed kw then "tar"%string else "tgz"%string].
Proof.
  intros H. apply resolve_destination_inv in H as (src & dest & Hsrc & _ & ->).
  exists src. split; [exact Hsrc|]. split; [reflexivity|]. split.
  - apply collapse_no_dotdot.
  - rewrite name_resolve_child
      by (apply archive_name_not_dotdot; destruct (get_uncompressed kw); discriminate).
    rewrite (rsplit2_archive _ _ _ (marker_no_dot E kw) (ext_no_dot kw)).
    now destruct (get_sequential kw).
Qed.

Lemma archive_path_shape_witness :
  let kw := update_source Sample.kw_sequential (mkPath true ["tmp"; "test.txt"]) in
  let archive := mkPath true ["tmp"; "test.txt.1.tgz"] in
  exists src,
    kw_source kw = Some (ArgPath src) /\
    anchored archive = true /\
    Spec.no_dotdot (parts archive) /\
    Str.rsplit2 (Pathlib.name archive) =
      [Pathlib.name src;
       if get_sequential kw then "1"%string
       else Datetime.strftime_marker (now Sample.E0);
       if get_uncompressed kw then "tar"%string else "tgz"%string].
Proof.
  intros kw archive.
  apply (archive_path_shape Sample.E0 kw Sample.w_fresh archive Sample.w_fresh).
  vm_compute. reflexivity.
Defined.

(** The unlinks of a deletion loop are those of a prefix of its list. *)
Lemma unlink_calls_prefix (l : list Path) (w : world) :
  exists j,
    calls (snd (for_each (fun item => Fs.unlink (parts item)) l w)) =
    rev (map SysUnlink (map parts (firstn j l))) ++ calls w.
Proof.
  revert w. induction l as [|x r IH]; intros w; [now exists 0|].
  cbn [for_each]. unfold bind, Fs.unlink at 1.
  destruct (Fs.lookup (fs w) (parts x)) as [[d|]|]; try (now exists 1).
  match goal with
  | |- context [for_each _ r ?w1] => destruct (IH w1) as (j & Hj)
  end.
  exists (S j). rewrite Hj. cbn [calls firstn map rev]. now rewrite <- app_assoc.
Qed.

(** X13.  Retention never touches anything but matching archives: in
    every world, whatever the markers and the kinds of the entries, each
    system call it issues is the unlink of an archive that matches the
    pattern. *)
Theorem retention_unlinks_only_matches kw w archive :
  kw_archive kw = Some archive ->
  exists l,
    calls (snd (remove_previous_archives kw w)) = l ++ calls w /\
    forall c, In c l ->
      exists p, In p (Spec.matching w archive) /\ c = SysUnlink (parts p).
Proof.
  intros Ha.
  assert (Hquiet : forall r, remove_previous_archives kw w = (r, w) ->
            exists l, calls (snd (remove_previous_archives kw w)) = l ++ calls w /\
              forall c, In c l ->
                exists p, In p (Spec.matching w archive) /\ c = SysUnlink (parts p)).
  { intros r Hr. exists []. rewrite Hr. split; [reflexivity | intros c []]. }
  destruct (Z.leb_spec (get_retention_count kw) 0) as [HK|HK].
  { apply (Hquiet (Return tt)). unfold remove_previous_archives.
    destruct (Z.leb_spec (get_retention_count kw) 0); [reflexivity | lia]. }
  assert (Hpat : Spec.pattern_ok archive \/ ~ Spec.pattern_ok archive).
  { unfold Spec.pattern_ok. destruct (Str.has_stars (Spec.pattern_of archive));
      [right; discriminate | now left]. }
  destruct Hpat as [Hpat|Hpat].
  2:{ apply (Hquiet (Raise (ValueError invalid_pattern))).
      unfold remove_previous_archives.
      destruct (Z.leb_spec (get_retention_count kw) 0); [lia|].
      unfold bind at 1. now rewrite (gather_refused kw w archive Ha Hpat). }
  destruct (Z.le_gt_cases (Z.of_nat (List.length (Spec.matching w archive)))
                          (get_retention_count kw)) as [HM|HM].
  { apply (Hquiet (Return tt)). unfold remove_previous_archives.
    destruct (Z.leb_spec (get_retention_count kw) 0); [lia|].
    destruct (gather_spec kw w archive Ha Hpat) as (pattern & Hg).
    unfold bind at 1. rewrite Hg. cbn [snd].
    destruct (Z.leb_spec (Z.of_nat (List.length (Spec.matching w archive)))
                         (get_retention_count kw)); [reflexivity | lia]. }
  assert (Hcases : (get_sequential kw = true /\
                    exists p, In p (Spec.matching w archive) /\
                              Spec.marker_value p = None) \/
                   (get_sequential kw = true ->
                    forall p, In p (Spec.matching w archive) ->
                              Spec.marker_value p <> None)).
  { destruct (get_sequential kw); [|right; discriminate].
    destruct (bad_marker_dec (Spec.matching w archive)) as [Hbad|Hok];
      [left; now split | right; intros _; exact Hok]. }
  destruct Hcases as [[Hseq Hbad]|Hmark].
  { destruct (remove_raises_on_bad_marker kw w archive Ha Hpat HK HM Hseq Hbad)
      as (e & He).
    now apply (Hquiet (Raise e)). }
  rewrite (remove_unfold kw w archive Ha Hpat HK HM Hmark).
  destruct (unlink_calls_prefix
              (skipn (Z.to_nat (get_retention_count kw))
                 (Spec.retention_order (get_sequential kw) (Spec.matching w archive)))
              w) as (j & Hj).
  eexists. split; [exact Hj|].
  intros c Hc. apply in_rev in Hc. apply in_map_iff in Hc as (q & <- & Hq).
  apply in_map_iff in Hq as (p & <- & Hp).
  exists p. split; [|reflexivity].
  apply (Permutation_in _ (retention_order_perm (get_sequential kw) _)).
  eapply in_skipn, in_firstn, Hp.
Qed.

Lemma retention_unlinks_only_matches_witness :
  let kw := Sample.kw_with 1 false "test.txt.2024-11-04T00-00-00-000000Z.tgz" in
  let archive := mkPath true ["tmp"; "test.txt.2024-11-04T00-00-00-000000Z.tgz"] in
  exists l,
    calls (snd (remove_previous_archives kw Sample.w_dir_in_the_way)) =
      l ++ calls Sample.w_dir_in_the_way /\
    forall c, In c l ->
      exists p, In p (Spec.matching Sample.w_dir_in_the_way archive) /\
                c = SysUnlink (parts p).
Proof.
  intros kw archive.
  apply (retention_unlinks_only_matches kw Sample.w_dir_in_the_way archive).
  reflexivity.
Defined.

(** The renames of a rotation loop are those of a prefix of its plan: the
    loop ends early when a rename fails or when a marker has no successor
    that [str] writes. *)
Lemma rotation_calls_prefix E (ks : list (Z * Path)) (w : world) :
  (forall kp, In kp ks -> Spec.marker_value (snd kp) = Some (fst kp)) ->
  exists j,
    calls (snd (for_each (fun item => new_name <- next_name E item ;;
                                      Fs.rename (parts item) (parts new_name))
                         (map snd ks) w)) =
    rev (map Spec.rename_call (firstn j (map (Spec.step_of E) ks))) ++ calls w.
Proof.
  revert w. induction ks as [|[z item] r IH]; intros w H; [now exists 0|].
  cbn [map for_each snd].
  pose proof (H (z, item) (or_introl eq_refl)) as Hm. cbn [fst snd] in Hm.
  unfold bind at 1. unfold bind at 1.
  destruct (PyInt.printable (z + 1)) eqn:Hp.
  - rewrite (next_name_spec E item z w Hm Hp).
    assert (Hc : calls (snd (Fs.rename (parts item)
                               (parts (Spec.st_new (Spec.step_of E (z, item)))) w)) =
                 Spec.rename_call (Spec.step_of E (z, item)) :: calls w).
    { unfold Fs.rename, Spec.rename_call. cbn [Spec.st_old Spec.step_of snd].
      repeat match goal with
             | |- context [match ?x with _ => _ end] => destruct x
             end; reflexivity. }
    destruct (Fs.rename _ _ w) as [[u|e] w1]; cbn [snd] in Hc.
    + destruct (IH w1) as (j & Hj); [intros kp Hkp; apply H; now right|].
      exists (S j). rewrite Hj, Hc. cbn [firstn map rev]. now rewrite <- app_assoc.
    + exists 1. cbn [snd firstn map rev app]. now rewrite Hc.
  - rewrite (next_name_limit E item z w Hm Hp). now exists 0.
Qed.

(** X14.  Rotation never touches anything but matching archives: in every
    world and in either scheme, each system call it issues renames a
    matching archive that carries an integer marker to the name with that
    marker plus one; when some matching archive has no integer marker it
    issues none. *)
Theorem rotation_renames_only_matches E kw w archive :
  kw_archive kw = Some archive ->
  exists l,
    calls (snd (move_previous_archives E kw w)) = l ++ calls w /\
    ((exists p, In p (Spec.matching w archive) /\ Spec.marker_value p = None) ->
     l = []) /\
    forall c, In c l ->
      exists p z,
        In p (Spec.matching w archive) /\ Spec.marker_value p = Some z /\
        c = Spec.rename_call (Spec.step_of E (z, p)).
Proof.
  intros Ha.
  assert (Hquiet : forall r, move_previous_archives E kw w = (r, w) ->
            exists l, calls (snd (move_previous_archives E kw w)) = l ++ calls w /\
              ((exists p, In p (Spec.matching w archive) /\
                          Spec.marker_value p = None) -> l = []) /\
              forall c, In c l ->
                exists p z,
                  In p (Spec.matching w archive) /\ Spec.marker_value p = Some z /\
                  c = Spec.rename_call (Spec.step_of E (z, p))).
  { intros r Hr. exists []. rewrite Hr. repeat split; auto. intros c []. }
  destruct (get_sequential kw) eqn:Hseq.
  2:{ apply (Hquiet (Return tt)). unfold move_previous_archives. now rewrite Hseq. }
  assert (Hpat : Spec.pattern_ok archive \/ ~ Spec.pattern_ok archive).
  { unfold Spec.pattern_ok. destruct (Str.has_stars (Spec.pattern_of archive));
      [right; discriminate | now left]. }
  destruct Hpat as [Hpat|Hpat].
  2:{ apply (Hquiet (Raise (ValueError invalid_pattern))).
      unfold move_previous_archives. rewrite Hseq. cbn [negb].
      unfold bind at 1. now rewrite (gather_refused kw w archive Ha Hpat). }
  destruct (bad_marker_dec (Spec.matching w archive)) as [Hbad|Hok].
  { destruct (keyed_fail _ w Hbad) as (e & bad & He & _).
    apply (Hquiet (Raise e)).
    unfold move_previous_archives. rewrite Hseq. cbn [negb].
    destruct (gather_spec kw w archive Ha Hpat) as (pattern & Hg).
    unfold bind at 1. rewrite Hg. cbn [snd].
    destruct (Spec.matching w archive) as [|x r] eqn:Hl;
      [destruct Hbad as (p & [] & _)|].
    unfold bind at 1. now rewrite He. }
  set (ks := PySort.sorted key_lt true
               (map (fun p => (Spec.marker_or_zero p, p)) (Spec.matching w archive))).
  assert (Hks : forall kp, In kp ks ->
                  Spec.marker_value (snd kp) = Some (fst kp) /\
                  In (snd kp) (Spec.matching w archive)).
  { intros kp Hkp.
    now apply (keys_are_markers _ (fun a b => key_lt b a) kp Hok). }
  assert (Hrun : move_previous_archives E kw w =
                 for_each (fun item => new_name <- next_name E item ;;
                                       Fs.rename (parts item) (parts new_name))
                          (map snd ks) w).
  { unfold move_previous_archives. rewrite Hseq. cbn [negb].
    destruct (gather_spec kw w archive Ha Hpat) as (pattern & Hg).
    unfold bind at 1. rewrite Hg. cbn [snd]. subst ks.
    destruct (Spec.matching w archive) as [|x r] eqn:Hl; [reflexivity|].
    unfold bind at 1. now rewrite (keyed_ok _ _ Hok). }
  rewrite Hrun.
  destruct (rotation_calls_prefix E ks w (fun kp Hkp => proj1 (Hks kp Hkp)))
    as (j & Hj).
  eexists. split; [exact Hj|]. split.
  { intros (p & Hp & Hm). now destruct (Hok p Hp). }
  intros c Hc. apply in_rev in Hc. apply in_map_iff in Hc as (s & <- & Hs).
  apply in_firstn in Hs.
  apply in_map_iff in Hs as ([z p] & <- & Hkp).
  destruct (Hks _ Hkp) as [Hz Hp].
  exists p, z. repeat split; auto.
Qed.

Lemma rotation_renames_only_matches_witness :
  let kw := Sample.kw_with 10 true "test.txt.1.tgz" in
  let archive := mkPath true ["tmp"; "test.txt.1.tgz"] in
  exists l,
    calls (snd (move_previous_archives Sample.E0 kw Sample.w_seq)) =
      l ++ calls Sample.w_seq /\
    ((exists p, In p (Spec.matching Sample.w_seq archive) /\
                Spec.marker_value p = None) -> l = []) /\
    forall c, In c l ->
      exists p z,
        In p (Spec.matching Sample.w_seq archive) /\ Spec.marker_value p = Some z /\
        c = Spec.rename_call (Spec.step_of Sample.E0 (z, p)).
Proof.
  intros kw archive.
  apply (rotation_renames_only_matches Sample.E0 kw Sample.w_seq archive).
  reflexivity.
Defined.

(** X15.  In the sequential scheme, retention over more archives than the
    retention count raises before it deletes anything when some matching
    archive has no integer marker: the world is unchanged, and the error is
    that of the first such archive in scan order. *)
Theorem retention_rejects_malformed kw w archive item :
  kw_archive kw = Some archive ->
  Spec.pattern_ok archive ->
  get_sequential kw = true ->
  (0 < get_retention_count kw)%Z ->
  (get_retention_count kw < Z.of_nat (List.length (Spec.matching w archive)))%Z ->
  In item (Spec.matching w archive) ->
  Spec.marker_value item = None ->
  exists e bad,
    remove_previous_archives kw w = (Raise e, w) /\
    Spec.first_malformed (Spec.matching w archive) bad /\
    Spec.bad_marker_error bad e.
Proof.
  intros Ha Hok Hseq HK HM Hin Hm.
  destruct (keyed_fail_first (Spec.matching w archive) w) as (e & bad & He & Hb & Herr);
    [now exists item|].
  exists e, bad. repeat split; auto.
  unfold remove_previous_archives.
  destruct (Z.leb_spec (get_retention_count kw) 0); [lia|].
  destruct (gather_spec kw w archive Ha Hok) as (pattern & Hg).
  unfold bind at 1. rewrite Hg. cbn [snd].
  destruct (Z.leb_spec (Z.of_nat (List.length (Spec.matching w archive)))
                       (get_retention_count kw)); [lia|].
  rewrite Hseq. unfold bind at 1. unfold bind at 1. now rewrite He.
Qed.

Lemma retention_rejects_malformed_witness :
  let kw := Sample.kw_with 1 true "test.txt.1.tgz" in
  let archive := mkPath true ["tmp"; "test.txt.1.tgz"] in
  exists e bad,
    remove_previous_archives kw Sample.w_bad_one = (Raise e, Sample.w_bad_one) /\
    Spec.first_malformed (Spec.matching Sample.w_bad_one archive) bad /\
    Spec.bad_marker_error bad e.
Proof.
  intros kw archive.
  apply (retention_rejects_malformed kw Sample.w_bad_one archive
           (mkPath true ["tmp"; "test.txt.zz.tgz"])).
  - reflexivity.
  - reflexivity.
  - reflexivity.
  - reflexivity.
  - vm_compute. reflexivity.
  - vm_compute. right. left. reflexivity.
  - reflexivity.
Defined.

End SafetyFacts.

(** ** The directory after a rotation *)

Module RotationFsFacts.
Import BackerUpper FsFacts MarkerFacts RetentionFacts RotationFacts NameFacts.
Import ResolveFacts CreateFacts PySortFacts.

Lemma is_prefix_refl (p : list string) : Fs.is_prefix p p = true.
Proof.
  induction p as [|a p IH]; [reflexivity|].
  cbn [Fs.is_prefix]. now rewrite String.eqb_refl, IH.
Qed.

Lemma is_prefix_same_length (p q : list string) :
  Fs.is_prefix p q = true -> List.length p = List.length q -> p = q.
Proof.
  revert q. induction p as [|a p IH]; intros [|b q] H Hl; try discriminate;
    [reflexivity|].
  cbn [Fs.is_prefix] in H. apply andb_true_iff in H as [Hab Hpq].
  apply String.eqb_eq in Hab. subst b. f_equal. apply IH; [exact Hpq|].
  simpl in Hl. lia.
Qed.

Lemma remove_absent (f : filesystem) (p : list string) :
  Fs.lookup f p = None -> Fs.remove f p = f.
Proof.
  intros H. unfold Fs.remove. induction f as [|[q n] r IH]; [reflexivity|].
  cbn [Fs.lookup] in H. cbn [filter fst].
  destruct (path_eqb_spec q p) as [->|Hne]; [discriminate|].
  cbn [negb]. now rewrite IH.
Qed.

(** Renaming a regular file that has nothing below it to a free path only
    changes the path of its entry. *)
Lemma rename_simple (old new : list string) (w : world) (d : N) :
  Fs.lookup (fs w) old = Some (File d) ->
  Fs.lookup (fs w) new = None ->
  Fs.has_children (fs w) old = false ->
  Fs.rename old new w =
  (Return tt,
   {| fs := map (fun e => (if Fs.path_eqb (fst e) old then new else fst e, snd e))
                (fs w);
      calls := SysRename old new :: calls w |}).
Proof.
  intros Ho Hn Hc. unfold Fs.rename. rewrite Ho, Hn.
  assert (Hne : old <> new) by (intros ->; congruence).
  rewrite (path_eqb_false old new Hne). rewrite (remove_absent _ _ Hn).
  f_equal. f_equal. apply map_ext_in. intros [q n] Hin. cbn [fst snd]. f_equal.
  unfold Fs.retarget.
  destruct (path_eqb_spec q old) as [->|Hq].
  - now rewrite is_prefix_refl, skipn_all, app_nil_r.
  - destruct (Fs.is_prefix old q) eqn:Hp; [|reflexivity].
    exfalso. unfold Fs.has_children in Hc.
    assert (Hex : existsb (fun e => Fs.is_prefix old (fst e) &&
                                    negb (Fs.path_eqb (fst e) old)) (fs w) = true).
    { apply existsb_exists. exists (q, n). split; [exact Hin|]. cbn [fst].
      now rewrite Hp, (path_eqb_false q old Hq). }
    congruence.
Qed.

Lemma lookup_moved (old new : list string) (f : filesystem) (q : list string) :
  Fs.lookup f new = None ->
  Fs.lookup (map (fun e => (if Fs.path_eqb (fst e) old then new else fst e, snd e)) f) q =
  if Fs.path_eqb q new then Fs.lookup f old
  else if Fs.path_eqb q old then None else Fs.lookup f q.
Proof.
  intros Hn. induction f as [|[a n] r IH].
  - cbn. now destruct (Fs.path_eqb q new), (Fs.path_eqb q old).
  - cbn [Fs.lookup] in Hn. cbn [map Fs.lookup fst snd].
    destruct (list_eq_dec string_dec a new) as [->|Han];
      [now rewrite path_eqb_refl in Hn|].
    rewrite (path_eqb_false a new Han) in Hn. specialize (IH Hn).
    destruct (list_eq_dec string_dec a old) as [->|Hao].
    + rewrite path_eqb_refl.
      destruct (list_eq_dec string_dec new q) as [<-|Hnq].
      * now rewrite !path_eqb_refl.
      * rewrite (path_eqb_false new q Hnq), IH.
        rewrite (path_eqb_false q new) by congruence.
        destruct (list_eq_dec string_dec q old) as [->|Hqo].
        -- now rewrite path_eqb_refl.
        -- now rewrite (path_eqb_false q old Hqo), (path_eqb_false old q) by congruence.
    + rewrite (path_eqb_false a old Hao).
      destruct (list_eq_dec string_dec a q) as [<-|Haq].
      * now rewrite path_eqb_refl, (path_eqb_false a new Han), (path_eqb_false a old Hao).
      * now rewrite (path_eqb_false a q Haq).
Qed.

Lemma nodup_moved (old new : list string) (f : filesystem) :
  NoDup (map fst f) -> Fs.lookup f new = None ->
  NoDup (map fst
           (map (fun e => (if Fs.path_eqb (fst e) old then new else fst e, snd e)) f)).
Proof.
  intros Hnd Hn. rewrite map_map. cbn [fst].
  rewrite <- (map_map fst (fun q => if Fs.path_eqb q old then new else q)).
  apply NoDup_map_NoDup_ForallPairs; [|exact Hnd].
  intros x y Hx Hy. apply lookup_none in Hn.
  destruct (path_eqb_spec x old), (path_eqb_spec y old); congruence.
Qed.

Lemma no_children_moved (old new : list string) (f : filesystem) (p : list string) :
  Fs.has_children f p = false ->
  List.length new = List.length p ->
  Fs.has_children
    (map (fun e => (if Fs.path_eqb (fst e) old then new else fst e, snd e)) f) p = false.
Proof.
  intros Hc Hl. unfold Fs.has_children in *.
  rewrite <- not_true_iff_false in *. intros Hex. apply Hc.
  apply existsb_exists in Hex as ([q n] & Hin & Hq). cbn [fst] in Hq.
  apply in_map_iff in Hin as ([a m] & Ha & Hin). cbn [fst snd] in Ha.
  injection Ha as <- <-.
  destruct (path_eqb_spec a old) as [->|Hao].
  - exfalso. apply andb_true_iff in Hq as [Hp Hne].
    apply is_prefix_same_length in Hp; [|now rewrite Hl].
    subst p. now rewrite path_eqb_refl in Hne.
  - apply existsb_exists. now exists (a, m).
Qed.


Lemma renamed_fresh (steps : list Spec.step) (q : list string) :
  (forall t, In t steps -> parts (Spec.st_old t) <> q) ->
  Spec.renamed steps q = q.
Proof.
  intros H. unfold Spec.renamed.
  induction steps as [|t r IH]; [reflexivity|]. cbn [find].
  rewrite (path_eqb_false _ _ (H t (or_introl eq_refl))).
  apply IH. intros u Hu. apply H. now right.
Qed.

Lemma renamed_cons (s : Spec.step) (rest : list Spec.step) (q : list string) :
  Spec.renamed (s :: rest) q =
  if Fs.path_eqb (parts (Spec.st_old s)) q then parts (Spec.st_new s)
  else Spec.renamed rest q.
Proof.
  unfold Spec.renamed. cbn [find].
  now destruct (Fs.path_eqb (parts (Spec.st_old s)) q).
Qed.

Lemma rotate_fs_nil (f : filesystem) : Spec.rotate_fs [] f = f.
Proof.
  unfold Spec.rotate_fs. rewrite <- (map_id f) at 2.
  apply map_ext. now intros [q n].
Qed.

(** Renames that go one after the other to free places, never onto an
    archive that is still to be moved, leave every entry where the plan
    says, with its contents. *)
Lemma run_steps (steps : list Spec.step) (w : world) :
  NoDup (map fst (fs w)) ->
  (forall s, In s steps -> Spec.is_file (fs w) (parts (Spec.st_old s))) ->
  (forall s, In s steps -> Fs.has_children (fs w) (parts (Spec.st_old s)) = false) ->
  (forall s, In s steps ->
     Fs.lookup (fs w) (parts (Spec.st_new s)) = None \/
     exists t, In t steps /\ parts (Spec.st_new s) = parts (Spec.st_old t)) ->
  StronglySorted (fun s t => parts (Spec.st_new s) <> parts (Spec.st_old t)) steps ->
  NoDup (map (fun s => parts (Spec.st_old s)) steps) ->
  NoDup (map (fun s => parts (Spec.st_new s)) steps) ->
  (forall s, In s steps -> parts (Spec.st_new s) <> parts (Spec.st_old s)) ->
  (forall s t, In s steps -> In t steps ->
     List.length (parts (Spec.st_new s)) = List.length (parts (Spec.st_old t))) ->
  for_each Spec.run_step steps w =
    (Return tt,
     {| fs := Spec.rotate_fs steps (fs w);
        calls := rev (map Spec.rename_call steps) ++ calls w |}) /\
  NoDup (map fst (Spec.rotate_fs steps (fs w))).
Proof.
  revert w. induction steps as [|s rest IH];
    intros w Hnd Hfile Hkids Hfree Hsort Holds Hnews Hself Hlen.
  - rewrite rotate_fs_nil. split; [|exact Hnd]. now destruct w.
  - inversion Hsort as [|? ? Hsort' Hhead]; subst.
    rewrite Forall_forall in Hhead.
    inversion Holds as [|? ? Hold_s Holds']; subst.
    inversion Hnews as [|? ? Hnew_s Hnews']; subst.
    set (o := parts (Spec.st_old s)) in *. set (n := parts (Spec.st_new s)) in *.
    assert (Hn : Fs.lookup (fs w) n = None).
    { destruct (Hfree s (or_introl eq_refl)) as [H|(t & [<-|Ht] & Heq)]; auto.
      - now destruct (Hself s (or_introl eq_refl)).
      - now destruct (Hhead t Ht). }
    destruct (Hfile s (or_introl eq_refl)) as (d & Hd).
    pose proof (rename_simple o n w d Hd Hn (Hkids s (or_introl eq_refl))) as Hren.
    set (f1 := map (fun e => (if Fs.path_eqb (fst e) o then n else fst e, snd e)) (fs w))
      in *.
    assert (Hlook : forall t, In t rest ->
              Fs.lookup f1 (parts (Spec.st_old t)) = Fs.lookup (fs w) (parts (Spec.st_old t))).
    { intros t Ht. unfold f1. rewrite (lookup_moved o n _ _ Hn).
      rewrite (path_eqb_false (parts (Spec.st_old t)) n)
        by (intros He; apply (Hhead t Ht); now rewrite He).
      rewrite (path_eqb_false (parts (Spec.st_old t)) o); [reflexivity|].
      intros He. apply Hold_s. rewrite <- He.
      now apply (in_map (fun s => parts (Spec.st_old s))). }
    destruct (IH {| fs := f1; calls := SysRename o n :: calls w |}) as [Hrun Hnd'].
    + apply nodup_moved; assumption.
    + intros t Ht. cbn [fs]. destruct (Hfile t (or_intror Ht)) as (dt & Hdt).
      exists dt. now rewrite Hlook.
    + intros t Ht. cbn [fs]. apply no_children_moved.
      * apply Hkids. now right.
      * apply Hlen; [now left | now right].
    + intros t Ht. cbn [fs].
      assert (Hnt : parts (Spec.st_new t) <> n).
      { intros He. apply Hnew_s. rewrite <- He.
        now apply (in_map (fun s => parts (Spec.st_new s))). }
      unfold f1. rewrite (lookup_moved o n _ _ Hn), (path_eqb_false _ _ Hnt).
      destruct (path_eqb_spec (parts (Spec.st_new t)) o) as [He|Hne]; [now left|].
      destruct (Hfree t (or_intror Ht)) as [H|(u & [<-|Hu] & Heq)].
      * now left.
      * contradiction.
      * right. now exists u.
    + exact Hsort'.
    + exact Holds'.
    + exact Hnews'.
    + intros t Ht. apply Hself. now right.
    + intros t u Ht Hu. apply Hlen; now right.
    + cbn [fs calls] in Hrun.
      assert (Hfs : Spec.rotate_fs rest f1 = Spec.rotate_fs (s :: rest) (fs w)).
      { unfold Spec.rotate_fs, f1. rewrite map_map. apply map_ext.
        intros [q m]. cbn [fst snd]. f_equal. rewrite renamed_cons. fold o n.
        destruct (path_eqb_spec q o) as [->|Hq].
        - rewrite path_eqb_refl. apply renamed_fresh.
          intros t Ht He. now apply (Hhead t Ht).
        - now rewrite (path_eqb_false o q) by congruence. }
      split.
      * cbn [for_each]. unfold bind. unfold Spec.run_step at 1. fold o n.
        rewrite Hren, Hrun, Hfs. cbn [map rev]. unfold Spec.rename_call at 3.
        fold o n. now rewrite <- app_assoc.
      * now rewrite <- Hfs.
Qed.

Lemma lookup_in_nodup (f : filesystem) (q : list string) (n : node) :
  NoDup (map fst f) -> In (q, n) f -> Fs.lookup f q = Some n.
Proof.
  induction f as [|[a m] r IH]; intros Hnd Hin; [contradiction|].
  inversion Hnd as [|? ? Ha Hr]; subst. cbn [Fs.lookup].
  destruct Hin as [He|Hin].
  - injection He as -> ->. now rewrite path_eqb_refl.
  - rewrite (path_eqb_false a q); [now apply IH|].
    intros ->. apply Ha. apply in_map_iff. now exists (q, n).
Qed.

Lemma renamed_old (steps : list Spec.step) (s : Spec.step) :
  NoDup (map (fun s => parts (Spec.st_old s)) steps) -> In s steps ->
  Spec.renamed steps (parts (Spec.st_old s)) = parts (Spec.st_new s).
Proof.
  induction steps as [|t r IH]; intros Hnd Hin; [contradiction|].
  inversion Hnd as [|? ? Ht Hr]; subst. rewrite renamed_cons.
  destruct Hin as [->|Hin]; [now rewrite path_eqb_refl|].
  rewrite (path_eqb_false (parts (Spec.st_old t)) (parts (Spec.st_old s)));
    [now apply IH|].
  intros He. apply Ht. rewrite He.
  now apply (in_map (fun s => parts (Spec.st_old s))).
Qed.

Lemma lookup_rotated (steps : list Spec.step) (f : filesystem) (q : list string)
    (n : node) :
  NoDup (map fst (Spec.rotate_fs steps f)) -> In (q, n) f ->
  Fs.lookup (Spec.rotate_fs steps f) (Spec.renamed steps q) = Some n.
Proof.
  intros Hnd Hin. apply lookup_in_nodup; [exact Hnd|].
  unfold Spec.rotate_fs. apply in_map_iff. now exists (q, n).
Qed.

Lemma marker_value_parts (p q : Path) :
  parts p = parts q -> Spec.marker_value p = Spec.marker_value q.
Proof. intros H. unfold Spec.marker_value, Pathlib.name. now rewrite H. Qed.

Lemma plan_olds E (l : list Path) :
  Permutation (map Spec.st_old (Spec.rotation_plan E l)) l.
Proof.
  unfold Spec.rotation_plan, PySort.sorted. rewrite map_map.
  erewrite map_ext; [|intros kp; unfold Spec.step_of; cbn [Spec.st_old]; reflexivity].
  rewrite sort_perm, map_map. cbn [snd]. now rewrite map_id.
Qed.

(** The steps of a plan over distinct integer markers go by strictly
    descending marker, and each of them shifts its marker by one. *)
Lemma plan_descends E (l : list Path) :
  (forall p, In p l -> Spec.can_shift p) ->
  NoDup (map Spec.marker_value l) ->
  StronglySorted (fun s t => (Spec.st_marker t < Spec.st_marker s)%Z)
                 (Spec.rotation_plan E l) /\
  (forall s, In s (Spec.rotation_plan E l) ->
     In (Spec.st_old s) l /\
     Spec.marker_value (Spec.st_old s) = Some (Spec.st_marker s) /\
     Spec.marker_value (Spec.st_new s) = Some (Spec.st_marker s + 1)%Z /\
     s = Spec.step_of E (Spec.st_marker s, Spec.st_old s) /\
     PyInt.printable (Spec.st_marker s + 1) = true /\
     Spec.shifts_marker s).
Proof.
  intros Hc Hnd.
  assert (Hm : forall p, In p l -> Spec.marker_value p <> None).
  { intros p Hp. apply can_shift_marker, Hc, Hp. }
  unfold Spec.rotation_plan, PySort.sorted.
  set (ks := PySort.sort (fun a b => key_lt b a)
               (map (fun p => (Spec.marker_or_zero p, p)) l)).
  assert (Hks : forall kp, In kp ks ->
                  Spec.marker_value (snd kp) = Some (fst kp) /\
                  PyInt.printable (fst kp + 1) = true /\ In (snd kp) l).
  { intros kp Hkp. now apply (keys_can_shift l (fun a b => key_lt b a) kp Hc). }
  split.
  - apply (sorted_map (fun a b => (fst b < fst a)%Z)).
    + intros a b _ _ Hab. exact Hab.
    + apply (sorted_strict fst).
      * assert (Hs : StronglySorted (PySort.before (fun a b => key_lt b a)) ks).
        { apply sort_sorted; unfold PySort.before, key_lt; intros; lia. }
        rewrite <- (map_id ks). revert Hs. apply sorted_map.
        intros a b _ _. unfold PySort.before, key_lt. lia.
      * apply (Permutation_NoDup
                 (Permutation_map fst (Permutation_sym (sort_perm _ _)))).
        rewrite map_map. cbn [fst]. now apply distinct_markers.
  - intros s Hs. apply in_map_iff in Hs as ([z item] & <- & Hkp).
    destruct (Hks _ Hkp) as (Hz & Hpr & Hin). cbn [fst snd] in Hz, Hpr, Hin.
    destruct (step_spec E z item Hz Hpr) as (stem & m & rest & Hold & Hname & _ & Hnew).
    repeat split; auto. now exists stem, m, rest.
Qed.

Lemma sorted_nodup_map {A B} (key : A -> Z) (f : A -> B) (l : list A) :
  StronglySorted (fun s t => (key t < key s)%Z) l ->
  (forall s t, In s l -> In t l -> f s = f t -> key s = key t) ->
  NoDup (map f l).
Proof.
  induction 1 as [|x r Hr IH Hx]; intros Hinj; [constructor|].
  cbn [map]. constructor.
  - intros Hin. apply in_map_iff in Hin as (y & Hy & Hin).
    rewrite Forall_forall in Hx. specialize (Hx y Hin).
    specialize (Hinj y x (or_intror Hin) (or_introl eq_refl) Hy). lia.
  - apply IH. intros s t Hs Ht. apply Hinj; now right.
Qed.

(** In a directory without "..", the new path of a step is a sibling of
    the old one. *)
Lemma step_new_sibling E (z : Z) (d : list string) (nm : string) :
  Spec.marker_value (mkPath true (d ++ [nm])) = Some z ->
  PyInt.printable (z + 1) = true ->
  Spec.no_dotdot d ->
  exists nm', parts (Spec.st_new (Spec.step_of E (z, mkPath true (d ++ [nm])))) =
              d ++ [nm'].
Proof.
  intros Hz Hpr Hd. set (item := mkPath true (d ++ [nm])) in *.
  destruct (step_spec E z item Hz Hpr) as (stem & m & rest & Hs & _ & _ & _).
  pose proof (StrFacts.rsplit2_rejoin _ m (PyInt.py_str (z + 1)) stem rest Hs
                (PyIntFacts.py_str_no_dot _)) as Hre.
  exists (Str.join_dot (stem :: PyInt.py_str (z + 1) :: rest)).
  unfold Spec.step_of. cbn [Spec.st_new fst snd]. rewrite Hs.
  unfold resolve, Pathlib.child, Pathlib.parent, item. cbn [anchored parts].
  rewrite removelast_last, collapse_snoc.
  - now rewrite (collapse_fixed _ Hd).
  - intros Hdd. rewrite Hdd in Hre. injection Hre as _ Ht _.
    pose proof (PyIntFacts.py_int_py_str (z + 1) Hpr) as Hp.
    rewrite <- Ht in Hp. discriminate.
Qed.

Lemma renamed_cases (steps : list Spec.step) (a : list string) :
  (Spec.renamed steps a = a /\
   forall t, In t steps -> parts (Spec.st_old t) <> a) \/
  (exists t, In t steps /\ parts (Spec.st_old t) = a /\
             Spec.renamed steps a = parts (Spec.st_new t)).
Proof.
  induction steps as [|s r IH].
  - left. split; [reflexivity | intros t []].
  - rewrite renamed_cons.
    destruct (path_eqb_spec (parts (Spec.st_old s)) a) as [He|Hne].
    + right. exists s. repeat split; [now left | exact He].
    + destruct IH as [[He Hall]|(t & Ht & Ho & Hn)].
      * left. split; [exact He|]. intros t [<-|Ht]; [exact Hne | now apply Hall].
      * right. exists t. repeat split; [now right | exact Ho | exact Hn].
Qed.

Lemma lookup_rotated_none (steps : list Spec.step) (f : filesystem)
    (q : list string) :
  (forall t, In t steps -> parts (Spec.st_new t) <> q) ->
  Fs.lookup f q = None \/ (exists s, In s steps /\ parts (Spec.st_old s) = q) ->
  Fs.lookup (Spec.rotate_fs steps f) q = None.
Proof.
  intros Hnew Hq. apply lookup_none. intros Hin.
  unfold Spec.rotate_fs in Hin. rewrite map_map in Hin. cbn [fst] in Hin.
  apply in_map_iff in Hin as ([a n] & Hr & Ha). cbn [fst] in Hr.
  destruct (renamed_cases steps a) as [[He Hall]|(t & Ht & _ & Hn)].
  - rewrite He in Hr. subst a. destruct Hq as [Hq|(s & Hs & Ho)].
    + apply lookup_none in Hq. apply Hq. apply in_map_iff. now exists (q, n).
    + exact (Hall s Hs Ho).
  - rewrite Hn in Hr. exact (Hnew t Ht Hr).
Qed.

(** Where the plan of a rotation leaves the file system.  The matching
    archives are regular files with distinct integer markers that [str] can
    shift, in a directory whose path holds no "..", and the new name of
    each is free or the name of another matching archive. *)
Lemma rotation_run E kw w archive :
  get_sequential kw = true ->
  kw_archive kw = Some archive ->
  Spec.pattern_ok archive ->
  Spec.no_dotdot (parts (Pathlib.parent archive)) ->
  NoDup (map fst (fs w)) ->
  (forall p, In p (Spec.matching w archive) ->
     Spec.can_shift p /\
     Spec.is_file (fs w) (parts p) /\
     Fs.has_children (fs w) (parts p) = false) ->
  NoDup (map Spec.marker_value (Spec.matching w archive)) ->
  (forall s, In s (Spec.rotation_plan E (Spec.matching w archive)) ->
     Fs.lookup (fs w) (parts (Spec.st_new s)) = None \/
     In (parts (Spec.st_new s)) (map parts (Spec.matching w archive))) ->
  move_previous_archives E kw w =
    (Return tt,
     {| fs := Spec.rotate_fs (Spec.rotation_plan E (Spec.matching w archive)) (fs w);
        calls := rev (map Spec.rename_call
                        (Spec.rotation_plan E (Spec.matching w archive))) ++
                 calls w |}) /\
  NoDup (map fst (Spec.rotate_fs (Spec.rotation_plan E (Spec.matching w archive))
                                 (fs w))) /\
  NoDup (map (fun s => parts (Spec.st_old s))
             (Spec.rotation_plan E (Spec.matching w archive))).
Proof.
  intros Hseq Ha Hok Hd Hndf Hall Hndm Hfree.
  assert (Hc : forall p, In p (Spec.matching w archive) -> Spec.can_shift p)
    by (intros p Hp; apply (Hall p Hp)).
  rewrite (rotation_unfold E kw w archive Hseq Ha Hok Hc).
  set (found := Spec.matching w archive) in *.
  set (plan := Spec.rotation_plan E found) in *.
  destruct (plan_descends E found Hc Hndm) as [Hsorted Hsteps].
  fold plan in Hsorted, Hsteps.
  pose proof (plan_olds E found) as Hperm. fold plan in Hperm.
  assert (Holds : NoDup (map (fun s => parts (Spec.st_old s)) plan)).
  { rewrite <- (map_map Spec.st_old parts).
    apply (Permutation_NoDup (Permutation_map parts (Permutation_sym Hperm))).
    now apply matching_nodup. }
  assert (Hshape : forall s, In s plan ->
            exists n n', parts (Spec.st_old s) =
                           (parts (Pathlib.parent archive) ++ [n])%list /\
                         parts (Spec.st_new s) =
                           (parts (Pathlib.parent archive) ++ [n'])%list).
  { intros s Hs. destruct (Hsteps s Hs) as (Hin & Hmo & _ & Hstep & Hpr & _).
    destruct (matching_parts w archive _ Hin) as (n & Hn & _).
    rewrite Hn in Hmo.
    destruct (step_new_sibling E _ _ n Hmo Hpr Hd) as (n' & Hn').
    exists n, n'. split; [now rewrite Hn|].
    rewrite Hstep, Hn. exact Hn'. }
  destruct (run_steps plan w) as [Hrun Hndr]; [| | | | | | | | |now repeat split].
  - exact Hndf.
  - intros s Hs. destruct (Hsteps s Hs) as (Hin & _). apply (Hall _ Hin).
  - intros s Hs. destruct (Hsteps s Hs) as (Hin & _). apply (Hall _ Hin).
  - intros s Hs. destruct (Hfree s Hs) as [Hn|Hin]; [now left|]. right.
    apply in_map_iff in Hin as (p & Hp & Hin).
    apply (Permutation_in _ (Permutation_sym Hperm)) in Hin.
    apply in_map_iff in Hin as (t & Ht & Hin).
    exists t. split; [exact Hin|]. now rewrite Ht, Hp.
  - rewrite <- (map_id plan). revert Hsorted. apply sorted_map.
    intros a b Hin_a Hin_b Hab He.
    destruct (Hsteps a Hin_a) as (_ & _ & Hna & _).
    destruct (Hsteps b Hin_b) as (_ & Hob & _).
    rewrite (marker_value_parts _ _ He), Hob in Hna.
    injection Hna as Hna. lia.
  - exact Holds.
  - apply (sorted_nodup_map Spec.st_marker); [exact Hsorted|].
    intros s t Hs Ht He.
    destruct (Hsteps s Hs) as (_ & _ & Hns & _).
    destruct (Hsteps t Ht) as (_ & _ & Hnt & _).
    rewrite (marker_value_parts _ _ He), Hnt in Hns.
    injection Hns as Hns. lia.
  - intros s Hs He.
    destruct (Hsteps s Hs) as (_ & Hos & Hns & _).
    rewrite (marker_value_parts _ _ He), Hos in Hns.
    injection Hns as Hns. lia.
  - intros s t Hs Ht.
    destruct (Hshape s Hs) as (? & ? & _ & ->).
    destruct (Hshape t Ht) as (? & ? & -> & _).
    now rewrite !length_app.
Qed.

(** After the renames, every entry is found at its new place. *)
Lemma lookup_after (steps : list Spec.step) (f : filesystem) (q : list string) :
  NoDup (map fst (Spec.rotate_fs steps f)) ->
  (forall t, In t steps -> parts (Spec.st_old t) <> q) ->
  (forall t, In t steps -> parts (Spec.st_new t) <> q) ->
  Fs.lookup (Spec.rotate_fs steps f) q = Fs.lookup f q.
Proof.
  intros Hnd Hold Hnew. destruct (Fs.lookup f q) as [n|] eqn:Hl.
  - rewrite <- (renamed_fresh steps q Hold) at 1.
    apply (lookup_rotated steps _ _ _ Hnd). now apply lookup_in.
  - apply lookup_rotated_none; [exact Hnew | now left].
Qed.

(** X16.  A sequential rotation loses no archive.  Take a pattern that
    [Path.glob] takes and a destination directory whose path holds no "..",
    in a file system that lists no path twice, where the matching archives
    are regular files with distinct integer markers that [str] can shift,
    and the new name of each is free or the name of another matching
    archive.  Then [move_previous_archives] returns without an error;
    afterwards every archive is found under its new name with the contents
    it had, a name that no archive moved to is gone, and every path that is
    neither an old nor a new name holds what it held. *)
Theorem rotation_keeps_every_archive E kw w archive :
  get_sequential kw = true ->
  kw_archive kw = Some archive ->
  Spec.pattern_ok archive ->
  Spec.no_dotdot (parts (Pathlib.parent archive)) ->
  NoDup (map fst (fs w)) ->
  (forall p, In p (Spec.matching w archive) ->
     Spec.can_shift p /\
     Spec.is_file (fs w) (parts p) /\
     Fs.has_children (fs w) (parts p) = false) ->
  NoDup (map Spec.marker_value (Spec.matching w archive)) ->
  (forall s, In s (Spec.rotation_plan E (Spec.matching w archive)) ->
     Fs.lookup (fs w) (parts (Spec.st_new s)) = None \/
     In (parts (Spec.st_new s)) (map parts (Spec.matching w archive))) ->
  fst (move_previous_archives E kw w) = Return tt /\
  (forall s, In s (Spec.rotation_plan E (Spec.matching w archive)) ->
     Fs.lookup (fs (snd (move_previous_archives E kw w))) (parts (Spec.st_new s)) =
     Fs.lookup (fs w) (parts (Spec.st_old s))) /\
  (forall s, In s (Spec.rotation_plan E (Spec.matching w archive)) ->
     (forall t, In t (Spec.rotation_plan E (Spec.matching w archive)) ->
        parts (Spec.st_new t) <> parts (Spec.st_old s)) ->
     Fs.lookup (fs (snd (move_previous_archives E kw w))) (parts (Spec.st_old s)) =
     None) /\
  (forall q,
     (forall s, In s (Spec.rotation_plan E (Spec.matching w archive)) ->
        q <> parts (Spec.st_old s) /\ q <> parts (Spec.st_new s)) ->
     Fs.lookup (fs (snd (move_previous_archives E kw w))) q = Fs.lookup (fs w) q).
Proof.
  intros Hseq Ha Hok Hd Hndf Hall Hndm Hfree.
  destruct (rotation_run E kw w archive Hseq Ha Hok Hd Hndf Hall Hndm Hfree)
    as (Hrun & Hndr & Holds).
  set (plan := Spec.rotation_plan E (Spec.matching w archive)) in *.
  rewrite Hrun. cbn [fst snd fs]. split; [reflexivity|]. split; [|split].
  - intros s Hs.
    assert (Hin : In (Spec.st_old s) (Spec.matching w archive)).
    { apply (Permutation_in _ (plan_olds E _)). now apply in_map. }
    destruct (Hall _ Hin) as (_ & (d & Hl) & _).
    rewrite Hl, <- (renamed_old plan s Holds Hs).
    apply (lookup_rotated plan _ _ _ Hndr). now apply lookup_in.
  - intros s Hs Hnone. apply lookup_rotated_none.
    + intros t Ht. now apply Hnone.
    + right. now exists s.
  - intros q Hq. apply (lookup_after plan _ _ Hndr).
    + intros t Ht He. now apply (proj1 (Hq t Ht)).
    + intros t Ht He. now apply (proj2 (Hq t Ht)).
Qed.

Lemma rotation_keeps_every_archive_witness :
  let kw := Sample.kw_with 10 true "test.txt.1.tgz" in
  let archive := mkPath true ["tmp"; "test.txt.1.tgz"] in
  let plan := Spec.rotation_plan Sample.E0 (Spec.matching Sample.w_seq archive) in
  let w' := snd (move_previous_archives Sample.E0 kw Sample.w_seq) in
  fst (move_previous_archives Sample.E0 kw Sample.w_seq) = Return tt /\
  (forall s, In s plan ->
     Fs.lookup (fs w') (parts (Spec.st_new s)) =
     Fs.lookup (fs Sample.w_seq) (parts (Spec.st_old s))) /\
  (forall s, In s plan ->
     (forall t, In t plan -> parts (Spec.st_new t) <> parts (Spec.st_old s)) ->
     Fs.lookup (fs w') (parts (Spec.st_old s)) = None) /\
  (forall q,
     (forall s, In s plan ->
        q <> parts (Spec.st_old s) /\ q <> parts (Spec.st_new s)) ->
     Fs.lookup (fs w') q = Fs.lookup (fs Sample.w_seq) q).
Proof.
  intros kw archive plan w'.
  apply (rotation_keeps_every_archive Sample.E0 kw Sample.w_seq archive).
  - reflexivity.
  - reflexivity.
  - reflexivity.
  - vm_compute. repeat constructor. discriminate.
  - vm_compute. repeat constructor; simpl; intuition discriminate.
  - intros p Hp. vm_compute in Hp.
    destruct Hp as [<-|[<-|[<-|[]]]];
      (split; [eexists; split; vm_compute; reflexivity|]);
      (split; [eexists; vm_compute; reflexivity | vm_compute; reflexivity]).
  - vm_compute. repeat constructor; simpl; intuition discriminate.
  - intros s Hs. vm_compute in Hs.
    destruct Hs as [<-|[<-|[<-|[]]]]; vm_compute; tauto.
Defined.

(** The marker of the archive of a sequential run is 1. *)
Lemma run_archive_marker E kw w archive w' :
  get_sequential kw = true ->
  resolve_destination E kw w = (Return archive, w') ->
  exists src,
    kw_source kw = Some (ArgPath src) /\
    Pathlib.name archive =
      (Pathlib.name src ++ ".1." ++
       (if get_uncompressed kw then "tar" else "tgz"))%string /\
    Spec.marker_value archive = Some 1%Z /\
    Spec.no_dotdot (parts archive).
Proof.
  intros Hseq H. apply resolve_destination_inv in H as (src & dest & Hsrc & _ & ->).
  exists src. split; [exact Hsrc|]. rewrite Hseq.
  assert (Hname : Pathlib.name
            (resolve E (Pathlib.child dest
               (Pathlib.name src ++ "." ++ PyInt.py_str 1 ++ "." ++
                (if get_uncompressed kw then "tar" else "tgz"))%string)) =
            (Pathlib.name src ++ "." ++ PyInt.py_str 1 ++ "." ++
             (if get_uncompressed kw then "tar" else "tgz"))%string).
  { apply name_resolve_child, archive_name_not_dotdot.
    destruct (get_uncompressed kw); discriminate. }
  split; [exact Hname|]. split; [|apply collapse_no_dotdot].
  unfold Spec.marker_value. rewrite Hname.
  rewrite (PatternFacts.rsplit2_archive (Pathlib.name src) (PyInt.py_str 1) _
             eq_refl (PatternFacts.ext_no_dot kw)).
  reflexivity.
Qed.

(** C3.  Take a sequential run for a source whose name holds no wildcard
    character, with a destination directory that exists and whose matching
    archives are regular files with pairwise distinct positive integer
    markers that [str] can shift, in a file system that lists no path
    twice.  Rotation returns after one rename per archive, issued by
    strictly descending marker; each new name is the old one with the
    marker replaced by marker + 1 in plain decimal, and no target is an
    archive that is still to be moved.  The archive of the run is named
    with the marker 1, its place is free once rotation is done, and
    [create_archive] writes it there.  After both steps every earlier
    archive is found under its new name with the contents it had. *)
Theorem rotation_shifts_markers E kw w src archive :
  get_sequential kw = true ->
  kw_source kw = Some (ArgPath src) ->
  kw_archive kw = Some archive ->
  resolve_destination E kw w = (Return archive, w) ->
  Spec.plain (Pathlib.name src) = true ->
  NoDup (map fst (fs w)) ->
  (forall p, In p (Spec.matching w archive) ->
     (exists z, Spec.marker_value p = Some z /\ (0 < z)%Z /\
                PyInt.printable (z + 1) = true) /\
     Spec.is_file (fs w) (parts p) /\
     Fs.has_children (fs w) (parts p) = false) ->
  NoDup (map Spec.marker_value (Spec.matching w archive)) ->
  Fs.is_dir (fs w) (parts (Pathlib.parent archive)) = true ->
  Fs.exists_ (fs w) (parts src) = true ->
  exists w1 w2,
    move_previous_archives E kw w = (Return tt, w1) /\
    create_archive E kw w1 = (Return tt, w2) /\
    calls w2 =
      SysOpenWrite (parts archive) ::
      rev (map Spec.rename_call (Spec.rotation_plan E (Spec.matching w archive))) ++
      calls w /\
    Permutation (map Spec.st_old (Spec.rotation_plan E (Spec.matching w archive)))
                (Spec.matching w archive) /\
    StronglySorted Spec.safely_before
                   (Spec.rotation_plan E (Spec.matching w archive)) /\
    Forall Spec.shifts_marker (Spec.rotation_plan E (Spec.matching w archive)) /\
    (forall s, In s (Spec.rotation_plan E (Spec.matching w archive)) ->
       Fs.lookup (fs w2) (parts (Spec.st_new s)) =
       Fs.lookup (fs w) (parts (Spec.st_old s))) /\
    Pathlib.name archive =
      (Pathlib.name src ++ ".1." ++
       (if get_uncompressed kw then "tar" else "tgz"))%string /\
    Fs.lookup (fs w1) (parts archive) = None /\
    Fs.lookup (fs w2) (parts archive) = Some (File (tar_bytes E)).
Proof.
  intros Hseq Hsrc Ha Hres Hplain Hndf Hall Hndm Hdir Hex.
  destruct (run_archive_marker E kw w archive w Hseq Hres)
    as (src' & Hsrc' & Hname & Hone & Hdd).
  rewrite Hsrc in Hsrc'. injection Hsrc' as <-.
  destruct (PatternFacts.run_pattern_of E kw w archive w Hres) as (src' & Hsrc' & Hpat).
  rewrite Hsrc in Hsrc'. injection Hsrc' as <-.
  set (b := Pathlib.name src) in *.
  set (e := if get_uncompressed kw then "tar" else "tgz") in *.
  assert (Hpe : Spec.plain e = true) by (subst e; now destruct (get_uncompressed kw)).
  assert (Hed : Str.no_dot e = true) by apply PatternFacts.ext_no_dot.
  assert (Hok : Spec.pattern_ok archive).
  { unfold Spec.pattern_ok. rewrite Hpat. subst e.
    rewrite PatternFacts.run_pattern_stars. now apply MatchFacts.plain_no_stars. }
  (* the source is no archive, the place of the new archive is free or
     that of an archive *)
  assert (Hnot : ~ In (parts src) (map parts (Spec.matching w archive))).
  { intros Hin. apply in_map_iff in Hin as (p & Hp & Hin).
    apply MatchFacts.matching_inv in Hin as (_ & _ & Hm).
    unfold Pathlib.name in Hm. rewrite Hp in Hm. fold (Pathlib.name src) in Hm.
    fold b in Hm. rewrite Hpat in Hm.
    apply (MatchFacts.pattern_inv b e b Hplain Hpe) in Hm as (x & Hx).
    apply (f_equal String.length) in Hx.
    rewrite !StrFacts.length_append in Hx. simpl in Hx. lia. }
  assert (Hplace : Fs.lookup (fs w) (parts archive) = None \/
                   In (parts archive) (map parts (Spec.matching w archive))).
  { destruct (Fs.lookup (fs w) (parts archive)) as [n|] eqn:Hl; [right | now left].
    apply MatchFacts.matching_intro.
    - rewrite Hl. discriminate.
    - intros Hnil. unfold Pathlib.name in Hname. rewrite Hnil in Hname.
      cbn [last] in Hname. destruct b; discriminate.
    - reflexivity.
    - fold (Pathlib.name archive). rewrite Hname, Hpat.
      apply (MatchFacts.pattern_matches b "1" e Hplain Hpe). }
  assert (Hall' : forall p, In p (Spec.matching w archive) ->
            Spec.can_shift p /\ Spec.is_file (fs w) (parts p) /\
            Fs.has_children (fs w) (parts p) = false).
  { intros p Hp. destruct (Hall p Hp) as ((z & Hz & _ & Hpr) & Hf & Hk).
    split; [now exists z | now split]. }
  assert (Hc : forall p, In p (Spec.matching w archive) -> Spec.can_shift p)
    by (intros p Hp; apply (Hall' p Hp)).
  destruct (plan_descends E (Spec.matching w archive) Hc Hndm) as [Hsorted Hsteps].
  (* a new name is free or that of an archive *)
  assert (Hfree : forall s, In s (Spec.rotation_plan E (Spec.matching w archive)) ->
            Fs.lookup (fs w) (parts (Spec.st_new s)) = None \/
            In (parts (Spec.st_new s)) (map parts (Spec.matching w archive))).
  { intros s Hs. destruct (Hsteps s Hs) as (Hin & Hmo & _ & Heq & Hpr & Hsh).
    destruct (MatchFacts.matching_inv _ _ _ Hin) as (_ & Hp & Hm).
    destruct (Fs.lookup (fs w) (parts (Spec.st_new s))) as [n|] eqn:Hl;
      [right | now left].
    rewrite Hpat in Hm.
    apply (MatchFacts.pattern_inv b e _ Hplain Hpe) in Hm as (x & Hx).
    destruct Hsh as (_ & _ & stem & m & rest & Hsplit & Hnew).
    rewrite Hx in Hsplit.
    destruct (MatchFacts.shifted_name b e x (PyInt.py_str (Spec.st_marker s + 1))
                stem m rest Hed Hsplit) as (x' & Hx').
    rewrite Hx' in Hnew.
    destruct (step_new_sibling E (Spec.st_marker s)
                (parts (Pathlib.parent archive)) (Pathlib.name (Spec.st_old s))
                ltac:(rewrite <- Hp; exact Hmo) Hpr
                (removelast_no_dotdot _ Hdd)) as (nm' & Hnm').
    rewrite <- Hp, <- Heq in Hnm'.
    assert (Hn : nm' = (b ++ "." ++ x' ++ "." ++ e)%string).
    { rewrite <- Hnew. unfold Pathlib.name. now rewrite Hnm', last_last. }
    apply MatchFacts.matching_intro.
    - rewrite Hl. discriminate.
    - rewrite Hnm'. now destruct (parts (Pathlib.parent archive)).
    - rewrite Hnm'. apply removelast_last.
    - rewrite Hnm', last_last, Hn, Hpat.
      now apply MatchFacts.pattern_matches. }
  destruct (rotation_run E kw w archive Hseq Ha Hok
              (removelast_no_dotdot _ Hdd) Hndf Hall' Hndm Hfree)
    as (Hrun & Hndr & Holds).
  pose proof (plan_olds E (Spec.matching w archive)) as Hperm.
  set (plan := Spec.rotation_plan E (Spec.matching w archive)) in *.
  set (w1 := {| fs := Spec.rotate_fs plan (fs w);
                calls := rev (map Spec.rename_call plan) ++ calls w |}) in *.
  (* the old names are those of regular files, the new names carry markers
     above 1 *)
  assert (Hold_file : forall t, In t plan ->
            Spec.is_file (fs w) (parts (Spec.st_old t))).
  { intros t Ht. destruct (Hsteps t Ht) as (Hin & _). apply (Hall _ Hin). }
  assert (Hnew_not : forall t, In t plan -> parts (Spec.st_new t) <> parts archive).
  { intros t Ht He. destruct (Hsteps t Ht) as (Hin & Hmo & Hmn & _).
    destruct (Hall _ Hin) as ((z & Hz & Hpos & _) & _).
    rewrite (marker_value_parts _ _ He), Hone in Hmn. rewrite Hmo in Hz.
    injection Hz as <-. injection Hmn as Hmn. lia. }
  (* the place of the new archive is free after the rotation *)
  assert (Hfree1 : Fs.lookup (fs w1) (parts archive) = None).
  { cbn [w1 fs]. apply lookup_rotated_none; [exact Hnew_not|].
    destruct Hplace as [Hn|Hin]; [now left|]. right.
    apply in_map_iff in Hin as (p & Hp & Hin).
    apply (Permutation_in _ (Permutation_sym Hperm)) in Hin.
    apply in_map_iff in Hin as (t & Ht & Hin).
    exists t. split; [exact Hin | now rewrite Ht]. }
  (* the destination directory and the source are still there *)
  assert (Hkeep : forall q n, Fs.lookup (fs w) q = Some n ->
            (forall t, In t plan -> parts (Spec.st_old t) <> q) ->
            Fs.lookup (fs w1) q = Some n).
  { intros q n Hq Hne. cbn [w1 fs]. rewrite <- (renamed_fresh plan q Hne) at 1.
    apply (lookup_rotated plan _ _ _ Hndr). now apply lookup_in. }
  assert (Hdir1 : Fs.is_dir (fs w1) (removelast (parts archive)) = true).
  { change (removelast (parts archive)) with (parts (Pathlib.parent archive)).
    unfold Fs.is_dir in *.
    destruct (parts (Pathlib.parent archive)) as [|c r] eqn:Hp; [reflexivity|].
    destruct (Fs.lookup (fs w) (c :: r)) as [[|]|] eqn:Hl; try discriminate.
    rewrite (Hkeep _ Dir Hl); [reflexivity|].
    intros t Ht He. destruct (Hold_file t Ht) as (d & Hd). congruence. }
  assert (Hex1 : Fs.exists_ (fs w1) (parts src) = true).
  { unfold Fs.exists_ in *. destruct (parts src) as [|c r] eqn:Hp; [reflexivity|].
    destruct (Fs.lookup (fs w) (c :: r)) as [n|] eqn:Hl; [|discriminate].
    rewrite (Hkeep _ n Hl); [reflexivity|].
    intros t Ht He. apply Hnot. rewrite <- He.
    apply (in_map parts), (Permutation_in _ Hperm). now apply in_map. }
  destruct (create_archive_ok E kw w1 archive src Ha Hsrc Hdir1
              ltac:(rewrite Hfree1; discriminate) Hex1)
    as (w2 & Hcreate & Hl2 & Hf2 & Hc2 & _).
  exists w1, w2. split; [exact Hrun|]. split; [exact Hcreate|].
  split; [exact Hc2|]. split; [exact Hperm|]. split.
  { rewrite <- (map_id plan). revert Hsorted. apply sorted_map.
    intros s t Hin_s Hin_t Hst. split; [exact Hst|]. intros He.
    destruct (Hsteps s Hin_s) as (_ & _ & Hns & _).
    destruct (Hsteps t Hin_t) as (_ & Hot & _).
    rewrite He, Hot in Hns. injection Hns as Hns. lia. }
  split.
  { apply Forall_forall. intros s Hs. apply (Hsteps s Hs). }
  split.
  { intros s Hs. rewrite (Hf2 _ (Hnew_not s Hs)). cbn [w1 fs].
    destruct (Hold_file s Hs) as (d & Hl).
    rewrite Hl, <- (renamed_old plan s Holds Hs).
    apply (lookup_rotated plan _ _ _ Hndr). now apply lookup_in. }
  split; [exact Hname|]. split; [exact Hfree1 | exact Hl2].
Qed.

Lemma rotation_shifts_markers_witness :
  let kw := Sample.kw_with 10 true "test.txt.1.tgz" in
  let src := mkPath true ["tmp"; "test.txt"] in
  let archive := mkPath true ["tmp"; "test.txt.1.tgz"] in
  let plan := Spec.rotation_plan Sample.E0 (Spec.matching Sample.w_seq archive) in
  exists w1 w2,
    move_previous_archives Sample.E0 kw Sample.w_seq = (Return tt, w1) /\
    create_archive Sample.E0 kw w1 = (Return tt, w2) /\
    calls w2 =
      SysOpenWrite (parts archive) ::
      rev (map Spec.rename_call plan) ++ calls Sample.w_seq /\
    Permutation (map Spec.st_old plan) (Spec.matching Sample.w_seq archive) /\
    StronglySorted Spec.safely_before plan /\
    Forall Spec.shifts_marker plan /\
    (forall s, In s plan ->
       Fs.lookup (fs w2) (parts (Spec.st_new s)) =
       Fs.lookup (fs Sample.w_seq) (parts (Spec.st_old s))) /\
    Pathlib.name archive =
      (Pathlib.name src ++ ".1." ++
       (if get_uncompressed kw then "tar" else "tgz"))%string /\
    Fs.lookup (fs w1) (parts archive) = None /\
    Fs.lookup (fs w2) (parts archive) = Some (File (tar_bytes Sample.E0)).
Proof.
  intros kw src archive plan.
  apply (rotation_shifts_markers Sample.E0 kw Sample.w_seq src archive).
  - reflexivity.
  - reflexivity.
  - reflexivity.
  - vm_compute. reflexivity.
  - reflexivity.
  - vm_compute. repeat constructor; simpl; intuition discriminate.
  - intros p Hp. vm_compute in Hp.
    destruct Hp as [<-|[<-|[<-|[]]]];
      (split; [eexists; split; [vm_compute; reflexivity|split; [lia|vm_compute; reflexivity]]|]);
      (split; [eexists; vm_compute; reflexivity | vm_compute; reflexivity]).
  - vm_compute. repeat constructor; simpl; intuition discriminate.
  - reflexivity.
  - reflexivity.
Defined.

End RotationFsFacts.
